(** * WhatsApp chat analyzer: the parser and the sequential analyses

    A shallow embedding of [src/main.py] (class [WhatsAppAnalyzer]):
    [parse_chat], from the lines of the file through the date conversion to
    the data frame, and the single-pass analyses that scan consecutive rows
    of the frame.

    Conventions of the embedding.
    - A Python [str] is a list of Unicode code points ([N]).
    - A row of [self.df] is an [Event]; the frame is the list of its rows in
      file order.  A [datetime] is a number of seconds on the time line, a
      calendar date is a day number, so [(a - b).total_seconds()] and
      [(a - b).days] are subtractions.
    - Python floats that hold a number of minutes are exact rationals ([Q]).
    - Code that can raise lives in the [result] monad; an index out of range
      is [Raise IndexError], a missing key [Raise KeyError], a division by
      zero [Raise ZeroDivisionError], a string that is no date
      [Raise ValueError].
    - What an analysis prints is what its embedding returns. *)

From Stdlib Require Import List ZArith NArith QArith Bool Arith Lia.
From Stdlib Require Import Permutation Sorted.
From Stdlib Require String Ascii.
Import ListNotations.

Set Implicit Arguments.

(* ================================================================== *)
(** * Exceptions and loops *)

Inductive exn := IndexError | KeyError | ZeroDivisionError | ValueError.

Inductive result (A : Type) : Type :=
| Ok (a : A)
| Raise (e : exn).

Arguments Ok {A} a.
Arguments Raise {A} e.

Definition bind {A B} (m : result A) (f : A -> result B) : result B :=
  match m with
  | Ok a => f a
  | Raise e => Raise e
  end.

Declare Scope result_scope.
Delimit Scope result_scope with result.
Notation "x <- m ;; k" := (bind m (fun x => k))
  (at level 61, m at next level, right associativity) : result_scope.
Notation "' pat <- m ;; k" := (bind m (fun x => match x with pat => k end))
  (at level 61, pat pattern, m at next level, right associativity) : result_scope.
Open Scope result_scope.

(** [l[i]] for a non-negative [i]. *)
Definition index {A} (l : list A) (i : nat) : result A :=
  match nth_error l i with
  | Some a => Ok a
  | None => Raise IndexError
  end.

(** [for i in range(lo, hi): s = body(i, s)], the loop variables threaded
    through as [s]. *)
Fixpoint for_loop {St} (n i : nat) (body : nat -> St -> result St) (s : St) : result St :=
  match n with
  | O => Ok s
  | S n' => s' <- body i s ;; for_loop n' (S i) body s'
  end.

Definition for_range {St} (lo hi : nat) (body : nat -> St -> result St) (s : St) : result St :=
  for_loop (hi - lo) lo body s.

(* ================================================================== *)
(** * Strings *)

Definition char := N.
Definition str := list char.

Definition str_eq_dec : forall a b : str, {a = b} + {a <> b} :=
  list_eq_dec N.eq_dec.

Definition newline : char := 10%N.
Definition carriage_return : char := 13%N.
Definition colon : char := 58%N.

(** The white space of [str.strip()] and of [\s] in a [str] pattern. *)
Definition isspace (c : char) : bool :=
  ((9 <=? c) && (c <=? 13) || (28 <=? c) && (c <=? 32) || (c =? 133) || (c =? 160)
   || (c =? 5760) || (8192 <=? c) && (c <=? 8202) || (c =? 8232) || (c =? 8233)
   || (c =? 8239) || (c =? 8287) || (c =? 12288))%N.

Fixpoint lstrip (s : str) : str :=
  match s with
  | c :: s' => if isspace c then lstrip s' else s
  | [] => []
  end.

Definition rstrip (s : str) : str := rev (lstrip (rev s)).

Definition strip (s : str) : str := lstrip (rstrip s).

(* ================================================================== *)
(** * Regular expressions

    The fragment of [re] the pattern of [parse_chat] is written in, matched
    the way [re.match] does: anchored at the start, leftmost alternative
    first, a greedy [+] that gives characters back when the rest fails. *)

Module Re.

Inductive regex :=
| Lit (c : char)                 (* a literal character *)
| Cls (p : char -> bool)         (* a character class: \d, \s *)
| Cat (r1 r2 : regex)            (* r1 r2 *)
| Rep (n : nat) (r : regex)      (* r{n} *)
| Plus (p : char -> bool)        (* class+ , greedy *)
| Grp (r : regex).               (* ( r ) , a capturing group *)

(** [run r s gs k]: match [r] at the start of [s], then hand the rest of the
    input and the groups closed so far to [k]; when [k] fails, try the next
    way of matching [r]. *)
Fixpoint run {R} (r : regex) (s : str) (gs : list str)
    (k : str -> list str -> option R) : option R :=
  match r with
  | Lit c =>
      match s with
      | x :: s' => if (x =? c)%N then k s' gs else None
      | [] => None
      end
  | Cls p =>
      match s with
      | x :: s' => if p x then k s' gs else None
      | [] => None
      end
  | Cat r1 r2 => run r1 s gs (fun s' gs' => run r2 s' gs' k)
  | Rep n r' =>
      (fix rep (n : nat) (s : str) (gs : list str) : option R :=
         match n with
         | O => k s gs
         | S m => run r' s gs (fun s' gs' => rep m s' gs')
         end) n s gs
  | Plus p =>
      (fix plus (s : str) : option R :=
         match s with
         | x :: s' =>
             if p x then
               match plus s' with
               | Some v => Some v
               | None => k s' gs
               end
             else None
         | [] => None
         end) s
  | Grp r' =>
      run r' s gs (fun s' gs' => k s' (gs' ++ [firstn (length s - length s') s]))
  end.

(** [re.match(r, s)]: the groups of the first match, or nothing. *)
Definition re_match (r : regex) (s : str) : option (list str) :=
  run r s [] (fun _ gs => Some gs).

(** The strings of a regular expression, with the text of each group. *)
Inductive matches : regex -> str -> list str -> Prop :=
| M_Lit c : matches (Lit c) [c] []
| M_Cls p c : p c = true -> matches (Cls p) [c] []
| M_Cat r1 r2 s1 s2 g1 g2 :
    matches r1 s1 g1 -> matches r2 s2 g2 -> matches (Cat r1 r2) (s1 ++ s2) (g1 ++ g2)
| M_Rep0 r : matches (Rep 0 r) [] []
| M_RepS n r s1 s2 g1 g2 :
    matches r s1 g1 -> matches (Rep n r) s2 g2 -> matches (Rep (S n) r) (s1 ++ s2) (g1 ++ g2)
| M_Plus p s : s <> [] -> forallb p s = true -> matches (Plus p) s []
| M_Grp r s g : matches r s g -> matches (Grp r) s (g ++ [s]).

(** The number of groups of a regular expression. *)
Fixpoint groups (r : regex) : nat :=
  match r with
  | Lit _ | Cls _ | Plus _ => 0
  | Cat r1 r2 => groups r1 + groups r2
  | Rep n r' => n * groups r'
  | Grp r' => groups r' + 1
  end.

End Re.

(* ================================================================== *)
(** * parse_chat: the loop over the lines of the file *)

Module Parser.
Import Re.

(** One dictionary appended to [data]. *)
Record Row := mkRow { date : str; time : str; author : str; message : str }.

Section WithDigits.

(** [\d] in a [str] pattern is the interpreter's table of Unicode decimal
    digits. *)
Variable isdecimal : char -> bool.

Definition lit (c : N) : regex := Lit c.
Definition digits (n : nat) : regex := Rep n (Cls isdecimal).
Definition ws : regex := Cls isspace.
Definition not_colon (c : char) : bool := negb (c =? colon)%N.
Definition dot (c : char) : bool := negb (c =? newline)%N.

Fixpoint cat (rs : list regex) : regex :=
  match rs with
  | [] => Rep 0 (Lit 0%N)
  | [r] => r
  | r :: rs' => Cat r (cat rs')
  end.

(** [(\d{2}/\d{2}/\d{4}),\s(\d{2}:\d{2})\s-\s([^:]+):\s(.+)] *)
Definition pattern : regex :=
  cat [ Grp (cat [digits 2; lit 47; digits 2; lit 47; digits 4]); lit 44; ws;
        Grp (cat [digits 2; lit 58; digits 2]); ws; lit 45; ws;
        Grp (Plus not_colon); lit 58; ws;
        Grp (Plus dot) ].

(** The body of the loop for one line: [None] when [re.match] fails. *)
Definition parse_line (line : str) : option Row :=
  match re_match pattern (strip line) with
  | Some [d; t; a; m] => Some (mkRow d t (strip a) (strip m))
  | _ => None
  end.

Definition parse_step (data : list Row) (line : str) : list Row :=
  match parse_line line with
  | Some row => data ++ [row]
  | None => data
  end.

(** The rows one line adds. *)
Definition rows_of_line (line : str) : list Row :=
  match parse_line line with
  | Some row => [row]
  | None => []
  end.

(** Text mode of [open]: [\r\n] and [\r] are read as [\n]. *)
Fixpoint universal_newlines (raw : str) : str :=
  match raw with
  | [] => []
  | c :: t =>
      if (c =? carriage_return)%N then
        match t with
        | c' :: t' => if (c' =? newline)%N then newline :: universal_newlines t'
                      else newline :: universal_newlines t
        | [] => [newline]
        end
      else c :: universal_newlines t
  end.

(** [for line in f]: each line keeps its final [\n]. *)
Fixpoint readlines (text : str) : list str :=
  match text with
  | [] => []
  | c :: t =>
      if (c =? newline)%N then [c] :: readlines t
      else match readlines t with
           | [] => [[c]]
           | l :: ls => (c :: l) :: ls
           end
  end.

(** [data] when the loop of [parse_chat] ends. *)
Definition parse_chat (raw : str) : list Row :=
  fold_left parse_step (readlines (universal_newlines raw)) [].

End WithDigits.

Definition ascii_digit (c : char) : bool := ((48 <=? c) && (c <=? 57))%N.

End Parser.

(* ================================================================== *)
(** * Built-ins the analyses use *)

(** [sorted(l)] under a comparison [leb]: the stable sort.  An element that
    comes earlier in [l] stays before the later elements it ties with. *)
Section Sorting.

Context {A : Type}.
Variable leb : A -> A -> bool.

Fixpoint insert (x : A) (l : list A) : list A :=
  match l with
  | [] => [x]
  | y :: l' => if leb x y then x :: l else y :: insert x l'
  end.

Fixpoint sorted (l : list A) : list A :=
  match l with
  | [] => []
  | x :: l' => insert x (sorted l')
  end.

End Sorting.

Section Builtins.

Context {A : Type}.
Variable eq_dec : forall a b : A, {a = b} + {a <> b}.

Definition eqb_of (a b : A) : bool := if eq_dec a b then true else false.

(** [Series.unique()]: the distinct values in order of first appearance. *)
Fixpoint unique_from (seen l : list A) : list A :=
  match l with
  | [] => []
  | x :: t =>
      if in_dec eq_dec x seen then unique_from seen t
      else x :: unique_from (x :: seen) t
  end.

Definition unique (l : list A) : list A := unique_from [] l.

(** A [dict] keeps its keys in insertion order. *)
Section Dict.

Variable V : Type.

Definition dict := list (A * V).

Fixpoint dict_find (d : dict) (k : A) : option V :=
  match d with
  | [] => None
  | (k', v) :: d' => if eq_dec k k' then Some v else dict_find d' k
  end.

(** [d[k]] *)
Definition dict_get (d : dict) (k : A) : result V :=
  match dict_find d k with
  | Some v => Ok v
  | None => Raise KeyError
  end.

(** [d[k] = v] *)
Fixpoint dict_set (d : dict) (k : A) (v : V) : dict :=
  match d with
  | [] => [(k, v)]
  | (k', v') :: d' =>
      if eq_dec k k' then (k, v) :: d' else (k', v') :: dict_set d' k v
  end.

Definition keys (d : dict) : list A := map fst d.

End Dict.

(** [c[x] += 1] on a [Counter] *)
Definition tally (d : dict nat) (x : A) : dict nat :=
  dict_set d x (match dict_find d x with Some n => S n | None => 1%nat end).

(** [Counter(l)] *)
Definition Counter (l : list A) : dict nat := fold_left tally l [].

(** [c[k]] on a [Counter]: a missing key counts 0. *)
Definition counter_get (d : dict nat) (k : A) : nat :=
  match dict_find d k with
  | Some n => n
  | None => 0%nat
  end.

(** [Counter.most_common(n)]: highest counts first, ties in insertion order. *)
Definition most_common (n : nat) (d : dict nat) : list (A * nat) :=
  firstn n (sorted (fun x y => (snd y <=? snd x)%nat) d).

End Builtins.

Arguments dict A V : clear implicits.

Fixpoint mapM {A B} (f : A -> result B) (l : list A) : result (list B) :=
  match l with
  | [] => Ok []
  | x :: t => y <- f x ;; ys <- mapM f t ;; Ok (y :: ys)
  end.

Definition Qltb (x y : Q) : bool := negb (Qle_bool y x).

(** [x / y] on floats *)
Definition qdiv (x y : Q) : result Q :=
  if Qeq_bool y 0 then Raise ZeroDivisionError else Ok (x / y)%Q.

Definition of_nat (n : nat) : Q := inject_Z (Z.of_nat n).

(** [sum(l)] *)
Definition qsum (l : list Q) : Q := fold_left Qplus l 0%Q.

Definition nsum (l : list nat) : nat := fold_left Nat.add l 0%nat.

(** [max(l)] of a non-empty list *)
Definition nmax (l : list nat) : nat := fold_left Nat.max l 0%nat.

(* ================================================================== *)
(** * The data frame and the analyses *)

Module Frame.

(** The columns of a row that the sequential analyses read. *)
Record Event := mkEvent { author : str; datetime : Z }.

Definition DataFrame := list Event.

(** [df['date_only']]: the calendar day of [datetime]. *)
Definition date_only (e : Event) : Z := (datetime e / 86400)%Z.

(** [self.df.iloc[i]] *)
Definition iloc (df : DataFrame) (i : nat) : result Event := index df i.

(** [timedelta.total_seconds()] *)
Definition total_seconds (td : Z) : Q := inject_Z td.

Definition differ (a b : str) : bool := negb (eqb_of str_eq_dec a b).

(** [(df.iloc[i]['datetime'] - df.iloc[i-1]['datetime']).total_seconds() / 60] *)
Definition minutes (cur prev : Event) : Q :=
  (total_seconds (datetime cur - datetime prev) / 60)%Q.

Definition hours (cur prev : Event) : Q :=
  (total_seconds (datetime cur - datetime prev) / 3600)%Q.

(** ** response_time_analysis *)

Definition response_times_body (df : DataFrame) (i : nat) (response_times : list Q)
  : result (list Q) :=
  cur <- iloc df i ;;
  prev <- iloc df (i - 1) ;;
  if differ (author cur) (author prev) then
    let time_diff := minutes cur prev in
    if Qltb time_diff 60 then Ok (response_times ++ [time_diff])
    else Ok response_times
  else Ok response_times.

Definition response_times (df : DataFrame) : result (list Q) :=
  for_range 1 (length df) (response_times_body df) [].

(** The two numbers printed, or [None] for "Not enough data". *)
Definition response_time_analysis (df : DataFrame) : result (option (Q * Q)) :=
  response_times <- response_times df ;;
  match response_times with
  | _ :: _ =>
      mean <- qdiv (qsum response_times) (of_nat (length response_times)) ;;
      median <- index (sorted Qle_bool response_times) (length response_times / 2) ;;
      Ok (Some (mean, median))
  | [] => Ok None
  end.

(** ** streak_analysis *)

Definition streak_body (dates : list Z) (i : nat) (st : nat * nat * Z)
  : result (nat * nat * Z) :=
  let '(current_streak, max_streak, streak_end) := st in
  d <- index dates i ;;
  d' <- index dates (i - 1) ;;
  if (d - d' =? 1)%Z then
    let current_streak := S current_streak in
    if (max_streak <? current_streak)%nat then Ok (current_streak, current_streak, d)
    else Ok (current_streak, max_streak, streak_end)
  else Ok (1%nat, max_streak, streak_end).

(** Returns [(max_streak, streak_end)]. *)
Definition streak_analysis (df : DataFrame) : result (nat * Z) :=
  let dates := sorted Z.leb (unique Z.eq_dec (map date_only df)) in
  streak_end <- index dates 0 ;;
  '(_, max_streak, streak_end) <-
    for_range 1 (length dates) (streak_body dates) (1%nat, 1%nat, streak_end) ;;
  Ok (max_streak, streak_end).

(** ** author_interaction_matrix *)

Definition interactions_body (df : DataFrame) (i : nat) (interactions : list (str * str))
  : result (list (str * str)) :=
  cur <- iloc df i ;;
  prev <- iloc df (i - 1) ;;
  if differ (author cur) (author prev) then
    let time_diff := minutes cur prev in
    if Qltb time_diff 10 then Ok (interactions ++ [(author prev, author cur)])
    else Ok interactions
  else Ok interactions.

Definition interactions (df : DataFrame) : result (list (str * str)) :=
  for_range 1 (length df) (interactions_body df) [].

Definition pair_eq_dec : forall a b : str * str, {a = b} + {a <> b}.
Proof. decide equality; apply str_eq_dec. Defined.

(** The rows printed: [(from_user, to_user), count]; no row for "Not enough
    data". *)
Definition author_interaction_matrix (df : DataFrame) : result (list (str * str * nat)) :=
  interactions <- interactions df ;;
  match interactions with
  | _ :: _ => Ok (most_common 15 (Counter pair_eq_dec interactions))
  | [] => Ok []
  end.

(** ** author_response_rate *)

Definition response_rate_body (df : DataFrame) (i : nat)
    (st : dict str nat * dict str nat) : result (dict str nat * dict str nat) :=
  let '(author_messages, author_responses) := st in
  cur <- iloc df i ;;
  let author := author cur in
  n <- dict_get str_eq_dec author_messages author ;;
  let author_messages := dict_set str_eq_dec author_messages author (n + 1)%nat in
  if (0 <? i)%nat then
    prev <- iloc df (i - 1) ;;
    if differ (Frame.author cur) (Frame.author prev) then
      let time_diff := minutes cur prev in
      if Qltb time_diff 15 then
        r <- dict_get str_eq_dec author_responses author ;;
        Ok (author_messages, dict_set str_eq_dec author_responses author (r + 1)%nat)
      else Ok (author_messages, author_responses)
    else Ok (author_messages, author_responses)
  else Ok (author_messages, author_responses).

(** The two dictionaries when the scan ends. *)
Definition response_counts (df : DataFrame) : result (dict str nat * dict str nat) :=
  let authors := unique str_eq_dec (map author df) in
  let author_messages :=
    fold_left (fun d a => dict_set str_eq_dec d a 0%nat) authors [] in
  let author_responses :=
    fold_left (fun d a => dict_set str_eq_dec d a 0%nat) authors [] in
  for_range 0 (length df) (response_rate_body df) (author_messages, author_responses).

(** One printed row: [(author, response_rate, total messages)]. *)
Definition response_rate_row (author_messages author_responses : dict str nat)
    (author : str) : result (list (str * Q * nat)) :=
  n <- dict_get str_eq_dec author_messages author ;;
  if (0 <? n)%nat then
    r <- dict_get str_eq_dec author_responses author ;;
    q <- qdiv (of_nat r) (of_nat n) ;;
    Ok [(author, (q * 100)%Q, n)]
  else Ok [].

Definition author_response_rate (df : DataFrame) : result (list (str * Q * nat)) :=
  '(author_messages, author_responses) <- response_counts df ;;
  keyed <- mapM (fun a => n <- dict_get str_eq_dec author_messages a ;; Ok (a, n))
                (keys author_messages) ;;
  let top := firstn 15 (map fst (sorted (fun x y => (snd y <=? snd x)%nat) keyed)) in
  rows <- mapM (response_rate_row author_messages author_responses) top ;;
  Ok (concat rows).

(** ** conversation_length_analysis and reply_chain_depth *)

Definition burst_body (df : DataFrame) (i : nat) (st : list nat * nat)
  : result (list nat * nat) :=
  let '(bursts, current_burst) := st in
  cur <- iloc df i ;;
  prev <- iloc df (i - 1) ;;
  let time_diff := minutes cur prev in
  if Qltb time_diff 5 then Ok (bursts, S current_burst)
  else if (1 <? current_burst)%nat then Ok (bursts ++ [current_burst], 1%nat)
  else Ok (bursts, 1%nat).

(** [bursts] and [current_burst] when the scan ends. *)
Definition bursts_scan (df : DataFrame) : result (list nat * nat) :=
  for_range 1 (length df) (burst_body df) ([], 1%nat).

(** Total, average, longest and median of a non-empty list of run lengths. *)
Definition run_report (runs : list nat) : result (option (nat * Q * nat * nat)) :=
  match runs with
  | _ :: _ =>
      average <- qdiv (of_nat (nsum runs)) (of_nat (length runs)) ;;
      median <- index (sorted Nat.leb runs) (length runs / 2) ;;
      Ok (Some (length runs, average, nmax runs, median))
  | [] => Ok None
  end.

Definition conversation_length_analysis (df : DataFrame)
  : result (option (nat * Q * nat * nat)) :=
  '(bursts, _) <- bursts_scan df ;;
  run_report bursts.

Definition chain_body (df : DataFrame) (i : nat) (st : list nat * nat)
  : result (list nat * nat) :=
  let '(chain_lengths, current_chain) := st in
  cur <- iloc df i ;;
  prev <- iloc df (i - 1) ;;
  let time_diff := minutes cur prev in
  if Qltb time_diff 2 then Ok (chain_lengths, S current_chain)
  else if (2 <? current_chain)%nat then Ok (chain_lengths ++ [current_chain], 1%nat)
  else Ok (chain_lengths, 1%nat).

Definition chains_scan (df : DataFrame) : result (list nat * nat) :=
  for_range 1 (length df) (chain_body df) ([], 1%nat).

Definition reply_chain_depth (df : DataFrame) : result (option (nat * Q * nat * nat)) :=
  '(chain_lengths, _) <- chains_scan df ;;
  run_report chain_lengths.

(** ** reply_speed_by_author *)

Definition reply_times_body (df : DataFrame) (i : nat) (reply_times : dict str (list Q))
  : result (dict str (list Q)) :=
  cur <- iloc df i ;;
  prev <- iloc df (i - 1) ;;
  if differ (author cur) (author prev) then
    let time_diff := minutes cur prev in
    if Qltb time_diff 60 then
      times <- dict_get str_eq_dec reply_times (author cur) ;;
      Ok (dict_set str_eq_dec reply_times (author cur) (times ++ [time_diff]))
    else Ok reply_times
  else Ok reply_times.

Definition reply_times (df : DataFrame) : result (dict str (list Q)) :=
  let reply_times :=
    fold_left (fun d a => dict_set str_eq_dec d a []) (unique str_eq_dec (map author df)) [] in
  for_range 1 (length df) (reply_times_body df) reply_times.

Definition avg_reply_entry (item : str * list Q) : result (list (str * Q)) :=
  let '(author, times) := item in
  if (5 <? length times)%nat then
    avg <- qdiv (qsum times) (of_nat (length times)) ;;
    Ok [(author, avg)]
  else Ok [].

(** [avg_reply] after [avg_reply.sort]. *)
Definition avg_reply (df : DataFrame) : result (list (str * Q)) :=
  reply_times <- reply_times df ;;
  entries <- mapM avg_reply_entry reply_times ;;
  Ok (sorted (fun x y => Qle_bool (snd x) (snd y)) (concat entries)).

(** The rows printed: [avg_reply[:15]]. *)
Definition reply_speed_by_author (df : DataFrame) : result (list (str * Q)) :=
  avg_reply <- avg_reply df ;;
  Ok (firstn 15 avg_reply).

(** ** monologue_detection *)

Record Monologue := mkMonologue { m_author : str; m_count : nat; m_start_time : Z }.

Definition monologue_body (df : DataFrame) (i : nat)
    (st : list Monologue * str * nat * nat) : result (list Monologue * str * nat * nat) :=
  let '(monologues, current_author, current_count, start_idx) := st in
  cur <- iloc df i ;;
  if eqb_of str_eq_dec (author cur) current_author then
    Ok (monologues, current_author, S current_count, start_idx)
  else
    monologues <-
      (if (5 <=? current_count)%nat then
         start <- iloc df start_idx ;;
         Ok (monologues ++ [mkMonologue current_author current_count (datetime start)])
       else Ok monologues) ;;
    Ok (monologues, author cur, 1%nat, i).

Definition monologues_scan (df : DataFrame)
  : result (list Monologue * str * nat * nat) :=
  first <- iloc df 0 ;;
  for_range 1 (length df) (monologue_body df) ([], author first, 1%nat, 0%nat).

(** The monologues printed: the ten longest. *)
Definition monologue_detection (df : DataFrame) : result (list Monologue) :=
  '(monologues, _, _, _) <- monologues_scan df ;;
  Ok (firstn 10 (sorted (fun x y => (m_count y <=? m_count x)%nat) monologues)).

End Frame.

(* ================================================================== *)
(** * What the analyses are compared with

    Definitions that follow the specification's wording: consecutive-event
    transitions, and the part of them each statistic is drawn from. *)

Module Spec.
Import Frame.

(** The consecutive pairs [(previous, current)] of a sequence. *)
Definition transitions (df : DataFrame) : list (Event * Event) :=
  combine df (tl df).

(** Seconds from the previous event to the current one. *)
Definition gap (t : Event * Event) : Z := (datetime (snd t) - datetime (fst t))%Z.

(** Latency of a transition in minutes. *)
Definition latency (t : Event * Event) : Q := (inject_Z (gap t) / 60)%Q.

Definition speaker_change (t : Event * Event) : bool :=
  if str_eq_dec (author (snd t)) (author (fst t)) then false else true.

(** A speaker change answered in strictly less than [m] minutes. *)
Definition reply_within (m : Z) (t : Event * Event) : bool :=
  speaker_change t && (gap t <? 60 * m)%Z.

Definition by_author (a : str) (t : Event * Event) : bool :=
  if str_eq_dec (author (snd t)) a then true else false.

(** Response-time sample: the latencies of the replies within the hour. *)
Definition latency_sample (df : DataFrame) : list Q :=
  map latency (filter (reply_within 60) (transitions df)).

(** Interaction edges: [(previousAuthor, currentAuthor)] of the replies
    within ten minutes. *)
Definition edges (df : DataFrame) : list (str * str) :=
  map (fun t => (author (fst t), author (snd t)))
      (filter (reply_within 10) (transitions df)).

(** The latencies attributed to [a]: replies within the hour whose current
    author is [a]. *)
Definition replies_of (df : DataFrame) (a : str) : list Q :=
  map latency (filter (fun t => reply_within 60 t && by_author a t) (transitions df)).

(** The sum of a sample, each element added to the sum of those after it. *)
Fixpoint total (l : list Q) : Q :=
  match l with
  | [] => 0
  | x :: l' => x + total l'
  end.

(** The arithmetic mean of a sample. *)
Definition mean_of (l : list Q) : Q := (total l / of_nat (length l))%Q.

(** The authors with strictly more than 5 latencies attributed to them, in
    order of first appearance. *)
Definition qualifying (df : DataFrame) : list str :=
  filter (fun a => (5 <? length (replies_of df a))%nat)
         (unique str_eq_dec (map author df)).

(** Responses credited to [a]: replies within fifteen minutes by [a]. *)
Definition credited (df : DataFrame) (a : str) : nat :=
  length (filter (fun t => reply_within 15 t && by_author a t) (transitions df)).

(** Messages of [a]. *)
Definition messages_of (df : DataFrame) (a : str) : nat :=
  count_occ str_eq_dec (map author df) a.

(** A line is in the grammar when a prefix of it, once stripped, is a string
    of the pattern. *)
Definition in_grammar (isdecimal : char -> bool) (line : str) : Prop :=
  exists s1 s2 gs, strip line = s1 ++ s2 /\ Re.matches (Parser.pattern isdecimal) s1 gs.

(** [n] decimal digits. *)
Definition all_digits (isdecimal : char -> bool) (n : nat) (s : str) : Prop :=
  length s = n /\ forallb isdecimal s = true.

(** [DD/MM/YYYY] *)
Definition is_date (isdecimal : char -> bool) (s : str) : Prop :=
  exists dd mm yyyy,
    s = dd ++ [47%N] ++ mm ++ [47%N] ++ yyyy /\
    all_digits isdecimal 2 dd /\ all_digits isdecimal 2 mm /\ all_digits isdecimal 4 yyyy.

(** [HH:MM] *)
Definition is_time (isdecimal : char -> bool) (s : str) : Prop :=
  exists hh mi,
    s = hh ++ [58%N] ++ mi /\ all_digits isdecimal 2 hh /\ all_digits isdecimal 2 mi.

(** [DD/MM/YYYY, HH:MM - Author: Message], written out on the characters of
    the string: each of the four blanks is one white-space character, the
    author is not empty and has no colon, the message is not empty and has
    no line feed. *)
Definition well_formed (isdecimal : char -> bool) (s : str) : Prop :=
  exists date w1 time w2 w3 author w4 message,
    s = date ++ [44%N; w1] ++ time ++ [w2; 45%N; w3] ++ author ++ [58%N; w4] ++ message /\
    is_date isdecimal date /\ is_time isdecimal time /\
    forallb isspace [w1; w2; w3; w4] = true /\
    author <> [] /\ ~ In colon author /\
    message <> [] /\ ~ In newline message.

(** One iteration of the burst scan, on the transition it looks at. *)
Definition burst_step (st : list nat * nat) (t : Event * Event) : list nat * nat :=
  let '(bursts, current_burst) := st in
  if (gap t <? 300)%Z then (bursts, S current_burst)
  else if (1 <? current_burst)%nat then (bursts ++ [current_burst], 1%nat)
  else (bursts, 1%nat).

(** A day with at least one event. *)
Definition active (df : DataFrame) (d : Z) : Prop := In d (map date_only df).

(** The [m] calendar days that end on day [e] are all in [days]. *)
Definition run_in (days : list Z) (e : Z) (m : nat) : Prop :=
  forall k : nat, (k < m)%nat -> In (e - Z.of_nat k)%Z days.

(** A streak of [m] consecutive active days that ends on day [e]. *)
Definition streak_ending (df : DataFrame) (e : Z) (m : nat) : Prop :=
  run_in (map date_only df) e m.

(** One iteration of the streak loop, on the pair of dates it compares. *)
Definition streak_step (st : nat * nat * Z) (t : Z * Z) : nat * nat * Z :=
  let '(current_streak, max_streak, streak_end) := st in
  if (snd t - fst t =? 1)%Z then
    if (max_streak <? S current_streak)%nat then (S current_streak, S current_streak, snd t)
    else (S current_streak, max_streak, streak_end)
  else (1%nat, max_streak, streak_end).

(** What the loop knows after the dates [seen], the last of them [p]. *)
Definition streak_inv (seen : list Z) (p : Z) (st : nat * nat * Z) : Prop :=
  let '(current_streak, max_streak, streak_end) := st in
  In p seen /\ (forall x, In x seen -> (x <= p)%Z) /\
  (1 <= current_streak <= max_streak)%nat /\
  run_in seen p current_streak /\
  (forall m, run_in seen p m -> (m <= current_streak)%nat) /\
  run_in seen streak_end max_streak /\
  (forall e m, run_in seen e m -> (m <= max_streak)%nat).

(** Every [\n] of a line is its last character. *)
Definition newline_only_last (l : str) : Prop :=
  forall pre suf, l = pre ++ newline :: suf -> suf = [].

End Spec.

(* ================================================================== *)
(** * Sample inputs *)

Module Examples.
Import Frame.

Definition A : str := [65%N].
Definition B : str := [66%N].

(** An event by [a] at minute [m]. *)
Definition at_minute (m : Z) (a : str) : Event := mkEvent a (60 * m).

(** An event by [a] at second [s]. *)
Definition at_second (s : Z) (a : str) : Event := mkEvent a s.

(** [(t=0,A), (t=3,B), (t=12,B), (t=14,A)] *)
Definition edge_example : DataFrame :=
  [at_minute 0 A; at_minute 3 B; at_minute 12 B; at_minute 14 A].

(** A reply after 61 minutes. *)
Definition late_reply : DataFrame := [at_minute 0 A; at_minute 61 B].

(** Replies after 1, 2, 3 and 4 minutes. *)
Definition four_replies : DataFrame :=
  [at_minute 0 A; at_minute 1 B; at_minute 3 A; at_minute 6 B; at_minute 10 A].

(** Three events; the first two are [s] seconds apart, the third comes
    long after. *)
Definition pair_then_pause (s : Z) : DataFrame :=
  [at_second 0 A; at_second s B; at_second (s + 1000) A].

(** Five messages in a row by one author, a minute apart. *)
Definition five_in_a_row : DataFrame :=
  [at_minute 0 A; at_minute 1 A; at_minute 2 A; at_minute 3 A; at_minute 4 A].

(** The same five, then another author speaks. *)
Definition five_then_other : DataFrame := five_in_a_row ++ [at_minute 5 B].

(** Events on the days 10, 10, 11, 12, 15 and 16. *)
Definition six_days : DataFrame :=
  map (fun d => mkEvent A (86400 * d + 3600)) [10; 10; 11; 12; 15; 16]%Z.

(** A and B take turns, a minute apart: thirteen events, six replies each. *)
Definition ping_pong : DataFrame :=
  map (fun k => at_minute k (if Z.even k then A else B))
      [0; 1; 2; 3; 4; 5; 6; 7; 8; 9; 10; 11; 12]%Z.

(** The author of turn [k]: [A], [B], ... *)
Definition nth_author (k : nat) : str := [N.of_nat (65 + k)].

(** Sixteen authors take turns, a minute apart, for seven rounds: the first
    has six replies of one minute, each of the others seven. *)
Definition sixteen_authors : DataFrame :=
  map (fun i => at_minute (Z.of_nat i) (nth_author (i mod 16))) (seq 0 112).

(** Three sittings: minutes 0 and 1, minutes 300 and 302, minute 1000. *)
Definition sessions : DataFrame :=
  [at_minute 0 A; at_minute 1 B; at_minute 300 B; at_minute 302 A; at_minute 1000 A].

End Examples.

(* ================================================================== *)
(** * Sample lines *)

Module Lines.
Import String Ascii.

(** The code points of an ASCII literal. *)
Definition of_string (s : string) : str := List.map N_of_ascii (list_ascii_of_string s).

Definition alice_line : str := of_string "12/03/2021, 10:45 - Alice: hello: world  ".
Definition bob_line : str := of_string "12/03/2021, 10:46 - Bob: yo".

(** The second physical line of a message. *)
Definition continuation_line : str := of_string "and this goes on".

Definition alice_row : Parser.Row :=
  Parser.mkRow (of_string "12/03/2021") (of_string "10:45") (of_string "Alice")
               (of_string "hello: world").

Definition bob_row : Parser.Row :=
  Parser.mkRow (of_string "12/03/2021") (of_string "10:46") (of_string "Bob")
               (of_string "yo").

(** A line of the pattern whose date is no calendar date. *)
Definition bad_date_line : str := of_string "99/99/2024, 10:00 - Bob: hi".

(** A file of two lines of the pattern, the second with that date. *)
Definition bad_date_chat : str :=
  (alice_line ++ [newline] ++ bad_date_line ++ [newline])%list.

(** A file of three lines, the second one a continuation line. *)
Definition chat : str :=
  (alice_line ++ [newline] ++ continuation_line ++ [carriage_return; newline]
   ++ bob_line ++ [newline])%list.

End Lines.

(* ================================================================== *)
(** * The other scans of consecutive rows *)

Module Analyses.
Import Frame.

(** [df['hour']]: the hour of the day of [datetime], seconds being counted
    from a midnight. *)
Definition hour (e : Event) : Z := ((datetime e mod 86400) / 3600)%Z.

(** ** conversation_starters *)

Definition starters_body (df : DataFrame) (i : nat) (starters : list str)
  : result (list str) :=
  cur <- iloc df i ;;
  prev <- iloc df (i - 1) ;;
  let time_gap := hours cur prev in
  if Qltb 4 time_gap then Ok (starters ++ [author cur]) else Ok starters.

Definition starters (df : DataFrame) : result (list str) :=
  for_range 1 (length df) (starters_body df) [].

(** One printed row: [(author, count)] and the number handed to [int] for
    the length of the bar, [count / starter_counts[0][1] * 40]. *)
Definition starter_row (starter_counts : list (str * nat)) (item : str * nat)
  : result (str * nat * Q) :=
  let '(author, count) := item in
  top <- index starter_counts 0 ;;
  fill <- qdiv (of_nat count) (of_nat (snd top)) ;;
  Ok (author, count, (fill * 40)%Q).

Definition conversation_starters (top_n : nat) (df : DataFrame)
  : result (list (str * nat * Q)) :=
  starters <- starters df ;;
  let starter_counts := most_common top_n (Counter str_eq_dec starters) in
  mapM (starter_row starter_counts) starter_counts.

(** ** silence_periods *)

Record Silence := mkSilence { s_start : Z; s_end : Z; s_hours : Q }.

Definition silence_body (df : DataFrame) (i : nat) (gaps : list Silence)
  : result (list Silence) :=
  cur <- iloc df i ;;
  prev <- iloc df (i - 1) ;;
  let gap := hours cur prev in
  if Qltb 1 gap then Ok (gaps ++ [mkSilence (datetime prev) (datetime cur) gap])
  else Ok gaps.

Definition silences (df : DataFrame) : result (list Silence) :=
  for_range 1 (length df) (silence_body df) [].

(** The rows printed: the ten longest gaps, each with [days = hours / 24]. *)
Definition silence_periods (df : DataFrame) : result (list (Silence * Q)) :=
  gaps <- silences df ;;
  let gaps := sorted (fun x y => Qle_bool (s_hours y) (s_hours x)) gaps in
  Ok (map (fun gap => (gap, (s_hours gap / 24)%Q)) (firstn 10 gaps)).

(** ** who_talks_to_whom *)

Definition reply_pairs_body (df : DataFrame) (i : nat) (reply_pairs : list (str * str))
  : result (list (str * str)) :=
  cur <- iloc df i ;;
  prev <- iloc df (i - 1) ;;
  if differ (author cur) (author prev) then
    let time_diff := minutes cur prev in
    if Qltb time_diff 5 then Ok (reply_pairs ++ [(author prev, author cur)])
    else Ok reply_pairs
  else Ok reply_pairs.

Definition reply_pairs (df : DataFrame) : result (list (str * str)) :=
  for_range 1 (length df) (reply_pairs_body df) [].

Definition who_talks_to_whom (df : DataFrame) : result (list (str * str * nat)) :=
  reply_pairs <- reply_pairs df ;;
  match reply_pairs with
  | _ :: _ => Ok (most_common 20 (Counter pair_eq_dec reply_pairs))
  | [] => Ok []
  end.

(** ** conversation_initiator_by_time *)

Inductive Period := Morning | Afternoon | Evening | Night.

(** [time_periods], in the order of the dictionary. *)
Definition time_periods : list (Period * (Z * Z)) :=
  [(Morning, (6, 12)); (Afternoon, (12, 18)); (Evening, (18, 24)); (Night, (0, 6))]%Z.

Definition initiators_body (df : DataFrame) (start end_ : Z) (i : nat)
    (starters : list str) : result (list str) :=
  cur <- iloc df i ;;
  let hour := hour cur in
  if (start <=? hour)%Z && (hour <? end_)%Z then
    prev <- iloc df (i - 1) ;;
    let time_gap := hours cur prev in
    if Qltb 3 time_gap then Ok (starters ++ [author cur]) else Ok starters
  else Ok starters.

(** [starters] of one period when its scan ends. *)
Definition initiators (df : DataFrame) (start end_ : Z) : result (list str) :=
  for_range 1 (length df) (initiators_body df start end_) [].

(** For each period, the rows printed under its heading. *)
Definition conversation_initiator_by_time (df : DataFrame)
  : result (list (Period * list (str * nat))) :=
  mapM (fun item : Period * (Z * Z) =>
          let '(period, (start, end_)) := item in
          starters <- initiators df start end_ ;;
          match starters with
          | _ :: _ => Ok (period, most_common 5 (Counter str_eq_dec starters))
          | [] => Ok (period, [])
          end)
       time_periods.

(** ** weekend_vs_weekday *)

(** [datetime.weekday()], Monday being 0; day 0 of the time line is
    1 January 1970, a Thursday. *)
Definition weekday (e : Event) : Z := ((date_only e + 3) mod 7)%Z.

(** [df['day_of_week'].isin(['Saturday', 'Sunday'])] *)
Definition is_weekend (e : Event) : bool := (5 <=? weekday e)%Z.

(** Returns [(weekday, weekday %, weekend, weekend %)].  The percentages
    are the exact quotients; the floats of the code are these, rounded,
    which keeps their order and the bounds 0 and 100, not their sum. *)
Definition weekend_vs_weekday (df : DataFrame) : result (nat * Q * nat * Q) :=
  let weekend := length (filter is_weekend df) in
  let weekday := length (filter (fun e => negb (is_weekend e)) df) in
  let total := (weekend + weekday)%nat in
  weekday_share <- qdiv (of_nat weekday) (of_nat total) ;;
  weekend_share <- qdiv (of_nat weekend) (of_nat total) ;;
  Ok (weekday, (weekday_share * 100)%Q, weekend, (weekend_share * 100)%Q).

End Analyses.

(* ================================================================== *)
(** * parse_chat: from the rows to the data frame *)

Module Construct.
Import Parser.

(** [str.split()]: the maximal runs of characters that are not white
    space; [word] is the run being read. *)
Fixpoint split_from (word : str) (s : str) : list str :=
  match s with
  | [] => match word with [] => [] | _ :: _ => [word] end
  | c :: s' =>
      if isspace c then
        match word with
        | [] => split_from [] s'
        | _ :: _ => word :: split_from [] s'
        end
      else split_from (word ++ [c]) s'
  end.

Definition split (s : str) : list str := split_from [] s.

(** A character of a word. *)
Definition no_space (c : char) : bool := negb (isspace c).

(** [df['word_count']] *)
Definition word_count (row : Row) : nat := length (split (message row)).

(** [row['date'] + ' ' + row['time']], the string of a row that the date
    conversion reads. *)
Definition stamp (row : Row) : str := date row ++ [32%N] ++ time row.

Section WithPandas.

Variable isdecimal : char -> bool.

(** The lines for which [re.match] succeeds. *)
Definition matched (line : str) : bool :=
  match parse_line isdecimal line with
  | Some _ => true
  | None => false
  end.

(** [pd.to_datetime(..., format='%d/%m/%Y %H:%M')] on one string: the
    seconds of the time stamp, or the exception of a string that is no
    date. *)
Variable to_datetime : str -> result Z.

(** [self.df['date'] + ' ' + self.df['time']]: a frame made from no row has
    no column. *)
Definition date_time_column (data : list Row) : result (list str) :=
  match data with
  | [] => Raise KeyError
  | _ :: _ => Ok (map (fun row => date row ++ [32%N] ++ time row) data)
  end.

(** The frame the analyses read. *)
Definition build_frame (data : list Row) : result Frame.DataFrame :=
  column <- date_time_column data ;;
  datetimes <- mapM to_datetime column ;;
  Ok (map (fun p => Frame.mkEvent (author (fst p)) (snd p)) (combine data datetimes)).

(** [WhatsAppAnalyzer(file_path).df] for a file that holds [raw]. *)
Definition load (raw : str) : result Frame.DataFrame :=
  build_frame (parse_chat isdecimal raw).

End WithPandas.

End Construct.

(* ================================================================== *)
(** * The date conversion

    [pd.to_datetime(column, format='%d/%m/%Y %H:%M')] on one string of the
    column.  The column holds strings of sixteen characters,
    [dd/dd/dddd dd:dd] with [\d] digits; the conversion matches the string
    against the expressions of the directives ([%d] is
    [3[0-1]|[1-2]\d|0[1-9]|...], [%m] is [1[0-2]|0[1-9]|...], [%Y] is
    [\d\d\d\d], [%H] is [2[0-3]|[0-1]\d|\d], [%M] is [[0-5]\d|\d]; the
    alternatives of one character cannot match where a field has two),
    reads the fields with [int], and raises [ValueError] when the string
    does not match, when the day is not a day of the month, or when the
    time stamp cannot hold the date.  A string of another length is not
    one of the column and is rejected here. *)

Module Calendar.

Section WithTables.

(** [int(c)] for a decimal digit [c], nothing for another character. *)
Variable decimal : char -> option Z.

(** The seconds since 1 January 1970 that a time stamp of the frame can
    hold. *)
Variable in_bounds : Z -> bool.

Definition isdecimal (c : char) : bool :=
  match decimal c with
  | Some _ => true
  | None => false
  end.

(** An ASCII character from [lo] to [hi]. *)
Definition between (lo hi : N) (c : char) : bool := ((lo <=? c) && (c <=? hi))%N.

(** [int(s)] on decimal digits, [acc] the value read so far. *)
Fixpoint int_from (acc : Z) (s : str) : option Z :=
  match s with
  | [] => Some acc
  | c :: s' =>
      match decimal c with
      | Some v => int_from (10 * acc + v) s'
      | None => None
      end
  end.

(** [%d] on two characters: [3[0-1]|[1-2]\d|0[1-9]] *)
Definition directive_d (a b : char) : bool :=
  (a =? 51)%N && between 48 49 b || between 49 50 a && isdecimal b
  || (a =? 48)%N && between 49 57 b.

(** [%m] on two characters: [1[0-2]|0[1-9]] *)
Definition directive_m (a b : char) : bool :=
  (a =? 49)%N && between 48 50 b || (a =? 48)%N && between 49 57 b.

(** [%H] on two characters: [2[0-3]|[0-1]\d] *)
Definition directive_H (a b : char) : bool :=
  (a =? 50)%N && between 48 51 b || between 48 49 a && isdecimal b.

(** [%M] on two characters: [[0-5]\d] *)
Definition directive_M (a b : char) : bool := between 48 53 a && isdecimal b.

Definition is_leap (y : Z) : bool :=
  ((y mod 4 =? 0) && (negb (y mod 100 =? 0) || (y mod 400 =? 0)))%Z.

Definition days_in_month (y m : Z) : Z :=
  if (m =? 2)%Z then (if is_leap y then 29 else 28)%Z
  else if ((m =? 4) || (m =? 6) || (m =? 9) || (m =? 11))%Z then 30%Z
  else 31%Z.

(** The days from 1 January 1970 to day [d] of month [m] of year [y] of the
    Gregorian calendar; the year is counted from March, so that the leap
    day is its last. *)
Definition days_from_civil (y m d : Z) : Z :=
  let y' := (if m <=? 2 then y - 1 else y)%Z in
  let era := (y' / 400)%Z in
  let year_of_era := (y' - era * 400)%Z in
  let month_from_march := ((m + 9) mod 12)%Z in
  let day_of_year := ((153 * month_from_march + 2) / 5 + d - 1)%Z in
  let day_of_era := (year_of_era * 365 + year_of_era / 4 - year_of_era / 100 + day_of_year)%Z in
  (era * 146097 + day_of_era - 719468)%Z.

Definition to_datetime (s : str) : result Z :=
  match s with
  | [d1; d2; slash1; m1; m2; slash2; y1; y2; y3; y4; space; h1; h2; colon_; n1; n2] =>
      if ((slash1 =? 47) && (slash2 =? 47) && (space =? 32) && (colon_ =? 58))%N
         && directive_d d1 d2 && directive_m m1 m2 && forallb isdecimal [y1; y2; y3; y4]
         && directive_H h1 h2 && directive_M n1 n2
      then
        match int_from 0 [d1; d2], int_from 0 [m1; m2], int_from 0 [y1; y2; y3; y4],
              int_from 0 [h1; h2], int_from 0 [n1; n2] with
        | Some d, Some m, Some y, Some h, Some mi =>
            let t := (86400 * days_from_civil y m d + 3600 * h + 60 * mi)%Z in
            if ((1 <=? y) && (d <=? days_in_month y m))%Z && in_bounds t then Ok t
            else Raise ValueError
        | _, _, _, _, _ => Raise ValueError
        end
      else Raise ValueError
  | _ => Raise ValueError
  end.

End WithTables.

(** [int(c)] on the ASCII digits. *)
Definition ascii_value (c : char) : option Z :=
  if Parser.ascii_digit c then Some (Z.of_N c - 48)%Z else None.

(** What a time stamp of nanoseconds in 64 bits holds, in whole seconds. *)
Definition nanoseconds (t : Z) : bool :=
  ((-9223372036 <=? t) && (t <=? 9223372036))%Z.

End Calendar.

(* ================================================================== *)
(** * What the other scans are compared with *)

(** A row of a frequency table ranks before the rows that count less. *)
Definition by_count {K : Type} (x y : K * nat) : Prop := (snd y <= snd x)%nat.

Module Gaps.
Import Frame Analyses.

(** A transition after more than [h] hours of silence. *)
Definition gap_over (h : Z) (t : Event * Event) : bool :=
  (3600 * h <? Spec.gap t)%Z.

(** The current event of a transition falls in the hours [start, stop). *)
Definition in_period (start stop : Z) (t : Event * Event) : bool :=
  (start <=? hour (snd t))%Z && (hour (snd t) <? stop)%Z.

(** The authors who break a silence of more than [h] hours. *)
Definition openers (h : Z) (df : DataFrame) : list str :=
  map (fun t => author (snd t)) (filter (gap_over h) (Spec.transitions df)).

(** The silence a transition ends. *)
Definition silence_of (t : Event * Event) : Silence :=
  mkSilence (datetime (fst t)) (datetime (snd t)) (hours (snd t) (fst t)).

(** One silence ranks before the shorter ones. *)
Definition longer (x y : Silence) : Prop := (s_hours y <= s_hours x)%Q.

(** The author who breaks the silence. *)
Definition who_of (t : Event * Event) : str := author (snd t).

(** A silence of more than 3 hours broken in the hours [start, stop). *)
Definition during (start stop : Z) (t : Event * Event) : bool :=
  in_period start stop t && gap_over 3 t.

(** 1 for [true], 0 for [false]. *)
Definition one_if (b : bool) : nat := if b then 1%nat else 0%nat.

(** The [n] events from position [s] on are all by [a]. *)
Definition same_author_run (df : DataFrame) (s n : nat) (a : str) : Prop :=
  forall j, (s <= j < s + n)%nat -> exists e, nth_error df j = Some e /\ author e = a.

(** [m] is the maximal run of events by one author that starts at position
    [s] and that a later event by someone else ends. *)
Definition monologue_at (df : DataFrame) (m : Monologue) (s : nat) : Prop :=
  same_author_run df s (m_count m) (m_author m) /\
  (exists e, nth_error df s = Some e /\ m_start_time m = datetime e) /\
  (s = 0%nat \/ exists e, nth_error df (s - 1) = Some e /\ author e <> m_author m) /\
  (exists e, nth_error df (s + m_count m) = Some e /\ author e <> m_author m).

(** The longer monologue ranks first. *)
Definition by_length (x y : Monologue) : Prop := (m_count y <= m_count x)%nat.

(** One iteration of a run scan that breaks at a gap of [limit] seconds and
    keeps the runs longer than [keep]. *)
Definition run_step (limit : Z) (keep : nat) (st : list nat * nat) (t : Event * Event)
  : list nat * nat :=
  let '(runs, current) := st in
  if (Spec.gap t <? limit)%Z then (runs, S current)
  else if (keep <? current)%nat then (runs ++ [current], 1%nat)
  else (runs, 1%nat).

(** A row of the response-rate table ranks before the rows of authors with
    fewer messages. *)
Definition by_messages (x y : str * Q * nat) : Prop := (snd y <= snd x)%nat.

(** The pairs of the replies within five minutes. *)
Definition quick_pairs (df : DataFrame) : list (str * str) :=
  map (fun t => (author (fst t), author (snd t)))
      (filter (Spec.reply_within 5) (Spec.transitions df)).

End Gaps.

(* ================================================================== *)
(** * Loops *)

Lemma bind_ok {A B} (m : result A) (f : A -> result B) b :
  bind m f = Ok b -> exists a, m = Ok a /\ f a = Ok b.
Proof. destruct m; simpl; intros H; [eauto | discriminate]. Qed.

Lemma index_nth_error {A} (l : list A) i a :
  nth_error l i = Some a -> index l i = Ok a.
Proof. unfold index; intros ->; reflexivity. Qed.

Lemma index_lt {A} (l : list A) i :
  (i < length l)%nat -> exists a, index l i = Ok a /\ nth_error l i = Some a.
Proof.
  intros H. unfold index.
  destruct (nth_error l i) as [a|] eqn:E.
  - eauto.
  - apply nth_error_None in E. lia.
Qed.

Lemma index_ge {A} (l : list A) i :
  (length l <= i)%nat -> index l i = Raise IndexError.
Proof.
  intros H. unfold index. apply nth_error_None in H. now rewrite H.
Qed.

(** The loop rule: an invariant that each iteration re-establishes without
    raising holds when the loop ends. *)
Lemma for_loop_invariant {St} (Inv : nat -> St -> Prop) body :
  forall n i (s : St),
    Inv i s ->
    (forall j s', (i <= j < i + n)%nat -> Inv j s' ->
                  exists s'', body j s' = Ok s'' /\ Inv (S j) s'') ->
    exists s', for_loop n i body s = Ok s' /\ Inv (i + n)%nat s'.
Proof.
  induction n as [|n IH]; intros i s Hi Hstep; simpl.
  - exists s. rewrite Nat.add_0_r. auto.
  - destruct (Hstep i s) as (s1 & Hb & Hi1); [lia | assumption |].
    rewrite Hb; simpl.
    destruct (IH (S i) s1 Hi1) as (s2 & Hl & Hi2).
    + intros j s' Hj. apply Hstep. lia.
    + exists s2. split; [assumption|]. now replace (i + S n)%nat with (S i + n)%nat by lia.
Qed.

Lemma for_range_invariant {St} (Inv : nat -> St -> Prop) lo hi body (s : St) :
  (lo <= hi)%nat -> Inv lo s ->
  (forall j s', (lo <= j < hi)%nat -> Inv j s' ->
                exists s'', body j s' = Ok s'' /\ Inv (S j) s'') ->
  exists s', for_range lo hi body s = Ok s' /\ Inv hi s'.
Proof.
  intros Hle H0 Hstep. unfold for_range.
  destruct (@for_loop_invariant St Inv body (hi - lo) lo s H0) as (s' & H1 & H2).
  - intros j s' Hj. apply Hstep. lia.
  - exists s'. split; [assumption|]. now replace hi with (lo + (hi - lo))%nat by lia.
Qed.

Lemma skipn_nth_error {A} (l : list A) : forall j x,
  nth_error l j = Some x -> skipn j l = x :: skipn (S j) l.
Proof.
  induction l as [|a l IH]; intros [|j] x H; simpl in *; try discriminate.
  - now inversion H.
  - now apply IH.
Qed.

(** A loop over [range(1, hi)] whose iteration [j + 1] is a step on the
    [j]-th element of [ts] is a left fold over [ts]. *)
Lemma for_range_scan {St T} (ts : list T) (body : nat -> St -> result St)
      (step : St -> T -> St) hi (s : St) :
  (hi - 1 = length ts)%nat ->
  (forall j s' t, nth_error ts j = Some t -> body (S j) s' = Ok (step s' t)) ->
  for_range 1 hi body s = Ok (fold_left step ts s).
Proof.
  intros Hlen Hbody. unfold for_range. rewrite Hlen.
  assert (G : forall n j s', (j + n = length ts)%nat ->
            for_loop n (S j) body s' = Ok (fold_left step (skipn j ts) s')).
  { induction n as [|n IH]; intros j s' Hj; simpl.
    - rewrite skipn_all2 by lia. reflexivity.
    - destruct (nth_error ts j) as [t|] eqn:E.
      + rewrite (Hbody _ s' _ E); simpl. rewrite IH by lia.
        rewrite (skipn_nth_error _ _ E). reflexivity.
      + apply nth_error_None in E. lia. }
  now rewrite (G (length ts) 0%nat s eq_refl).
Qed.

Lemma fold_left_collect {T U} (P : T -> bool) (f : T -> U) (l : list T) : forall acc,
  fold_left (fun acc t => if P t then acc ++ [f t] else acc) l acc
  = acc ++ map f (filter P l).
Proof.
  induction l as [|t l IH]; intros acc; simpl.
  - now rewrite app_nil_r.
  - rewrite IH. destruct (P t); simpl; [now rewrite <- app_assoc | reflexivity].
Qed.

(* ================================================================== *)
(** * Transitions and thresholds *)

Section Transitions.
Import Frame Spec.

Lemma transitions_length (df : DataFrame) :
  length (transitions df) = (length df - 1)%nat.
Proof.
  unfold transitions. rewrite length_combine.
  destruct df as [|e df]; [reflexivity|].
  simpl tl. simpl length. rewrite Nat.min_r; lia.
Qed.

Lemma transitions_nth_error (df : DataFrame) : forall j p c,
  nth_error (transitions df) j = Some (p, c) ->
  iloc df j = Ok p /\ iloc df (S j) = Ok c.
Proof.
  unfold transitions, iloc. destruct df as [|e df]; [intros [|j]; discriminate|].
  simpl tl. revert e. induction df as [|e' df IH]; intros e [|j] p c H; simpl in *;
    try discriminate.
  - inversion H; subst. split; reflexivity.
  - destruct (IH e' j p c H) as [H1 H2]. split.
    + unfold index in *. simpl. exact H1.
    + unfold index in *. simpl. exact H2.
Qed.

(** [total_seconds / 60 < m] on a whole number of seconds. *)
Lemma minutes_lt (cur prev : Event) (m : Z) :
  Qltb (minutes cur prev) (inject_Z m) = (datetime cur - datetime prev <? 60 * m)%Z.
Proof.
  unfold Qltb, minutes, total_seconds.
  set (z := (datetime cur - datetime prev)%Z).
  destruct (Z.ltb_spec z (60 * m)) as [H|H].
  - apply negb_true_iff. apply not_true_is_false. intros E.
    apply Qle_bool_iff in E. unfold Qle, Qdiv, Qmult, Qinv, inject_Z in E; simpl in E. lia.
  - apply negb_false_iff. apply Qle_bool_iff.
    unfold Qle, Qdiv, Qmult, Qinv, inject_Z; simpl. lia.
Qed.

Lemma differ_speaker_change (p c : Event) :
  differ (author c) (author p) = speaker_change (p, c).
Proof.
  unfold differ, eqb_of, speaker_change; simpl.
  destruct (str_eq_dec (author c) (author p)); reflexivity.
Qed.

Lemma latency_minutes (p c : Event) : minutes c p = latency (p, c).
Proof. reflexivity. Qed.

End Transitions.

(* ================================================================== *)
(** * The stable sort is a sort *)

Section SortingFacts.

Context {A : Type}.
Variable leb : A -> A -> bool.

Lemma insert_perm (x : A) (l : list A) : Permutation (insert leb x l) (x :: l).
Proof.
  induction l as [|y l IH]; simpl.
  - reflexivity.
  - destruct (leb x y).
    + reflexivity.
    + rewrite IH. apply perm_swap.
Qed.

Lemma sorted_perm (l : list A) : Permutation (sorted leb l) l.
Proof.
  induction l as [|x l IH]; simpl.
  - reflexivity.
  - rewrite insert_perm. now constructor.
Qed.

Lemma sorted_length (l : list A) : length (sorted leb l) = length l.
Proof. apply Permutation_length, sorted_perm. Qed.

Lemma sorted_in (l : list A) (x : A) : In x (sorted leb l) <-> In x l.
Proof.
  split; apply Permutation_in; [apply sorted_perm | symmetry; apply sorted_perm].
Qed.

Variable R : A -> A -> Prop.
Hypothesis leb_true : forall x y, leb x y = true -> R x y.
Hypothesis leb_false : forall x y, leb x y = false -> R y x.

Lemma insert_Sorted (x : A) (l : list A) : Sorted R l -> Sorted R (insert leb x l).
Proof.
  induction l as [|y l IH]; simpl; intros Hs.
  - repeat constructor.
  - destruct (leb x y) eqn:E.
    + constructor; [assumption|]. constructor. auto.
    + inversion Hs as [|? ? Hs' Hhd]; subst.
      constructor; [auto|].
      destruct l as [|z l]; simpl.
      * constructor. auto.
      * destruct (leb x z); constructor; [auto|].
        inversion Hhd; assumption.
Qed.

Lemma sorted_Sorted (l : list A) : Sorted R (sorted leb l).
Proof.
  induction l as [|x l IH]; simpl; [constructor | now apply insert_Sorted].
Qed.

End SortingFacts.

Lemma sorted_Qle (l : list Q) : Sorted Qle (sorted Qle_bool l).
Proof.
  apply sorted_Sorted.
  - intros x y H. now apply Qle_bool_iff.
  - intros x y H. apply Qlt_le_weak, Qnot_le_lt. intros C.
    apply Qle_bool_iff in C. congruence.
Qed.

Lemma sorted_Zle (l : list Z) : Sorted Z.le (sorted Z.leb l).
Proof.
  apply sorted_Sorted.
  - intros x y H. now apply Z.leb_le.
  - intros x y H. apply Z.leb_gt in H. lia.
Qed.

(* ================================================================== *)
(** * Scans over consecutive rows *)

Section Scans.
Import Frame Spec.

(** Each scan that appends on a condition of the pair collects, in order,
    exactly the transitions that satisfy the condition. *)
Lemma collect_scan {U} (df : DataFrame) (body : nat -> list U -> result (list U))
      (P : Event * Event -> bool) (f : Event * Event -> U) :
  (forall i acc p c, iloc df i = Ok p -> iloc df (S i) = Ok c ->
     body (S i) acc = Ok (if P (p, c) then acc ++ [f (p, c)] else acc)) ->
  for_range 1 (length df) body [] = Ok (map f (filter P (transitions df))).
Proof.
  intros Hbody.
  rewrite (@for_range_scan _ _ (transitions df) body
             (fun acc t => if P t then acc ++ [f t] else acc)).
  - now rewrite fold_left_collect.
  - now rewrite transitions_length.
  - intros j acc [p c] Hn. apply transitions_nth_error in Hn as [Hp Hc]. now apply Hbody.
Qed.

Lemma response_times_sample (df : DataFrame) :
  response_times df = Ok (latency_sample df).
Proof.
  unfold response_times, latency_sample. apply collect_scan.
  intros i acc p c Hp Hc. unfold response_times_body.
  rewrite Hc; simpl. rewrite Nat.sub_0_r, Hp; simpl.
  change 60%Q with (inject_Z 60). rewrite differ_speaker_change, minutes_lt.
  unfold reply_within; simpl. unfold gap; simpl.
  destruct (speaker_change (p, c)); simpl; [|reflexivity].
  destruct (datetime c - datetime p <? 3600)%Z; reflexivity.
Qed.

Lemma interactions_edges (df : DataFrame) :
  interactions df = Ok (edges df).
Proof.
  unfold interactions, edges. apply collect_scan.
  intros i acc p c Hp Hc. unfold interactions_body.
  rewrite Hc; simpl. rewrite Nat.sub_0_r, Hp; simpl.
  change 10%Q with (inject_Z 10). rewrite differ_speaker_change, minutes_lt.
  unfold reply_within; simpl. unfold gap; simpl.
  destruct (speaker_change (p, c)); simpl; [|reflexivity].
  destruct (datetime c - datetime p <? 600)%Z; reflexivity.
Qed.

End Scans.

(* ================================================================== *)
(** * Response time *)

Section ResponseTime.
Import Frame Spec Examples.

Lemma qdiv_of_nat (x : Q) (n : nat) :
  (0 < n)%nat -> qdiv x (of_nat n) = Ok (x / of_nat n)%Q.
Proof.
  intros H. unfold qdiv.
  destruct (Qeq_bool (of_nat n) 0) eqn:E; [|reflexivity].
  apply Qeq_bool_iff in E. unfold Qeq, of_nat in E; simpl in E. lia.
Qed.

Lemma half_lt (n : nat) : (0 < n)%nat -> (n / 2 < n)%nat.
Proof. intros H. apply Nat.div_lt; lia. Qed.

(** C5. The response-time sample is exactly the list of latencies of the
    speaker-change transitions of strictly less than 60 minutes, in scan
    order; a reply after 61 minutes adds nothing to it; and on a non-empty
    sample of size n the median printed is the element of rank n/2 (integer
    division) of the sorted sample, so 3 for the sample 1, 2, 3, 4. *)
Theorem response_time_sample_and_median (df : DataFrame) :
  response_times df = Ok (latency_sample df) /\
  (latency_sample df = [] -> response_time_analysis df = Ok None) /\
  (latency_sample df <> [] ->
   exists mean median ranked,
     response_time_analysis df = Ok (Some (mean, median)) /\
     Permutation ranked (latency_sample df) /\
     Sorted Qle ranked /\
     nth_error ranked (length (latency_sample df) / 2) = Some median) /\
  response_times late_reply = Ok [] /\
  (exists mean, response_time_analysis four_replies = Ok (Some (mean, (180 # 60)%Q))).
Proof.
  split; [apply response_times_sample|].
  split; [|split; [|split; [reflexivity | eexists; reflexivity]]].
  - intros H. unfold response_time_analysis.
    rewrite response_times_sample; simpl. now rewrite H.
  - intros H. unfold response_time_analysis.
    rewrite response_times_sample; cbn [bind].
    destruct (latency_sample df) as [|q l] eqn:E; [congruence|].
    rewrite qdiv_of_nat by (simpl; lia). cbn [bind].
    destruct (@index_lt _ (sorted Qle_bool (q :: l)) (length (q :: l) / 2))
      as (median & Hi & Hn).
    { rewrite sorted_length. apply half_lt. simpl; lia. }
    rewrite Hi. cbn [bind].
    eexists _, median, (sorted Qle_bool (q :: l)).
    split; [reflexivity|]. split; [apply sorted_perm|].
    split; [apply sorted_Qle | exact Hn].
Qed.

Lemma response_time_sample_and_median_witness :
  (latency_sample late_reply = [] /\ response_time_analysis late_reply = Ok None) /\
  latency_sample four_replies <> [] /\
  exists mean median ranked,
    response_time_analysis four_replies = Ok (Some (mean, median)) /\
    Permutation ranked (latency_sample four_replies) /\
    Sorted Qle ranked /\
    nth_error ranked (length (latency_sample four_replies) / 2) = Some median.
Proof.
  assert (E : latency_sample late_reply = []) by (vm_compute; reflexivity).
  assert (H : latency_sample four_replies <> []) by (vm_compute; discriminate).
  split; [split; [exact E|]|split; [exact H|]].
  - exact (proj1 (proj2 (response_time_sample_and_median late_reply)) E).
  - exact (proj1 (proj2 (proj2 (response_time_sample_and_median four_replies))) H).
Defined.

End ResponseTime.

(* ================================================================== *)
(** * Dictionaries *)

Section DictFacts.

Context {K V : Type}.
Variable eq_dec : forall a b : K, {a = b} + {a <> b}.

Lemma dict_find_set_same (d : dict K V) k v :
  dict_find eq_dec (dict_set eq_dec d k v) k = Some v.
Proof.
  induction d as [|[k' v'] d IH]; simpl.
  - destruct (eq_dec k k); congruence.
  - destruct (eq_dec k k') as [->|N]; simpl.
    + destruct (eq_dec k' k'); congruence.
    + destruct (eq_dec k k'); [congruence | assumption].
Qed.

Lemma dict_find_set_other (d : dict K V) k v k' :
  k' <> k -> dict_find eq_dec (dict_set eq_dec d k v) k' = dict_find eq_dec d k'.
Proof.
  intros N. induction d as [|[k0 v0] d IH]; simpl.
  - destruct (eq_dec k' k); congruence.
  - destruct (eq_dec k k0) as [->|N0]; simpl.
    + destruct (eq_dec k' k0); congruence.
    + destruct (eq_dec k' k0); [reflexivity | assumption].
Qed.

Lemma keys_set_present (d : dict K V) k v :
  In k (keys d) -> keys (dict_set eq_dec d k v) = keys d.
Proof.
  induction d as [|[k' v'] d IH]; simpl; intros H; [contradiction|].
  destruct (eq_dec k k') as [->|N]; simpl; [reflexivity|].
  f_equal. apply IH. destruct H; congruence.
Qed.

Lemma keys_set_absent (d : dict K V) k v :
  ~ In k (keys d) -> keys (dict_set eq_dec d k v) = keys d ++ [k].
Proof.
  induction d as [|[k' v'] d IH]; simpl; intros H; [reflexivity|].
  destruct (eq_dec k k') as [->|N]; simpl; [tauto|].
  f_equal. apply IH. tauto.
Qed.

Lemma keys_set_NoDup (d : dict K V) k v :
  NoDup (keys d) -> NoDup (keys (dict_set eq_dec d k v)).
Proof.
  intros H. destruct (in_dec eq_dec k (keys d)) as [I|I].
  - now rewrite keys_set_present.
  - rewrite keys_set_absent by assumption.
    apply NoDup_rev in H. rewrite <- (rev_involutive (keys d ++ [k])).
    apply NoDup_rev. rewrite rev_app_distr; simpl.
    constructor; [|assumption]. now rewrite <- in_rev.
Qed.

Lemma dict_find_in (d : dict K V) k v :
  dict_find eq_dec d k = Some v -> In (k, v) d.
Proof.
  induction d as [|[k' v'] d IH]; simpl; [discriminate|].
  destruct (eq_dec k k') as [->|N]; intros H.
  - inversion H. now left.
  - right. auto.
Qed.

Lemma in_dict_find (d : dict K V) k v :
  NoDup (keys d) -> In (k, v) d -> dict_find eq_dec d k = Some v.
Proof.
  induction d as [|[k' v'] d IH]; simpl; intros Hn Hi; [contradiction|].
  inversion Hn as [|? ? Hk Hn']; subst.
  destruct Hi as [E|Hi].
  - inversion E; subst. destruct (eq_dec k k); congruence.
  - destruct (eq_dec k k') as [->|N]; [|auto].
    exfalso. apply Hk. change k' with (fst (k', v)). now apply in_map.
Qed.

Lemma dict_find_keys (d : dict K V) k :
  In k (keys d) <-> exists v, dict_find eq_dec d k = Some v.
Proof.
  induction d as [|[k' v'] d IH]; simpl.
  - split; [contradiction | intros [v H]; discriminate].
  - destruct (eq_dec k k') as [->|N].
    + split; eauto.
    + rewrite <- IH. split; [intros [E|H]; congruence | auto].
Qed.

End DictFacts.

Lemma in_firstn {A} (n : nat) : forall (l : list A) (x : A),
  In x (firstn n l) -> In x l.
Proof.
  induction n as [|n IH]; intros [|y l] x H; simpl in *; try contradiction.
  destruct H; auto.
Qed.

Section CounterFacts.

Context {K : Type}.
Variable eq_dec : forall a b : K, {a = b} + {a <> b}.

Lemma counter_get_fold (l : list K) : forall d k,
  counter_get eq_dec (fold_left (tally eq_dec) l d) k
  = (counter_get eq_dec d k + count_occ eq_dec l k)%nat.
Proof.
  induction l as [|x l IH]; intros d k; simpl.
  - lia.
  - rewrite IH. unfold tally, counter_get.
    destruct (eq_dec x k) as [->|N].
    + rewrite dict_find_set_same. destruct (dict_find eq_dec d k); lia.
    + rewrite dict_find_set_other by congruence. lia.
Qed.

Lemma counter_get_count (l : list K) (k : K) :
  counter_get eq_dec (Counter eq_dec l) k = count_occ eq_dec l k.
Proof. exact (counter_get_fold l [] k). Qed.

Lemma Counter_NoDup (l : list K) : NoDup (keys (Counter eq_dec l)).
Proof.
  unfold Counter.
  assert (G : forall d, NoDup (keys d) -> NoDup (keys (fold_left (tally eq_dec) l d))).
  { induction l as [|x l IH]; intros d H; simpl; [assumption|].
    apply IH. now apply keys_set_NoDup. }
  apply G. constructor.
Qed.

Lemma most_common_count (l : list K) (n : nat) (k : K) (c : nat) :
  In (k, c) (most_common n (Counter eq_dec l)) -> c = count_occ eq_dec l k.
Proof.
  unfold most_common. intros H.
  apply in_firstn, sorted_in in H.
  rewrite <- (counter_get_count l k). unfold counter_get.
  now rewrite (in_dict_find eq_dec _ _ _ (Counter_NoDup l) H).
Qed.

End CounterFacts.

(* ================================================================== *)
(** * Interaction edges *)

Section InteractionEdges.
Import Frame Spec Examples.

Lemma reply_within_iff (m : Z) (t : Event * Event) :
  reply_within m t = true <->
  author (snd t) <> author (fst t) /\ (datetime (snd t) - datetime (fst t) < 60 * m)%Z.
Proof.
  unfold reply_within, speaker_change, gap.
  destruct (str_eq_dec (author (snd t)) (author (fst t))) as [E|N]; simpl.
  - split; [discriminate | tauto].
  - rewrite Z.ltb_lt. tauto.
Qed.

(** C4. The interaction scan records, in scan order, the pair
    (previous author, current author) of exactly the consecutive-event
    transitions whose authors differ and whose latency is strictly under
    10 minutes (600 seconds); the counter counts a pair by its ordered
    identity, so every row printed carries the number of occurrences of its
    own ordered pair; and on [(0,A), (3,B), (12,B), (14,A)] the rows are one
    edge A->B and one edge B->A. *)
Theorem interaction_edges_exact (df : DataFrame) :
  interactions df = Ok (edges df) /\
  (forall t, In t (filter (reply_within 10) (transitions df)) <->
             In t (transitions df) /\ author (snd t) <> author (fst t) /\
             (datetime (snd t) - datetime (fst t) < 600)%Z) /\
  (forall pair, counter_get pair_eq_dec (Counter pair_eq_dec (edges df)) pair
                = count_occ pair_eq_dec (edges df) pair) /\
  (exists rows, author_interaction_matrix df = Ok rows /\
     forall pair n, In (pair, n) rows -> n = count_occ pair_eq_dec (edges df) pair) /\
  author_interaction_matrix edge_example = Ok [((A, B), 1%nat); ((B, A), 1%nat)].
Proof.
  split; [apply interactions_edges|].
  split.
  { intros t. rewrite filter_In, reply_within_iff. tauto. }
  split; [intros pair; apply counter_get_count|].
  split; [|reflexivity].
  unfold author_interaction_matrix. rewrite interactions_edges; cbn [bind].
  destruct (edges df) as [|e l] eqn:E.
  - exists []. split; [reflexivity|]. intros pair n [].
  - eexists. split; [reflexivity|].
    intros pair n H. now apply most_common_count in H.
Qed.

Lemma interaction_edges_exact_witness :
  (In (at_minute 0 A, at_minute 3 B) (transitions edge_example) /\
   author (at_minute 3 B) <> author (at_minute 0 A) /\
   (datetime (at_minute 3 B) - datetime (at_minute 0 A) < 600)%Z /\
   In (at_minute 0 A, at_minute 3 B) (filter (reply_within 10) (transitions edge_example))) /\
  1%nat = count_occ pair_eq_dec (edges edge_example) (A, B).
Proof.
  assert (H1 : In (at_minute 0 A, at_minute 3 B) (transitions edge_example))
    by (left; reflexivity).
  assert (H2 : author (at_minute 3 B) <> author (at_minute 0 A))
    by (vm_compute; discriminate).
  assert (H3 : (datetime (at_minute 3 B) - datetime (at_minute 0 A) < 600)%Z)
    by (vm_compute; reflexivity).
  split.
  - repeat split; try assumption.
    apply (proj2 (proj1 (proj2 (interaction_edges_exact edge_example)) _)).
    repeat split; assumption.
  - destruct (proj1 (proj2 (proj2 (proj2 (interaction_edges_exact edge_example)))))
      as (rows & Hrun & Hcount).
    apply Hcount.
    assert (E : rows = [((A, B), 1%nat); ((B, A), 1%nat)])
      by (vm_compute in Hrun; now inversion Hrun).
    rewrite E. left. reflexivity.
Defined.

End InteractionEdges.

(* ================================================================== *)
(** * Bursts, chains and monologues *)

Section Runs.
Import Frame Spec Examples.

(** C6. In the burst scan a gap of 5 minutes or more closes the run in
    progress and the current event starts a new one of length 1, so two
    events exactly 5 minutes (300 seconds) apart are in different bursts; a
    gap strictly under 5 minutes, 4 minutes 59 seconds for one, extends the
    run in progress by the current event. *)
Theorem burst_threshold (df : DataFrame) (i : nat) (prev cur : Event)
        (bursts : list nat) (current_burst : nat) :
  iloc df (i - 1) = Ok prev -> iloc df i = Ok cur ->
  ((300 <= datetime cur - datetime prev)%Z ->
   burst_body df i (bursts, current_burst)
   = Ok (if (1 <? current_burst)%nat then bursts ++ [current_burst] else bursts, 1%nat)) /\
  ((datetime cur - datetime prev < 300)%Z ->
   burst_body df i (bursts, current_burst) = Ok (bursts, S current_burst)) /\
  bursts_scan (pair_then_pause 300) = Ok ([], 1%nat) /\
  bursts_scan (pair_then_pause 299) = Ok ([2%nat], 1%nat).
Proof.
  intros Hp Hc. unfold burst_body. rewrite Hc, Hp; cbn [bind].
  change 5%Q with (inject_Z 5). rewrite minutes_lt. change (60 * 5)%Z with 300%Z.
  repeat split.
  - intros H. apply Z.ltb_ge in H. rewrite H.
    destruct (1 <? current_burst)%nat; reflexivity.
  - intros H. apply Z.ltb_lt in H. now rewrite H.
Qed.

Lemma burst_threshold_witness :
  burst_body (pair_then_pause 300) 1 ([], 1%nat) = Ok ([], 1%nat) /\
  burst_body (pair_then_pause 299) 1 ([], 1%nat) = Ok ([], 2%nat).
Proof.
  split.
  - apply (proj1 (@burst_threshold (pair_then_pause 300) 1 (at_second 0 A)
                    (at_second 300 B) [] 1 eq_refl eq_refl)).
    vm_compute; discriminate.
  - apply (proj1 (proj2 (@burst_threshold (pair_then_pause 299) 1 (at_second 0 A)
                    (at_second 299 B) [] 1 eq_refl eq_refl))).
    vm_compute; reflexivity.
Defined.

Lemma bursts_scan_fold (df : DataFrame) :
  bursts_scan df = Ok (fold_left burst_step (transitions df) ([], 1%nat)).
Proof.
  unfold bursts_scan. apply for_range_scan.
  - now rewrite transitions_length.
  - intros j [bursts current] [p c] H. apply transitions_nth_error in H as [Hp Hc].
    unfold burst_body, burst_step. replace (S j - 1)%nat with j by lia.
    rewrite Hc, Hp; cbn [bind].
    change 5%Q with (inject_Z 5). rewrite minutes_lt. change (60 * 5)%Z with 300%Z.
    unfold gap; cbn [fst snd].
    destruct (datetime c - datetime p <? 300)%Z; [reflexivity|].
    destruct (1 <? current)%nat; reflexivity.
Qed.

(** X19. A sequence that no gap of 5 minutes breaks is one run of all its
    events, and the scan ends with that run still in progress: no burst is
    reported, however long the sequence. *)
Lemma unbroken_burst_is_dropped (df : DataFrame) :
  (forall t, In t (transitions df) -> (gap t < 300)%Z) ->
  bursts_scan df = Ok ([], S (length (transitions df))) /\
  conversation_length_analysis df = Ok None.
Proof.
  intros H.
  assert (G : forall ts n, (forall t, In t ts -> (gap t < 300)%Z) ->
            fold_left burst_step ts ([], n) = ([], (n + length ts)%nat)).
  { induction ts as [|t ts IH]; intros n Ht; simpl.
    - now rewrite Nat.add_0_r.
    - assert (E : (gap t <? 300)%Z = true) by (apply Z.ltb_lt, Ht; now left).
      rewrite E, IH; [f_equal; lia | intros t' Ht'; apply Ht; now right]. }
  assert (E : bursts_scan df = Ok ([], S (length (transitions df)))).
  { rewrite bursts_scan_fold, G by assumption. reflexivity. }
  split; [exact E|]. unfold conversation_length_analysis. now rewrite E.
Qed.

(** C1. The three run scans close a run only when a later event breaks it:
    the run in progress at the end of the sequence is never evaluated.  Five
    messages in a row by one author are no monologue until someone else
    speaks; two events a minute apart are no burst; three events a minute
    apart are no chain. *)
Theorem final_run_is_dropped :
  monologue_detection five_in_a_row = Ok [] /\
  monologue_detection five_then_other = Ok [mkMonologue A 5 0] /\
  bursts_scan [at_minute 0 A; at_minute 1 B] = Ok ([], 2%nat) /\
  conversation_length_analysis [at_minute 0 A; at_minute 1 B] = Ok None /\
  chains_scan [at_minute 0 A; at_minute 1 B; at_minute 2 A] = Ok ([], 3%nat) /\
  reply_chain_depth [at_minute 0 A; at_minute 1 B; at_minute 2 A] = Ok None.
Proof. repeat split; reflexivity. Qed.

End Runs.

(* ================================================================== *)
(** * Sequences of zero or one event *)

Section ShortSequences.
Import Frame Spec Examples.

Lemma eq_dec_refl {A B} (dec : forall a b : A, {a = b} + {a <> b}) (a : A) (x y : B) :
  (if dec a a then x else y) = x.
Proof. destruct (dec a a); congruence. Qed.

(** C2, as the code has it.  On a single event no analysis raises: bursts,
    chains, monologues, interaction edges, response times and reply speeds
    are empty, the response-rate table credits the one author with no
    response out of one message, and the streak is the one-day streak that
    ends on the day of the event.  On no event at all bursts, chains,
    interaction edges, response times, reply speeds and the response-rate
    table are empty and do not raise. *)
Theorem short_sequences (e : Event) :
  (bursts_scan [e] = Ok ([], 1%nat) /\
   conversation_length_analysis [e] = Ok None /\
   reply_chain_depth [e] = Ok None /\
   monologue_detection [e] = Ok [] /\
   author_interaction_matrix [e] = Ok [] /\
   response_time_analysis [e] = Ok None /\
   reply_speed_by_author [e] = Ok [] /\
   (exists rate, author_response_rate [e] = Ok [(author e, rate, 1%nat)] /\ (rate == 0)%Q) /\
   streak_analysis [e] = Ok (1%nat, date_only e)) /\
  (conversation_length_analysis [] = Ok None /\
   reply_chain_depth [] = Ok None /\
   author_interaction_matrix [] = Ok [] /\
   response_time_analysis [] = Ok None /\
   reply_speed_by_author [] = Ok [] /\
   author_response_rate [] = Ok []).
Proof.
  split; [|repeat split; reflexivity].
  repeat split; try reflexivity.
  eexists. split.
    + unfold author_response_rate, response_counts, for_range, response_rate_body,
        response_rate_row, dict_get.
      repeat (cbn -[qdiv str_eq_dec]; rewrite ?eq_dec_refl).
      reflexivity.
    + reflexivity.
Qed.

(** C2 as stated fails on a single event: the streak reported is 1, not 0. *)
Lemma single_event_streak_is_one :
  streak_analysis [at_minute 0 A] = Ok (1%nat, 0%Z) /\
  forall d, streak_analysis [at_minute 0 A] <> Ok (0%nat, d).
Proof. split; [reflexivity | intros d; discriminate]. Qed.

(** The two scans that read row 0 before the loop raise on an empty frame. *)
Lemma empty_frame_raises :
  streak_analysis [] = Raise IndexError /\ monologue_detection [] = Raise IndexError.
Proof. split; reflexivity. Qed.

End ShortSequences.

(* ================================================================== *)
(** * Distinct values, sorted *)

Section UniqueFacts.

Context {A : Type}.
Variable eq_dec : forall a b : A, {a = b} + {a <> b}.

Lemma unique_from_in (l : list A) : forall seen x,
  In x (unique_from eq_dec seen l) <-> In x l /\ ~ In x seen.
Proof.
  induction l as [|y l IH]; intros seen x; simpl.
  - tauto.
  - destruct (in_dec eq_dec y seen) as [I|I].
    + rewrite IH. split; [tauto|]. intros [[E|H] N]; [subst; contradiction | tauto].
    + simpl. rewrite IH. simpl. split.
      * intros [E|[H N]]; [subst; tauto | tauto].
      * intros [[E|H] N]; [tauto|].
        destruct (eq_dec y x); [tauto|]. right. tauto.
Qed.

Lemma unique_from_NoDup (l : list A) : forall seen, NoDup (unique_from eq_dec seen l).
Proof.
  induction l as [|y l IH]; intros seen; simpl.
  - constructor.
  - destruct (in_dec eq_dec y seen); [apply IH|].
    constructor; [|apply IH].
    rewrite unique_from_in. simpl. tauto.
Qed.

Lemma unique_in (l : list A) (x : A) : In x (unique eq_dec l) <-> In x l.
Proof. unfold unique. rewrite unique_from_in. simpl. tauto. Qed.

Lemma unique_NoDup (l : list A) : NoDup (unique eq_dec l).
Proof. apply unique_from_NoDup. Qed.

End UniqueFacts.

Section StrictlySorted.

Lemma Sorted_le_NoDup_lt (l : list Z) :
  Sorted Z.le l -> NoDup l -> StronglySorted Z.lt l.
Proof.
  intros Hs Hn. apply Sorted_StronglySorted in Hs; [|intros x y z; lia].
  induction l as [|x l IH]; [constructor|].
  inversion Hs as [|? ? Hs' Hall]; subst. inversion Hn as [|? ? Hx Hn']; subst.
  constructor; [auto|].
  rewrite Forall_forall in *. intros y Hy.
  specialize (Hall y Hy). assert (x <> y) by (intros ->; contradiction). lia.
Qed.

(** Two strictly increasing lists with the same elements are the same
    list. *)
Lemma StronglySorted_lt_ext (l1 : list Z) : forall l2,
  StronglySorted Z.lt l1 -> StronglySorted Z.lt l2 ->
  (forall x, In x l1 <-> In x l2) -> l1 = l2.
Proof.
  induction l1 as [|a l1 IH]; intros [|b l2] H1 H2 Hin.
  - reflexivity.
  - exfalso. apply (proj2 (Hin b)). now left.
  - exfalso. apply (proj1 (Hin a)). now left.
  - inversion H1 as [|? ? S1 F1]; inversion H2 as [|? ? S2 F2]; subst.
    rewrite Forall_forall in F1, F2.
    assert (a = b).
    { destruct (proj1 (Hin a) (or_introl eq_refl)) as [E|Ia]; [congruence|].
      destruct (proj2 (Hin b) (or_introl eq_refl)) as [E|Ib]; [congruence|].
      specialize (F1 b Ib). specialize (F2 a Ia). lia. }
    subst b. f_equal. apply IH; try assumption.
    intros x. split; intros Hx.
    + destruct (proj1 (Hin x) (or_intror Hx)) as [E|H]; [|assumption].
      subst x. specialize (F1 a Hx). lia.
    + destruct (proj2 (Hin x) (or_intror Hx)) as [E|H]; [|assumption].
      subst x. specialize (F2 a Hx). lia.
Qed.

Lemma sorted_unique_canonical (l dates : list Z) :
  StronglySorted Z.lt dates -> (forall d, In d l <-> In d dates) ->
  sorted Z.leb (unique Z.eq_dec l) = dates.
Proof.
  intros Hs Hin. apply StronglySorted_lt_ext; [|assumption|].
  - apply Sorted_le_NoDup_lt; [apply sorted_Zle|].
    apply (Permutation_NoDup (l := unique Z.eq_dec l)).
    + symmetry. apply sorted_perm.
    + apply unique_NoDup.
  - intros x. now rewrite sorted_in, unique_in.
Qed.

Lemma sorted_unique_ext (l1 l2 : list Z) :
  (forall d, In d l1 <-> In d l2) ->
  sorted Z.leb (unique Z.eq_dec l1) = sorted Z.leb (unique Z.eq_dec l2).
Proof.
  intros Hin. apply sorted_unique_canonical.
  - apply Sorted_le_NoDup_lt; [apply sorted_Zle|].
    apply (Permutation_NoDup (l := unique Z.eq_dec l2)).
    + symmetry. apply sorted_perm.
    + apply unique_NoDup.
  - intros d. now rewrite sorted_in, unique_in.
Qed.

End StrictlySorted.

(* ================================================================== *)
(** * Streaks *)

Section Streaks.
Import Frame Spec Examples.

Lemma consecutive_length {A} (l : list A) :
  length (combine l (tl l)) = (length l - 1)%nat.
Proof.
  rewrite length_combine. destruct l as [|a l]; [reflexivity|].
  simpl tl. simpl length. rewrite Nat.min_r; lia.
Qed.

Lemma consecutive_nth_error {A} (l : list A) : forall j p c,
  nth_error (combine l (tl l)) j = Some (p, c) ->
  nth_error l j = Some p /\ nth_error l (S j) = Some c.
Proof.
  destruct l as [|a l]; [intros [|j]; discriminate|].
  simpl tl. revert a. induction l as [|b l IH]; intros a [|j] p c H; simpl in *;
    try discriminate.
  - inversion H; subst. split; reflexivity.
  - exact (IH b j p c H).
Qed.

Lemma streak_loop_fold (dates : list Z) (st : nat * nat * Z) :
  for_range 1 (length dates) (streak_body dates) st
  = Ok (fold_left streak_step (combine dates (tl dates)) st).
Proof.
  apply for_range_scan.
  - now rewrite consecutive_length.
  - intros j [[c m] e] [d' d] H. apply consecutive_nth_error in H as [Hp Hc].
    unfold streak_body, streak_step. replace (S j - 1)%nat with j by lia.
    rewrite (index_nth_error _ _ Hc), (index_nth_error _ _ Hp). cbn [bind fst snd].
    destruct (d - d' =? 1)%Z; [|reflexivity].
    destruct (m <? S c)%nat; reflexivity.
Qed.

Lemma run_in_head (days : list Z) e m : run_in days e (S m) -> In e days.
Proof. intros H. specialize (H 0%nat). rewrite Z.sub_0_r in H. apply H. lia. Qed.

Lemma run_in_weaken (days days' : list Z) e m :
  (forall x, In x days -> In x days') -> run_in days e m -> run_in days' e m.
Proof. intros Hsub H k Hk. auto. Qed.

Lemma streak_inv_init (d : Z) : streak_inv [d] d (1%nat, 1%nat, d).
Proof.
  assert (R1 : run_in [d] d 1).
  { intros k Hk. replace k with 0%nat by lia. rewrite Z.sub_0_r. now left. }
  assert (B : forall e m, run_in [d] e m -> (m <= 1)%nat).
  { intros e m H. destruct m as [|[|m]]; try lia. exfalso.
    pose proof (H 0%nat ltac:(lia)) as H0. pose proof (H 1%nat ltac:(lia)) as H1.
    simpl in H0, H1. lia. }
  repeat split; auto; try lia.
  - now left.
  - intros x [E|[]]. lia.
  - apply B.
Qed.

Lemma streak_inv_step (seen : list Z) (p d : Z) (st : nat * nat * Z) :
  (p < d)%Z -> streak_inv seen p st ->
  streak_inv (seen ++ [d]) d (streak_step st (p, d)).
Proof.
  destruct st as [[c m] e]. intros Hlt (Hp & Hmax & Hcm & Hrun & Hcur & Hend & Hall).
  assert (Hin : forall x, In x (seen ++ [d]) <-> In x seen \/ x = d).
  { intros x. rewrite in_app_iff. simpl. intuition. }
  assert (Hnew : forall x, In x seen -> (x < d)%Z).
  { intros x Hx. specialize (Hmax x Hx). lia. }
  (* a run of the longer list that ends before [d] lies in [seen] *)
  assert (Hold : forall e' m', e' <> d -> run_in (seen ++ [d]) e' (S m') ->
                               run_in seen e' (S m')).
  { intros e' m' Ne H k Hk.
    assert (He' : In e' seen).
    { apply run_in_head in H. apply Hin in H. tauto. }
    specialize (H k Hk). apply Hin in H. destruct H as [H|H]; [assumption|].
    specialize (Hnew e' He'). lia. }
  (* a run that ends on [d] is [d] after a run that ends on [d - 1] *)
  assert (Htail : forall m', run_in (seen ++ [d]) d (S m') -> run_in seen (d - 1) m').
  { intros m' H k Hk. specialize (H (S k) ltac:(lia)).
    apply Hin in H. destruct H as [H|H]; [|lia].
    replace (d - 1 - Z.of_nat k)%Z with (d - Z.of_nat (S k))%Z by lia. assumption. }
  unfold streak_step; cbn [fst snd].
  destruct (Z.eqb_spec (d - p) 1) as [E|N].
  - assert (Hp1 : p = (d - 1)%Z) by lia.
    assert (Rd : run_in (seen ++ [d]) d (S c)).
    { intros k Hk. apply Hin. destruct k as [|k]; [right; lia|]. left.
      replace (d - Z.of_nat (S k))%Z with (p - Z.of_nat k)%Z by lia.
      apply Hrun. lia. }
    assert (Cd : forall m', run_in (seen ++ [d]) d m' -> (m' <= S c)%nat).
    { intros [|m'] H; [lia|]. apply Htail in H. rewrite <- Hp1 in H.
      apply Hcur in H. lia. }
    assert (Hany : forall e' m', run_in (seen ++ [d]) e' m' ->
                                 (m' <= S c)%nat \/ (m' <= m)%nat).
    { intros e' [|m'] H; [lia|].
      destruct (Z.eq_dec e' d) as [->|Ne]; [left; now apply Cd|].
      right. apply (Hall e'). now apply Hold. }
    destruct (Nat.ltb_spec m (S c)) as [L|L]; cbn.
    + repeat split; auto; try lia.
      * apply Hin. now right.
      * intros x Hx. apply Hin in Hx. destruct Hx as [Hx|Hx]; [specialize (Hnew x Hx)|]; lia.
      * intros e' m' H. destruct (Hany e' m' H); lia.
    + repeat split; auto; try lia.
      * apply Hin. now right.
      * intros x Hx. apply Hin in Hx. destruct Hx as [Hx|Hx]; [specialize (Hnew x Hx)|]; lia.
      * eapply run_in_weaken; [|exact Hend]. intros x Hx. apply Hin. now left.
      * intros e' m' H. destruct (Hany e' m' H); lia.
  - assert (Cd : forall m', run_in (seen ++ [d]) d m' -> (m' <= 1)%nat).
    { intros [|[|m']] H; try lia. exfalso. apply Htail in H.
      apply run_in_head in H. specialize (Hmax _ H). lia. }
    cbn. repeat split; auto; try lia.
    + apply Hin. now right.
    + intros x Hx. apply Hin in Hx. destruct Hx as [Hx|Hx]; [specialize (Hnew x Hx)|]; lia.
    + intros k Hk. replace k with 0%nat by lia. apply Hin. right. lia.
    + eapply run_in_weaken; [|exact Hend]. intros x Hx. apply Hin. now left.
    + intros e' [|m'] H; [lia|].
      destruct (Z.eq_dec e' d) as [->|Ne]; [apply Cd in H; lia|].
      apply (Hall e'). now apply Hold.
Qed.

Lemma streak_inv_fold (rest : list Z) : forall seen p st,
  StronglySorted Z.lt (p :: rest) -> streak_inv seen p st ->
  streak_inv (seen ++ rest) (last rest p)
             (fold_left streak_step (combine (p :: rest) rest) st).
Proof.
  induction rest as [|d rest IH]; intros seen p st Hs Hinv.
  - simpl. now rewrite app_nil_r.
  - inversion Hs as [|? ? Hs' Hall]; subst.
    assert (p < d)%Z by (rewrite Forall_forall in Hall; apply Hall; now left).
    cbn [combine fold_left].
    replace (seen ++ d :: rest) with ((seen ++ [d]) ++ rest)
      by (now rewrite <- app_assoc).
    replace (last (d :: rest) p) with (last rest d)
      by (clear; revert d; induction rest as [|x r IHr]; intros d;
          [reflexivity | simpl in *; destruct r; [reflexivity | apply IHr]]).
    apply IH; [assumption|]. now apply streak_inv_step.
Qed.

End Streaks.

Section StreakAnalysis.
Import Frame Spec Examples.

Lemma dates_strictly_sorted (l : list Z) :
  StronglySorted Z.lt (sorted Z.leb (unique Z.eq_dec l)).
Proof.
  apply Sorted_le_NoDup_lt; [apply sorted_Zle|].
  apply (Permutation_NoDup (l := unique Z.eq_dec l)).
  - symmetry. apply sorted_perm.
  - apply unique_NoDup.
Qed.

Lemma streak_analysis_dates (df : DataFrame) (d : Z) (rest : list Z) :
  sorted Z.leb (unique Z.eq_dec (map date_only df)) = d :: rest ->
  streak_analysis df
  = Ok (let '(_, max_streak, streak_end) :=
          fold_left streak_step (combine (d :: rest) rest) (1%nat, 1%nat, d) in
        (max_streak, streak_end)).
Proof.
  intros E. unfold streak_analysis. rewrite E. cbn [index nth_error bind].
  rewrite streak_loop_fold. cbn [bind tl].
  destruct (fold_left streak_step (combine (d :: rest) rest) (1%nat, 1%nat, d))
    as [[c m] e]. reflexivity.
Qed.

(** C3. The streak analysis depends on the events only through the set of
    their calendar dates: two sequences with the same active days, however
    many events each day has, get the same answer.  On a non-empty sequence
    the streak reported is a run of that many consecutive active days that
    ends on the reported date, and no run of consecutive active days is
    longer; a date that is not exactly one day after the previous active
    date starts a new run.  When the active days are D, D+1, D+2, D+5, D+6
    the answer is 3, ending on D+2. *)
Theorem streak_on_distinct_dates :
  (forall df1 df2, (forall d, active df1 d <-> active df2 d) ->
     streak_analysis df1 = streak_analysis df2) /\
  (forall df, df <> [] ->
     exists m e, streak_analysis df = Ok (m, e) /\ (1 <= m)%nat /\
       streak_ending df e m /\
       forall e' m', streak_ending df e' m' -> (m' <= m)%nat) /\
  (forall df D, (forall d, active df d <-> In d [D; D + 1; D + 2; D + 5; D + 6]%Z) ->
     streak_analysis df = Ok (3%nat, (D + 2)%Z)).
Proof.
  split; [|split].
  - intros df1 df2 H. unfold streak_analysis.
    now rewrite (sorted_unique_ext _ _ H).
  - intros df Hne.
    pose proof (dates_strictly_sorted (map date_only df)) as Hs.
    assert (Hin : forall x, In x (sorted Z.leb (unique Z.eq_dec (map date_only df)))
                            <-> In x (map date_only df)).
    { intros x. now rewrite sorted_in, unique_in. }
    destruct (sorted Z.leb (unique Z.eq_dec (map date_only df))) as [|d rest] eqn:E.
    { destruct df as [|e0 df]; [congruence|]. exfalso.
      apply (proj2 (Hin (date_only e0))). now left. }
    rewrite (streak_analysis_dates _ E).
    pose proof (@streak_inv_fold rest [d] d _ Hs (streak_inv_init d)) as Hinv.
    cbn [app] in Hinv.
    destruct (fold_left streak_step (combine (d :: rest) rest) (1%nat, 1%nat, d))
      as [[c m] e].
    destruct Hinv as (_ & _ & Hcm & _ & _ & Hend & Hall).
    exists m, e. split; [reflexivity|]. split; [lia|]. split.
    + eapply run_in_weaken; [|exact Hend]. intros x. apply Hin.
    + intros e' m' H. apply (Hall e').
      eapply run_in_weaken; [|exact H]. intros x. apply Hin.
  - intros df D H.
    assert (E : sorted Z.leb (unique Z.eq_dec (map date_only df))
                = [D; D + 1; D + 2; D + 5; D + 6]%Z).
    { apply sorted_unique_canonical; [|exact H].
      repeat (constructor; [|repeat (constructor; try lia)]). constructor. }
    rewrite (streak_analysis_dates _ E).
    assert (E1 : (D + 1 - D =? 1)%Z = true) by (apply Z.eqb_eq; lia).
    assert (E2 : (D + 2 - (D + 1) =? 1)%Z = true) by (apply Z.eqb_eq; lia).
    assert (E3 : (D + 5 - (D + 2) =? 1)%Z = false) by (apply Z.eqb_neq; lia).
    assert (E4 : (D + 6 - (D + 5) =? 1)%Z = true) by (apply Z.eqb_eq; lia).
    cbn [combine fold_left].
    unfold streak_step at 4; cbn [fst snd]; rewrite E1; cbn [Nat.ltb Nat.leb].
    unfold streak_step at 3; cbn [fst snd]; rewrite E2; cbn [Nat.ltb Nat.leb].
    unfold streak_step at 2; cbn [fst snd]; rewrite E3.
    unfold streak_step; cbn [fst snd]; rewrite E4; cbn [Nat.ltb Nat.leb].
    reflexivity.
Qed.

Lemma streak_on_distinct_dates_witness :
  streak_analysis six_days = streak_analysis (tl six_days) /\
  (exists m e, streak_analysis six_days = Ok (m, e) /\ (1 <= m)%nat /\
     streak_ending six_days e m /\
     forall e' m', streak_ending six_days e' m' -> (m' <= m)%nat) /\
  streak_analysis six_days = Ok (3%nat, 12%Z).
Proof.
  split; [|split].
  - apply (proj1 streak_on_distinct_dates six_days (tl six_days)).
    intros d. unfold active.
    change (map date_only six_days) with [10; 10; 11; 12; 15; 16]%Z.
    change (map date_only (tl six_days)) with [10; 11; 12; 15; 16]%Z.
    simpl. tauto.
  - apply (proj1 (proj2 streak_on_distinct_dates) six_days). discriminate.
  - apply (proj2 (proj2 streak_on_distinct_dates) six_days 10%Z).
    intros d. unfold active.
    change (map date_only six_days) with [10; 10; 11; 12; 15; 16]%Z.
    simpl. tauto.
Defined.

End StreakAnalysis.

(* ================================================================== *)
(** * Scans that keep a dictionary *)

Section DictScans.

(** The loop rule for a scan over [range(1, hi)], in terms of the part of
    [ts] already seen. *)
Lemma for_range_scan_invariant {St T} (ts : list T) (Inv : list T -> St -> Prop)
      (body : nat -> St -> result St) hi (s : St) :
  (hi - 1 = length ts)%nat ->
  Inv [] s ->
  (forall j s' t, nth_error ts j = Some t -> Inv (firstn j ts) s' ->
     exists s'', body (S j) s' = Ok s'' /\ Inv (firstn j ts ++ [t]) s'') ->
  exists s', for_range 1 hi body s = Ok s' /\ Inv ts s'.
Proof.
  intros Hlen H0 Hstep. unfold for_range. rewrite Hlen.
  destruct (@for_loop_invariant St (fun i s' => (1 <= i)%nat /\ Inv (firstn (i - 1) ts) s')
              body (length ts) 1 s) as (s' & Hl & _ & Hi).
  - split; [lia | exact H0].
  - intros j s' Hj [_ Hinv].
    destruct (nth_error ts (j - 1)) as [t|] eqn:E.
    + destruct (Hstep (j - 1)%nat s' t E Hinv) as (s'' & Hb & Hinv').
      exists s''. replace (S (j - 1)) with j in Hb by lia.
      split; [assumption|]. split; [lia|].
      replace (S j - 1)%nat with (S (j - 1)) by lia.
      rewrite <- (firstn_skipn (j - 1) ts) at 1.
      rewrite (skipn_nth_error _ _ E).
      rewrite firstn_app, firstn_firstn, length_firstn.
      replace (Nat.min (S (j - 1)) (j - 1)) with (j - 1)%nat by lia.
      replace (S (j - 1) - Nat.min (j - 1) (length ts))%nat with 1%nat by lia.
      exact Hinv'.
    + apply nth_error_None in E. lia.
  - exists s'. split; [assumption|].
    replace (1 + length ts - 1)%nat with (length ts) in Hi by lia.
    now rewrite firstn_all in Hi.
Qed.

Lemma mapM_ok {A B} (f : A -> result B) (P : A -> B -> Prop) (l : list A) :
  (forall x, In x l -> exists y, f x = Ok y /\ P x y) ->
  exists ys, mapM f l = Ok ys /\ Forall2 P l ys.
Proof.
  induction l as [|x l IH]; intros H; simpl.
  - exists []. split; [reflexivity | constructor].
  - destruct (H x (or_introl eq_refl)) as (y & Hy & Py). rewrite Hy; simpl.
    destruct IH as (ys & Hys & Pys); [intros z Hz; apply H; now right|].
    rewrite Hys; simpl. exists (y :: ys). split; [reflexivity | now constructor].
Qed.

Lemma Forall2_in_r {A B} (P : A -> B -> Prop) (l : list A) (ys : list B) :
  Forall2 P l ys -> forall y, In y ys -> exists x, In x l /\ P x y.
Proof.
  induction 1 as [|x y l ys Hxy Hrest IH]; intros b Hb; simpl in *; [contradiction|].
  destruct Hb as [->|Hb]; [eauto|].
  destruct (IH b Hb) as (x' & Hx' & Hp). eauto.
Qed.

Lemma Forall2_in_l {A B} (P : A -> B -> Prop) (l : list A) (ys : list B) :
  Forall2 P l ys -> forall x, In x l -> exists y, In y ys /\ P x y.
Proof.
  induction 1 as [|x y l ys Hxy Hrest IH]; intros a Ha; simpl in *; [contradiction|].
  destruct Ha as [->|Ha]; [eauto|].
  destruct (IH a Ha) as (y' & Hy' & Hp). eauto.
Qed.

Context {K V : Type}.
Variable eq_dec : forall a b : K, {a = b} + {a <> b}.

(** [{k: v0 for k in l}] *)
Lemma dict_init_keys (v0 : V) (l : list K) :
  NoDup l -> keys (fold_left (fun d a => dict_set eq_dec d a v0) l []) = l.
Proof.
  assert (G : forall d, NoDup (keys d ++ l) ->
            keys (fold_left (fun d a => dict_set eq_dec d a v0) l d) = keys d ++ l).
  { induction l as [|a l IH]; intros d H; simpl.
    - now rewrite app_nil_r.
    - assert (Na : ~ In a (keys d)).
      { apply NoDup_remove_2 in H. intros I. apply H. apply in_app_iff. now left. }
      rewrite IH; rewrite keys_set_absent by assumption.
      + now rewrite <- app_assoc.
      + now rewrite <- app_assoc. }
  intros H. now rewrite G.
Qed.

Lemma dict_init_find (v0 : V) (l : list K) (k : K) :
  In k l -> dict_find eq_dec (fold_left (fun d a => dict_set eq_dec d a v0) l []) k = Some v0.
Proof.
  assert (G : forall d, In k l \/ dict_find eq_dec d k = Some v0 ->
            dict_find eq_dec (fold_left (fun d a => dict_set eq_dec d a v0) l d) k = Some v0).
  { induction l as [|a l IH]; intros d H; simpl.
    - destruct H as [[]|H]; assumption.
    - apply IH. destruct H as [[E|H]|H]; [|now left|].
      + subst a. right. apply dict_find_set_same.
      + destruct (eq_dec k a) as [->|N]; right;
          [apply dict_find_set_same | now rewrite dict_find_set_other]. }
  intros H. apply G. now left.
Qed.

End DictScans.

(* ================================================================== *)
(** * Reply speed by author *)

Section ReplySpeed.
Import Frame Spec Examples.

Lemma reply_test {X} (p c : Event) (m : Z) (x y : X) :
  (if differ (author c) (author p)
   then if Qltb (minutes c p) (inject_Z m) then x else y
   else y)
  = if reply_within m (p, c) then x else y.
Proof.
  rewrite differ_speaker_change, minutes_lt. unfold reply_within, gap; simpl.
  destruct (speaker_change (p, c)); reflexivity.
Qed.

Lemma transition_in (df : DataFrame) (t : Event * Event) :
  In t (transitions df) -> In (fst t) df /\ In (snd t) df.
Proof.
  destruct t as [p c]. unfold transitions. intros H. split.
  - now apply in_combine_l in H.
  - apply in_combine_r in H. destruct df; [contradiction | now right].
Qed.

Lemma author_in_unique (df : DataFrame) (e : Event) :
  In e df -> In (author e) (unique str_eq_dec (map author df)).
Proof. intros H. apply unique_in. now apply in_map. Qed.

Lemma by_author_iff (a : str) (t : Event * Event) :
  by_author a t = true <-> author (snd t) = a.
Proof. unfold by_author. destruct (str_eq_dec (author (snd t)) a); split; congruence. Qed.

Lemma reply_times_ok (df : DataFrame) :
  exists d, reply_times df = Ok d /\
    keys d = unique str_eq_dec (map author df) /\
    forall a, In a (unique str_eq_dec (map author df)) ->
              dict_find str_eq_dec d a = Some (replies_of df a).
Proof.
  unfold reply_times, replies_of.
  set (authors := unique str_eq_dec (map author df)).
  apply (@for_range_scan_invariant _ _ (transitions df)
           (fun seen d => keys d = authors /\
              forall a, In a authors ->
                dict_find str_eq_dec d a
                = Some (map latency (filter (fun t => reply_within 60 t && by_author a t) seen)))).
  - now rewrite transitions_length.
  - split.
    + apply dict_init_keys, unique_NoDup.
    + intros a Ha. now apply dict_init_find.
  - intros j d [p c] Hn [Hk Hf].
    assert (Hc : In (author c) authors).
    { apply author_in_unique. apply nth_error_In in Hn.
      now apply transition_in in Hn. }
    apply transitions_nth_error in Hn as [Hp Hcur].
    unfold reply_times_body. replace (S j - 1)%nat with j by lia.
    rewrite Hcur, Hp; cbn [bind].
    change 60%Q with (inject_Z 60). rewrite reply_test.
    destruct (reply_within 60 (p, c)) eqn:R.
    + unfold dict_get. rewrite (Hf _ Hc). cbn [bind].
      eexists. split; [reflexivity|]. split.
      * rewrite keys_set_present; [assumption | now rewrite Hk].
      * intros a Ha. rewrite filter_app, map_app. cbn [filter]. rewrite R.
        destruct (str_eq_dec a (author c)) as [->|N].
        -- rewrite dict_find_set_same.
           replace (by_author (author c) (p, c)) with true
             by (symmetry; now apply by_author_iff).
           reflexivity.
        -- rewrite dict_find_set_other by assumption. rewrite (Hf _ Ha).
           destruct (by_author a (p, c)) eqn:B;
             [apply by_author_iff in B; simpl in B; congruence|].
           cbn. now rewrite app_nil_r.
    + eexists. split; [reflexivity|]. split; [assumption|].
      intros a Ha. rewrite filter_app, map_app. cbn [filter]. rewrite R.
      cbn. rewrite app_nil_r. auto.
Qed.

Lemma replies_author (df : DataFrame) (a : str) :
  replies_of df a <> [] -> In a (unique str_eq_dec (map author df)).
Proof.
  unfold replies_of. intros H.
  destruct (filter _ (transitions df)) as [|t l] eqn:E; [contradiction|].
  assert (Ht : In t (filter (fun t => reply_within 60 t && by_author a t) (transitions df)))
    by (rewrite E; now left).
  apply filter_In in Ht as [Ht Hc]. apply andb_true_iff in Hc as [_ Hc].
  apply by_author_iff in Hc. subst a.
  apply author_in_unique. now apply transition_in in Ht.
Qed.

(** An author is in [avg_reply], with what the code computes from the
    latencies attributed to them, exactly when there are more than 5. *)
Lemma avg_reply_exact (df : DataFrame) :
  exists table, avg_reply df = Ok table /\
    forall a avg, In (a, avg) table <->
      (5 < length (replies_of df a))%nat /\
      avg = (qsum (replies_of df a) / of_nat (length (replies_of df a)))%Q.
Proof.
  destruct (reply_times_ok df) as (d & Hd & Hk & Hf).
  unfold avg_reply. rewrite Hd; cbn [bind].
  destruct (@mapM_ok _ _ avg_reply_entry
              (fun item ys => ys = if (5 <? length (snd item))%nat
                                   then [(fst item, (qsum (snd item) / of_nat (length (snd item)))%Q)]
                                   else []) d) as (entries & He & HP).
  { intros [a times] _. unfold avg_reply_entry. cbn [fst snd].
    destruct (Nat.ltb_spec 5 (length times)) as [L|L].
    - rewrite qdiv_of_nat by lia. cbn [bind]. eauto.
    - eauto. }
  rewrite He; cbn [bind]. eexists. split; [reflexivity|].
  assert (Hnd : NoDup (keys d)) by (rewrite Hk; apply unique_NoDup).
  intros a avg. rewrite sorted_in, in_concat. split.
  - intros (ys & Hys & Hin).
    destruct (Forall2_in_r HP _ Hys) as ([a' times] & Hitem & Hy). cbn [fst snd] in Hy.
    destruct (Nat.ltb_spec 5 (length times)) as [L|L]; subst ys; [|contradiction].
    destruct Hin as [E|[]]. inversion E; subst a' avg.
    assert (Ha : In a (unique str_eq_dec (map author df))).
    { rewrite <- Hk. change a with (fst (a, times)). now apply in_map. }
    apply (in_dict_find str_eq_dec _ _ _ Hnd) in Hitem.
    rewrite (Hf _ Ha) in Hitem. inversion Hitem; subst times. split; [assumption | reflexivity].
  - intros [L ->].
    assert (Ha : In a (unique str_eq_dec (map author df))).
    { apply replies_author. destruct (replies_of df a); [simpl in L; lia | discriminate]. }
    pose proof (dict_find_in _ _ _ (Hf _ Ha)) as Hitem.
    destruct (Forall2_in_l HP _ Hitem) as (ys & Hys & Hy). cbn [fst snd] in Hy.
    exists ys. split; [assumption|]. subst ys.
    apply Nat.ltb_lt in L. rewrite L. now left.
Qed.

End ReplySpeed.

(* ================================================================== *)
(** * Response rate by author *)

Section ResponseRate.
Import Frame Spec Examples.

Lemma nth_error_transitions (df : DataFrame) : forall j p c,
  nth_error df j = Some p -> nth_error df (S j) = Some c ->
  nth_error (transitions df) j = Some (p, c).
Proof.
  unfold transitions. destruct df as [|e df]; [intros [|j]; discriminate|].
  simpl tl. revert e. induction df as [|e' df IH]; intros e [|j] p c Hp Hc;
    simpl in *; try discriminate.
  - congruence.
  - now apply IH.
Qed.

Lemma firstn_snoc {A} (l : list A) : forall j x,
  nth_error l j = Some x -> firstn (S j) l = firstn j l ++ [x].
Proof.
  induction l as [|a l IH]; intros [|j] x H; simpl in *; try discriminate.
  - now inversion H.
  - f_equal. now apply IH.
Qed.

(** A response is credited to the author of the current event of a
    transition, and each event is current in one transition at most. *)
Lemma credited_le_messages (df : DataFrame) (a : str) :
  (credited df a <= messages_of df a)%nat.
Proof.
  unfold credited, messages_of, transitions.
  assert (G : forall (l l' : DataFrame),
            (length (filter (fun t => reply_within 15 t && by_author a t) (combine l l'))
             <= count_occ str_eq_dec (map author l') a)%nat).
  { induction l as [|p l IH]; intros [|c l']; simpl; try lia.
    specialize (IH l').
    unfold by_author at 1. cbn [snd].
    destruct (str_eq_dec (author c) a); destruct (reply_within 15 (p, c)); simpl; lia. }
  specialize (G df (tl df)).
  destruct df as [|e df]; simpl in *; [lia|].
  destruct (str_eq_dec (author e) a); lia.
Qed.

Lemma response_counts_ok (df : DataFrame) :
  exists author_messages author_responses,
    response_counts df = Ok (author_messages, author_responses) /\
    keys author_messages = unique str_eq_dec (map author df) /\
    forall a, In a (unique str_eq_dec (map author df)) ->
      dict_find str_eq_dec author_messages a = Some (messages_of df a) /\
      dict_find str_eq_dec author_responses a = Some (credited df a).
Proof.
  unfold response_counts, messages_of, credited.
  set (authors := unique str_eq_dec (map author df)).
  set (P := fun a (t : Event * Event) => reply_within 15 t && by_author a t).
  destruct (@for_range_invariant _
    (fun i (st : dict str nat * dict str nat) =>
       keys (fst st) = authors /\ keys (snd st) = authors /\
       forall a, In a authors ->
         dict_find str_eq_dec (fst st) a
         = Some (count_occ str_eq_dec (map author (firstn i df)) a) /\
         dict_find str_eq_dec (snd st) a
         = Some (length (filter (P a) (firstn (i - 1) (transitions df)))))
    0 (length df) (response_rate_body df)
    (fold_left (fun d a => dict_set str_eq_dec d a 0%nat) authors [],
     fold_left (fun d a => dict_set str_eq_dec d a 0%nat) authors []))
    as ([msgs resps] & Hrun & Hk & _ & Hf).
  - lia.
  - cbn [fst snd]. repeat split; try (apply dict_init_keys, unique_NoDup);
      now apply dict_init_find.
  - intros i [msgs resps] Hi (Hkm & Hkr & Hf). cbn [fst snd] in *.
    destruct (@index_lt _ df i) as (cur & Hcur & Hn); [lia|].
    assert (Hc : In (author cur) authors).
    { apply author_in_unique. eapply nth_error_In; eauto. }
    unfold response_rate_body. fold (iloc df i) in Hcur. rewrite Hcur; cbn [bind].
    unfold dict_get at 1. rewrite (proj1 (Hf _ Hc)); cbn [bind].
    assert (Hm : forall a, In a authors ->
              dict_find str_eq_dec
                (dict_set str_eq_dec msgs (author cur)
                   (count_occ str_eq_dec (map author (firstn i df)) (author cur) + 1)%nat) a
              = Some (count_occ str_eq_dec (map author (firstn (S i) df)) a)).
    { intros a Ha. rewrite (firstn_snoc _ _ Hn), map_app, count_occ_app. cbn [map count_occ].
      destruct (str_eq_dec a (author cur)) as [->|N].
      - rewrite dict_find_set_same, eq_dec_refl. reflexivity.
      - rewrite dict_find_set_other by assumption. rewrite (proj1 (Hf _ Ha)).
        destruct (str_eq_dec (author cur) a); [congruence|]. f_equal; lia. }
    assert (Hkm' : keys (dict_set str_eq_dec msgs (author cur)
                     (count_occ str_eq_dec (map author (firstn i df)) (author cur) + 1)%nat)
                   = authors).
    { rewrite keys_set_present; [assumption | now rewrite Hkm]. }
    destruct i as [|j].
    + cbn [Nat.ltb Nat.leb]. eexists. split; [reflexivity|]. cbn [fst snd].
      repeat split; auto. apply (Hf _ H).
    + replace (0 <? S j)%nat with true by reflexivity.
      replace (S j - 1)%nat with j in * by lia.
      destruct (@index_lt _ df j) as (prev & Hprev & Hnp); [lia|].
      fold (iloc df j) in Hprev. rewrite Hprev; cbn [bind].
      change 15%Q with (inject_Z 15). rewrite reply_test.
      pose proof (nth_error_transitions _ _ Hnp Hn) as Ht.
      replace (S (S j) - 1)%nat with (S j) by lia.
      destruct (reply_within 15 (prev, cur)) eqn:R.
      * unfold dict_get. rewrite (proj2 (Hf _ Hc)); cbn [bind].
        eexists. split; [reflexivity|]. cbn [fst snd].
        split; [assumption|]. split.
        { rewrite keys_set_present; [assumption | now rewrite Hkr]. }
        intros a Ha. split; [now apply Hm|].
        rewrite (firstn_snoc _ _ Ht), filter_app, length_app. cbn [filter].
        change (P a (prev, cur)) with (reply_within 15 (prev, cur) && by_author a (prev, cur)).
        rewrite R.
        destruct (str_eq_dec a (author cur)) as [->|N].
        -- rewrite dict_find_set_same.
           replace (by_author (author cur) (prev, cur)) with true
             by (symmetry; now apply by_author_iff).
           reflexivity.
        -- rewrite dict_find_set_other by assumption. rewrite (proj2 (Hf _ Ha)).
           destruct (by_author a (prev, cur)) eqn:B;
             [apply by_author_iff in B; simpl in B; congruence|].
           cbn. f_equal; lia.
      * eexists. split; [reflexivity|]. cbn [fst snd].
        split; [assumption|]. split; [assumption|].
        intros a Ha. split; [now apply Hm|].
        rewrite (firstn_snoc _ _ Ht), filter_app, length_app. cbn [filter].
        change (P a (prev, cur)) with (reply_within 15 (prev, cur) && by_author a (prev, cur)).
        rewrite R. cbn. rewrite (proj2 (Hf _ Ha)). f_equal; lia.
  - exists msgs, resps. cbn [fst snd] in *. split; [assumption|]. split; [assumption|].
    intros a Ha. destruct (Hf _ Ha) as [H1 H2].
    rewrite firstn_all in H1. rewrite <- transitions_length, firstn_all in H2.
    split; assumption.
Qed.

End ResponseRate.

Section ResponseRateTable.
Import Frame Spec Examples.

Lemma rate_bounds (r n : nat) :
  (0 < n)%nat -> (r <= n)%nat ->
  (0 <= of_nat r / of_nat n * 100)%Q /\ (of_nat r / of_nat n * 100 <= 100)%Q.
Proof.
  intros Hn Hr. destruct n as [|n]; [lia|].
  unfold Qle, Qdiv, Qmult, Qinv, of_nat, inject_Z. cbn. split; lia.
Qed.

(** C9. When the scan ends, every author's entry of [author_messages] is the
    number of that author's messages and the entry of [author_responses] is
    the number of replies within 15 minutes credited to that author; the
    second never exceeds the first; and every row printed shows a rate of
    credited responses over messages, times 100, that lies between 0 and
    100. *)
Theorem response_rate_bounded (df : DataFrame) :
  (exists author_messages author_responses,
     response_counts df = Ok (author_messages, author_responses) /\
     forall a, In a (map author df) ->
       dict_find str_eq_dec author_messages a = Some (messages_of df a) /\
       dict_find str_eq_dec author_responses a = Some (credited df a)) /\
  (forall a, (credited df a <= messages_of df a)%nat) /\
  exists rows, author_response_rate df = Ok rows /\
    forall a rate n, In (a, rate, n) rows ->
      n = messages_of df a /\
      rate = (of_nat (credited df a) / of_nat n * 100)%Q /\
      (0 <= rate)%Q /\ (rate <= 100)%Q.
Proof.
  destruct (response_counts_ok df) as (msgs & resps & Hrun & Hk & Hf).
  split.
  { exists msgs, resps. split; [assumption|]. intros a Ha. apply Hf. now apply unique_in. }
  split; [intros a; apply credited_le_messages|].
  unfold author_response_rate. rewrite Hrun; cbn [bind].
  destruct (@mapM_ok _ _
              (fun a => n <- dict_get str_eq_dec msgs a ;; Ok (a, n))
              (fun a y => fst y = a) (keys msgs)) as (keyed & Hkeyed & HP).
  { intros a Ha. rewrite Hk in Ha. unfold dict_get. rewrite (proj1 (Hf _ Ha)). cbn [bind].
    eauto. }
  rewrite Hkeyed; cbn [bind].
  set (top := firstn 15 (map fst (sorted (fun x y => (snd y <=? snd x)%nat) keyed))).
  assert (Htop : forall a, In a top -> In a (unique str_eq_dec (map author df))).
  { intros a Ha. apply in_firstn in Ha. apply in_map_iff in Ha as (y & <- & Hy).
    apply sorted_in in Hy. destruct (Forall2_in_r HP _ Hy) as (x & Hx & E).
    rewrite E, <- Hk. assumption. }
  destruct (@mapM_ok _ _ (response_rate_row msgs resps)
              (fun a ys => ys = if (0 <? messages_of df a)%nat
                                then [(a, (of_nat (credited df a) / of_nat (messages_of df a) * 100)%Q,
                                       messages_of df a)]
                                else []) top) as (rows & Hrows & HR).
  { intros a Ha. apply Htop in Ha. destruct (Hf _ Ha) as [Hm Hr].
    unfold response_rate_row, dict_get. rewrite Hm; cbn [bind].
    destruct (Nat.ltb_spec 0 (messages_of df a)) as [L|L]; [|eauto].
    rewrite Hr; cbn [bind]. rewrite qdiv_of_nat by assumption. cbn [bind]. eauto. }
  rewrite Hrows; cbn [bind]. eexists. split; [reflexivity|].
  intros a rate n Hin. apply in_concat in Hin as (ys & Hys & Hin).
  destruct (Forall2_in_r HR _ Hys) as (a' & Ha' & ->).
  destruct (Nat.ltb_spec 0 (messages_of df a')) as [L|L]; [|contradiction].
  destruct Hin as [E|[]]. inversion E; subst a' rate n.
  split; [reflexivity|]. split; [reflexivity|].
  apply rate_bounds; [assumption | apply credited_le_messages].
Qed.

Lemma response_rate_bounded_witness :
  (exists author_messages author_responses,
     response_counts edge_example = Ok (author_messages, author_responses) /\
     dict_find str_eq_dec author_messages A = Some 2%nat /\
     dict_find str_eq_dec author_responses A = Some 1%nat) /\
  exists a rate n,
    n = messages_of edge_example a /\
    rate = (of_nat (credited edge_example a) / of_nat n * 100)%Q /\
    (0 <= rate)%Q /\ (rate <= 100)%Q.
Proof.
  split.
  - destruct (proj1 (response_rate_bounded edge_example)) as (msgs & resps & Hrun & Hf).
    exists msgs, resps. split; [assumption|].
    apply (Hf A). vm_compute. left. reflexivity.
  - destruct (proj2 (proj2 (response_rate_bounded edge_example))) as (rows & Hrun & Hrows).
    destruct rows as [|[[a rate] n] rows]; [vm_compute in Hrun; discriminate|].
    exists a, rate, n. apply Hrows. left. reflexivity.
Defined.

End ResponseRateTable.

(* ================================================================== *)
(** * The matcher against the strings of the pattern *)

Section Matcher.
Import Re.

Lemma firstn_prefix {A} (s1 s2 : list A) :
  firstn (length (s1 ++ s2) - length s2) (s1 ++ s2) = s1.
Proof.
  rewrite length_app. replace (length s1 + length s2 - length s2)%nat with (length s1) by lia.
  rewrite firstn_app, firstn_all, Nat.sub_diag. simpl. now rewrite app_nil_r.
Qed.

(** Whatever the matcher returns comes from a split of the input into a
    string of the expression and a rest the continuation accepted. *)
Lemma run_sound {R} (r : regex) :
  forall s gs (k : str -> list str -> option R) v,
    run r s gs k = Some v ->
    exists s1 s2 g, s = s1 ++ s2 /\ matches r s1 g /\ k s2 (gs ++ g) = Some v.
Proof.
  induction r as [c|p|r1 IH1 r2 IH2|n r IH|p|r IH]; intros s gs k v H.
  - destruct s as [|x s]; simpl in H; [discriminate|].
    destruct (N.eqb_spec x c); [subst|discriminate].
    exists [c], s, []. rewrite app_nil_r. repeat split; [constructor | assumption].
  - destruct s as [|x s]; simpl in H; [discriminate|].
    destruct (p x) eqn:E; [|discriminate].
    exists [x], s, []. rewrite app_nil_r. repeat split; [now constructor | assumption].
  - simpl in H. apply IH1 in H as (s1 & s2 & g1 & -> & M1 & H).
    apply IH2 in H as (s1' & s2' & g2 & -> & M2 & H).
    exists (s1 ++ s1'), s2', (g1 ++ g2).
    rewrite <- !app_assoc in *. repeat split; [now constructor | assumption].
  - revert s gs H. induction n as [|n IHn]; intros s gs H.
    + simpl in H. exists [], s, []. rewrite app_nil_r. repeat split; [constructor | assumption].
    + change (run r s gs (fun s' gs' => run (Rep n r) s' gs' k) = Some v) in H.
      apply IH in H as (s1 & s2 & g1 & -> & M1 & H).
      apply IHn in H as (s1' & s2' & g2 & -> & M2 & H).
      exists (s1 ++ s1'), s2', (g1 ++ g2).
      rewrite <- !app_assoc in *. repeat split; [now constructor | assumption].
  - induction s as [|x s IHs]; simpl in H; [discriminate|].
    destruct (p x) eqn:E; [|discriminate].
    match type of H with match ?plus with _ => _ end = _ => destruct plus as [w|] eqn:Ep end.
    + inversion H; subst w. destruct (IHs Ep) as (s1 & s2 & g & -> & M & Hk).
      inversion M; subst.
      exists (x :: s1), s2, []. repeat split; [|assumption].
      constructor; [discriminate | simpl; now rewrite E].
    + exists [x], s, []. rewrite app_nil_r. repeat split; [|assumption].
      constructor; [discriminate | simpl; now rewrite E].
  - simpl in H. apply IH in H as (s1 & s2 & g & -> & M & H).
    rewrite firstn_prefix in H.
    exists s1, s2, (g ++ [s1]). rewrite app_assoc. repeat split; [now constructor | assumption].
Qed.

(** A split of the input into a string of the expression and a rest that
    the continuation accepts makes the matcher succeed. *)
Lemma run_complete (r : regex) (s1 : str) (g : list str) :
  matches r s1 g ->
  forall R s2 (k : str -> list str -> option R) gs,
    (forall gs', k s2 gs' <> None) -> run r (s1 ++ s2) gs k <> None.
Proof.
  induction 1 as [c|p c Hc|r1 r2 s1 s1' g1 g2 M1 IH1 M2 IH2|r
                  |n r s1 s1' g1 g2 M1 IH1 M2 IH2|p s1 Hne Hall|r s1 g M IH];
    intros R s2 k gs Hk.
  - simpl. rewrite N.eqb_refl. apply Hk.
  - simpl. rewrite Hc. apply Hk.
  - simpl. rewrite <- app_assoc. apply IH1. intros gs'. now apply IH2.
  - simpl. apply Hk.
  - change (run r ((s1 ++ s1') ++ s2) gs (fun s' gs' => run (Rep n r) s' gs' k) <> None).
    rewrite <- app_assoc. apply IH1. intros gs'. now apply IH2.
  - induction s1 as [|x s1 IHs]; [contradiction|].
    simpl in Hall. apply andb_true_iff in Hall as [Hx Hall].
    simpl. rewrite Hx.
    match goal with |- match ?plus with _ => _ end <> _ => destruct plus as [w|] eqn:Ep end;
      [discriminate|].
    destruct s1 as [|y s1]; [apply Hk|].
    exfalso. apply IHs; [discriminate | assumption | exact Ep].
  - simpl. apply IH. intros gs'. apply Hk.
Qed.

Lemma matches_groups (r : regex) (s : str) (g : list str) :
  matches r s g -> length g = groups r.
Proof.
  induction 1 as [| | ? ? ? ? ? ? ? IH1 ? IH2| | ? ? ? ? ? ? ? IH1 ? IH2| |? ? ? ? IH];
    simpl; rewrite ?length_app; simpl; try reflexivity.
  - now rewrite IH1, IH2.
  - now rewrite IH1, IH2.
  - now rewrite IH.
Qed.

Lemma re_match_sound (r : regex) (s : str) (gs : list str) :
  re_match r s = Some gs -> exists s1 s2, s = s1 ++ s2 /\ matches r s1 gs.
Proof.
  unfold re_match. intros H. apply run_sound in H as (s1 & s2 & g & -> & M & H).
  simpl in H. inversion H; subst. eauto.
Qed.

Lemma re_match_complete (r : regex) (s1 s2 : str) (g : list str) :
  matches r s1 g -> re_match r (s1 ++ s2) <> None.
Proof.
  intros M. unfold re_match. apply (run_complete M). discriminate.
Qed.

End Matcher.

(* ================================================================== *)
(** * strip and the lines of a file *)

Section StripFacts.
Import Spec.

Lemma lstrip_head (s : str) c r : lstrip s = c :: r -> isspace c = false.
Proof.
  induction s as [|x s IH]; simpl; [discriminate|].
  destruct (isspace x) eqn:E; [assumption|]. intros H. inversion H; subst. exact E.
Qed.

Lemma lstrip_suffix (s : str) : exists pre, s = pre ++ lstrip s /\ forallb isspace pre = true.
Proof.
  induction s as [|x s (pre & IH & Hp)]; simpl.
  - exists []. split; reflexivity.
  - destruct (isspace x) eqn:E.
    + exists (x :: pre). simpl. rewrite E, Hp. split; [now f_equal | reflexivity].
    + exists []. split; reflexivity.
Qed.

Lemma lstrip_nil (s : str) : lstrip s = [] -> forallb isspace s = true.
Proof.
  intros H. destruct (lstrip_suffix s) as (pre & E & Hp).
  rewrite H, app_nil_r in E. now subst.
Qed.

Lemma rstrip_prefix (s : str) : exists suf, s = rstrip s ++ suf /\ forallb isspace suf = true.
Proof.
  unfold rstrip. destruct (lstrip_suffix (rev s)) as (pre & E & Hp).
  exists (rev pre). split.
  - rewrite <- rev_app_distr, <- E. now rewrite rev_involutive.
  - rewrite forallb_forall in *. intros x Hx. apply Hp. now apply in_rev.
Qed.

Lemma rstrip_last (s : str) r c : rstrip s = r ++ [c] -> isspace c = false.
Proof.
  unfold rstrip. intros H. apply (f_equal (@rev _)) in H.
  rewrite rev_involutive, rev_app_distr in H. simpl in H.
  now apply lstrip_head in H.
Qed.

Lemma strip_last (s : str) r c : strip s = r ++ [c] -> isspace c = false.
Proof.
  unfold strip. intros H. destruct (lstrip_suffix (rstrip s)) as (pre & E & _).
  rewrite H, app_assoc in E. now apply rstrip_last in E.
Qed.

Lemma strip_in (s : str) c : In c (strip s) -> In c s.
Proof.
  unfold strip. intros H.
  destruct (lstrip_suffix (rstrip s)) as (pre & E & _).
  destruct (rstrip_prefix s) as (suf & E' & _).
  rewrite E'. apply in_or_app. left. rewrite E. apply in_or_app. now right.
Qed.

Lemma strip_nonempty (s : str) c : In c s -> isspace c = false -> strip s <> [].
Proof.
  intros Hin Hc H. unfold strip in H. apply lstrip_nil in H.
  destruct (rstrip_prefix s) as (suf & E & Hs).
  assert (Hall : forallb isspace s = true).
  { rewrite E, forallb_app, H, Hs. reflexivity. }
  rewrite forallb_forall in Hall. rewrite (Hall c Hin) in Hc. discriminate.
Qed.

Lemma rstrip_newline (s : str) : rstrip (s ++ [newline]) = rstrip s.
Proof. unfold rstrip. rewrite rev_app_distr. reflexivity. Qed.

(** A line as the file yields it has no [\n] left once stripped. *)
Lemma strip_no_newline (l : str) : newline_only_last l -> ~ In newline (strip l).
Proof.
  intros H Hin.
  destruct (exists_last (l := l)) as (pre & c & ->).
  { intros ->. contradiction. }
  assert (Hpre : ~ In newline pre).
  { intros I. apply in_split in I as (a & b & ->).
    specialize (H a (b ++ [c])). rewrite <- app_assoc in H. simpl in H.
    specialize (H eq_refl). destruct b; discriminate. }
  destruct (N.eq_dec c newline) as [->|N].
  - unfold strip in Hin. rewrite rstrip_newline in Hin. now apply strip_in in Hin.
  - apply strip_in in Hin. apply in_app_or in Hin as [I|[E|[]]]; [contradiction | congruence].
Qed.

Lemma readlines_newline (text : str) :
  forall l, In l (Parser.readlines text) -> newline_only_last l.
Proof.
  induction text as [|c t IH]; simpl; [contradiction|].
  intros l Hl. destruct (N.eqb_spec c newline) as [->|N].
  - destruct Hl as [<-|Hl]; [|now apply IH].
    intros [|x pre] suf E; simpl in E; inversion E; [reflexivity|].
    destruct pre; discriminate.
  - destruct (Parser.readlines t) as [|l0 ls] eqn:Er.
    + destruct Hl as [<-|[]]. intros [|x pre] suf E; simpl in E; inversion E.
      * congruence.
      * destruct pre; discriminate.
    + destruct Hl as [<-|Hl]; [|apply IH; now right].
      intros [|x pre] suf E; simpl in E; inversion E; [congruence|].
      apply (IH l0 (or_introl eq_refl) pre suf). assumption.
Qed.

End StripFacts.

(* ================================================================== *)
(** * The line parser *)

Section LineParser.
Import Re Parser Spec.

Variable isdecimal : char -> bool.

Lemma run_cat {R} (r1 r2 : regex) s gs (k : str -> list str -> option R) :
  run (Cat r1 r2) s gs k = run r1 s gs (fun s' gs' => run r2 s' gs' k).
Proof. reflexivity. Qed.

(** A greedy [+] before a continuation that cannot fail takes every
    character it can. *)
Lemma plus_greedy {R} (p : char -> bool) (gs : list str)
      (k : str -> list str -> option R) :
  (forall s' g, k s' g <> None) ->
  forall s v, run (Plus p) s gs k = Some v ->
    exists m rest, s = m ++ rest /\ m <> [] /\ forallb p m = true /\
      (forall c rest', rest = c :: rest' -> p c = false) /\ k rest gs = Some v.
Proof.
  intros Hk. induction s as [|x s IH]; intros v H; simpl in H; [discriminate|].
  destruct (p x) eqn:E; [|discriminate].
  match type of H with match ?plus with _ => _ end = _ => destruct plus as [w|] eqn:Ep end.
  - inversion H; subst w. destruct (IH v Ep) as (m & rest & -> & _ & Hm & Hr & Hv).
    exists (x :: m), rest. repeat split; try assumption; [discriminate|].
    simpl. now rewrite E.
  - exists [x], s. repeat split; try assumption; [discriminate | simpl; now rewrite E |].
    intros c rest' ->. destruct (p c) eqn:Ec; [|reflexivity].
    exfalso. simpl in Ep.
    match type of Ep with match ?plus with _ => _ end = _ => destruct plus end;
      [discriminate | now apply Hk in Ep].
Qed.

Lemma group_greedy (p : char -> bool) (s : str) (gs v : list str) :
  run (Grp (Plus p)) s gs (fun _ g => Some g) = Some v ->
  exists m rest, s = m ++ rest /\ m <> [] /\ forallb p m = true /\
    (forall c rest', rest = c :: rest' -> p c = false) /\ v = gs ++ [m].
Proof.
  intros H. change (run (Plus p) s gs
                      (fun s' gs' => Some (gs' ++ [firstn (length s - length s') s])) = Some v) in H.
  apply plus_greedy in H; [|discriminate].
  destruct H as (m & rest & -> & Hne & Hm & Hr & Hv).
  rewrite firstn_prefix in Hv. inversion Hv. exists m, rest. repeat split; assumption.
Qed.

Lemma matches_group_flat (r : regex) (s : str) (g : list str) :
  groups r = 0%nat -> matches (Grp r) s g -> g = [s].
Proof.
  intros H0 M. inversion M as [| | | | | |? ? g' M']; subst.
  apply matches_groups in M'. rewrite H0 in M'. destruct g'; [reflexivity | discriminate].
Qed.

Lemma matches_no_group (r : regex) (s : str) (g : list str) :
  groups r = 0%nat -> matches r s g -> g = [].
Proof.
  intros H0 M. apply matches_groups in M. rewrite H0 in M. destruct g; [reflexivity | discriminate].
Qed.

(** The shape of a successful match of the pattern: the four groups, an
    author without colon, and a message that runs to the end of the input
    or to a [\n]. *)
Lemma pattern_groups (s : str) (gs : list str) :
  re_match (pattern isdecimal) s = Some gs ->
  exists head d t a m rest,
    s = head ++ m ++ rest /\ gs = [d; t; a; m] /\
    forallb not_colon a = true /\ a <> [] /\
    m <> [] /\ forallb dot m = true /\
    (forall c rest', rest = c :: rest' -> c = newline).
Proof.
  unfold re_match, pattern. cbn [cat]. intros H.
  repeat (rewrite run_cat in H; apply run_sound in H;
          destruct H as (? & ? & ? & -> & ? & H)).
  apply group_greedy in H as (m & rest & -> & Hne & Hm & Hr & ->).
  repeat match goal with
         | M : matches (Grp (Plus _)) _ _ |- _ =>
             inversion M as [| | | | | |? ? ? M']; subst; clear M;
             inversion M'; subst; clear M'
         | M : matches (Grp _) _ _ |- _ =>
             apply matches_group_flat in M; [subst | reflexivity]
         | M : matches _ _ _ |- _ =>
             apply matches_no_group in M; [subst | reflexivity]
         end.
  cbn [app].
  eexists _, _, _, _, m, rest. split.
  { rewrite !app_assoc. reflexivity. }
  repeat split; try assumption.
  intros c rest' E. specialize (Hr c rest' E). unfold dot in Hr.
  apply negb_false_iff, N.eqb_eq in Hr. exact Hr.
Qed.

Lemma parse_line_some (line : str) (gs : list str) :
  re_match (pattern isdecimal) (strip line) = Some gs ->
  exists d t a m, gs = [d; t; a; m] /\
                  parse_line isdecimal line = Some (mkRow d t (strip a) (strip m)).
Proof.
  intros H. destruct (pattern_groups _ H) as (_ & d & t & a & m & _ & _ & -> & _).
  exists d, t, a, m. split; [reflexivity|]. unfold parse_line. now rewrite H.
Qed.

Lemma parse_line_grammar (line : str) :
  in_grammar isdecimal line <-> exists row, parse_line isdecimal line = Some row.
Proof.
  split.
  - intros (s1 & s2 & g & E & M).
    destruct (re_match (pattern isdecimal) (strip line)) as [gs|] eqn:R.
    + destruct (parse_line_some _ R) as (d & t & a & m & _ & H). eauto.
    + exfalso. rewrite E in R. revert R. now apply (re_match_complete _ M).
  - intros [row H]. unfold parse_line in H.
    destruct (re_match (pattern isdecimal) (strip line)) as [gs|] eqn:R; [|discriminate].
    apply re_match_sound in R as (s1 & s2 & E & M). exists s1, s2, gs. auto.
Qed.

End LineParser.

(* ================================================================== *)
(** * parse_chat *)

Section ParseChat.
Import Re Parser Spec Lines.

Variable isdecimal : char -> bool.

Lemma parse_steps (lines : list str) : forall data,
  fold_left (parse_step isdecimal) lines data
  = data ++ flat_map (rows_of_line isdecimal) lines.
Proof.
  induction lines as [|l lines IH]; intros data; simpl.
  - now rewrite app_nil_r.
  - rewrite IH. unfold parse_step, rows_of_line.
    destruct (parse_line isdecimal l); simpl; [now rewrite <- app_assoc | reflexivity].
Qed.

Lemma parse_line_wellformed (line : str) (row : Row) :
  parse_line isdecimal line = Some row ->
  ~ In colon (author row) /\ (newline_only_last line -> message row <> []).
Proof.
  unfold parse_line. intros H.
  destruct (re_match (pattern isdecimal) (strip line)) as [gs|] eqn:R; [|discriminate].
  destruct (pattern_groups _ _ R) as (head & d & t & a & m & rest & E & -> & Ha & _ & Hm & _ & Hr).
  inversion H; subst row; clear H. cbn [author message]. split.
  - intros I. apply strip_in in I. rewrite forallb_forall in Ha.
    specialize (Ha _ I). unfold not_colon in Ha. rewrite N.eqb_refl in Ha. discriminate.
  - intros Hl.
    assert (rest = []).
    { destruct rest as [|c rest']; [reflexivity|]. exfalso.
      rewrite (Hr c rest' eq_refl) in E. apply (strip_no_newline Hl).
      rewrite E. apply in_or_app. right. apply in_or_app. right. now left. }
    subst rest. rewrite app_nil_r in E.
    destruct (exists_last Hm) as (m' & c & ->).
    rewrite app_assoc in E. apply strip_last in E.
    apply (@strip_nonempty (m' ++ [c]) c); [|assumption].
    apply in_or_app. right. now left.
Qed.

End ParseChat.

Section ParserClaims.
Import Re Parser Spec Lines.

(** C10. Every row that [parse_chat] produces from a file has a message that
    is not empty once stripped and an author without any colon; whatever the
    line, the author of a parsed row has no colon, so a name with a colon is
    never read back. *)
Theorem parsed_rows_wellformed (isdecimal : char -> bool) :
  (forall raw row, In row (parse_chat isdecimal raw) ->
     message row <> [] /\ ~ In colon (author row)) /\
  (forall line row, parse_line isdecimal line = Some row -> ~ In colon (author row)).
Proof.
  split.
  - intros raw row H. unfold parse_chat in H. rewrite parse_steps in H. cbn [app] in H.
    apply in_flat_map in H as (line & Hl & Hr).
    unfold rows_of_line in Hr.
    destruct (parse_line isdecimal line) as [row'|] eqn:E; [|contradiction].
    destruct Hr as [<-|[]].
    destruct (parse_line_wellformed _ _ E) as [Ha Hm].
    split; [|assumption]. apply Hm. eapply readlines_newline; eauto.
  - intros line row H. now apply parse_line_wellformed in H.
Qed.

Lemma parsed_rows_wellformed_witness :
  parse_chat ascii_digit chat = [alice_row; bob_row] /\
  (message alice_row <> [] /\ ~ In colon (author alice_row)) /\
  ~ In colon (author bob_row).
Proof.
  split; [vm_compute; reflexivity|]. split.
  - apply (proj1 (parsed_rows_wellformed ascii_digit) chat alice_row).
    vm_compute. left. reflexivity.
  - apply (proj2 (parsed_rows_wellformed ascii_digit) bob_line bob_row).
    vm_compute. reflexivity.
Defined.

End ParserClaims.

(* ================================================================== *)
(** * Conversation starters, silences and quick replies *)

Section MoreScans.
Import Frame Spec Analyses Gaps Examples.

(** [m < total_seconds / 3600] on a whole number of seconds. *)
Lemma hours_gt (cur prev : Event) (m : Z) :
  Qltb (inject_Z m) (hours cur prev) = (3600 * m <? datetime cur - datetime prev)%Z.
Proof.
  unfold Qltb, hours, total_seconds.
  set (z := (datetime cur - datetime prev)%Z).
  destruct (Z.ltb_spec (3600 * m) z) as [H|H].
  - apply negb_true_iff. apply not_true_is_false. intros E.
    apply Qle_bool_iff in E. unfold Qle, Qdiv, Qmult, Qinv, inject_Z in E; simpl in E. lia.
  - apply negb_false_iff. apply Qle_bool_iff.
    unfold Qle, Qdiv, Qmult, Qinv, inject_Z; simpl. lia.
Qed.

Lemma starters_openers (df : DataFrame) : starters df = Ok (openers 4 df).
Proof.
  unfold starters, openers. apply collect_scan.
  intros i acc p c Hp Hc. unfold starters_body.
  rewrite Hc; simpl. rewrite Nat.sub_0_r, Hp; simpl.
  change 4%Q with (inject_Z 4). rewrite hours_gt. unfold gap_over, gap; cbn [fst snd].
  match goal with |- context [if ?b then _ else _] => destruct b end; reflexivity.
Qed.

Lemma silences_collect (df : DataFrame) :
  silences df = Ok (map silence_of (filter (gap_over 1) (transitions df))).
Proof.
  unfold silences. apply collect_scan.
  intros i acc p c Hp Hc. unfold silence_body.
  rewrite Hc; simpl. rewrite Nat.sub_0_r, Hp; simpl.
  change 1%Q with (inject_Z 1). rewrite hours_gt. unfold silence_of. unfold gap_over, gap; cbn [fst snd].
  match goal with |- context [if ?b then _ else _] => destruct b end; reflexivity.
Qed.

Lemma reply_pairs_quick (df : DataFrame) : reply_pairs df = Ok (quick_pairs df).
Proof.
  unfold reply_pairs, quick_pairs. apply collect_scan.
  intros i acc p c Hp Hc. unfold reply_pairs_body.
  rewrite Hc; simpl. rewrite Nat.sub_0_r, Hp; simpl.
  change 5%Q with (inject_Z 5). rewrite reply_test.
  destruct (reply_within 5 (p, c)); reflexivity.
Qed.

Lemma initiators_collect (df : DataFrame) (start stop : Z) :
  initiators df start stop
  = Ok (map (fun t => author (snd t))
            (filter (fun t => in_period start stop t && gap_over 3 t) (transitions df))).
Proof.
  unfold initiators. apply collect_scan.
  intros i acc p c Hp Hc. unfold initiators_body.
  rewrite Hc; simpl. unfold in_period; cbn [snd].
  destruct ((start <=? hour c)%Z && (hour c <? stop)%Z); simpl; [|reflexivity].
  rewrite Nat.sub_0_r, Hp; simpl.
  change 3%Q with (inject_Z 3). rewrite hours_gt. unfold gap_over, gap; cbn [fst snd].
  match goal with |- context [if ?b then _ else _] => destruct b end; reflexivity.
Qed.

End MoreScans.

(* ================================================================== *)
(** * The first rows of a sorted table *)

Section TopRows.

Context {A : Type}.
Variable leb : A -> A -> bool.
Variable R : A -> A -> Prop.
Hypothesis leb_true : forall x y, leb x y = true -> R x y.
Hypothesis leb_false : forall x y, leb x y = false -> R y x.
Hypothesis R_trans : forall x y z, R x y -> R y z -> R x z.

Lemma sorted_StronglySorted (l : list A) : StronglySorted R (sorted leb l).
Proof.
  apply Sorted_StronglySorted; [exact R_trans|]. now apply sorted_Sorted.
Qed.

Lemma StronglySorted_app_inv (l1 l2 : list A) :
  StronglySorted R (l1 ++ l2) ->
  StronglySorted R l1 /\ StronglySorted R l2 /\
  forall x y, In x l1 -> In y l2 -> R x y.
Proof.
  induction l1 as [|a l1 IH]; simpl; intros H.
  - repeat split; [constructor | assumption | contradiction].
  - inversion H as [|? ? Hs Hall]; subst.
    destruct (IH Hs) as (H1 & H2 & H12). rewrite Forall_forall in Hall.
    repeat split; [|assumption|].
    + constructor; [assumption|]. rewrite Forall_forall. intros x Hx.
      apply Hall. apply in_or_app. now left.
    + intros x y [<-|Hx] Hy; [|now apply H12].
      apply Hall. apply in_or_app. now right.
Qed.

Lemma top_sorted (n : nat) (l : list A) : StronglySorted R (firstn n (sorted leb l)).
Proof.
  pose proof (sorted_StronglySorted l) as H.
  rewrite <- (firstn_skipn n (sorted leb l)) in H.
  now apply StronglySorted_app_inv in H.
Qed.

(** What is cut off ranks after everything that is kept. *)
Lemma top_cut (n : nat) (l : list A) (x y : A) :
  In x (firstn n (sorted leb l)) -> In y l ->
  In y (firstn n (sorted leb l)) \/ R x y.
Proof.
  intros Hx Hy.
  pose proof (sorted_StronglySorted l) as H.
  rewrite <- (firstn_skipn n (sorted leb l)) in H.
  apply StronglySorted_app_inv in H as (_ & _ & H).
  apply (sorted_in leb) in Hy. rewrite <- (firstn_skipn n (sorted leb l)) in Hy.
  apply in_app_or in Hy as [Hy|Hy]; [now left | right; now apply H].
Qed.

Lemma top_all (n : nat) (l : list A) :
  (length l <= n)%nat -> forall y, In y l -> In y (firstn n (sorted leb l)).
Proof.
  intros Hn y Hy. rewrite firstn_all2 by (now rewrite sorted_length).
  now apply sorted_in.
Qed.

End TopRows.

Lemma NoDup_firstn {A} (n : nat) (l : list A) : NoDup l -> NoDup (firstn n l).
Proof.
  intros H. rewrite <- (firstn_skipn n l) in H. now apply NoDup_app_remove_r in H.
Qed.

Lemma firstn_map_fst_NoDup {A B} (n : nat) (l l' : list (A * B)) :
  Permutation l' l -> NoDup (map fst l) -> NoDup (map fst (firstn n l')).
Proof.
  intros Hp Hn. rewrite <- firstn_map. apply NoDup_firstn.
  apply (Permutation_NoDup (l := map fst l)); [|assumption].
  symmetry. now apply Permutation_map.
Qed.

Section CounterRows.

Context {K : Type}.
Variable eq_dec : forall a b : K, {a = b} + {a <> b}.

Lemma Counter_keys (l : list K) (k : K) : In k (keys (Counter eq_dec l)) -> In k l.
Proof.
  unfold Counter.
  assert (G : forall d, In k (keys (fold_left (tally eq_dec) l d)) ->
                        In k (keys d) \/ In k l).
  { induction l as [|x l IH]; intros d H; simpl in *; [now left|].
    apply IH in H as [H|H]; [|tauto]. unfold tally in H.
    destruct (in_dec eq_dec x (keys d)) as [I|I].
    - rewrite keys_set_present in H by assumption. now left.
    - rewrite keys_set_absent in H by assumption.
      apply in_app_or in H as [H|[<-|[]]]; tauto. }
  intros H. apply G in H as [[]|H]. exact H.
Qed.

(** The table [Counter(l).most_common(n)] prints: at most [n] rows, no key
    twice, every count the number of occurrences of its key and at least 1,
    the counts in non-increasing order, and nothing left out that occurs
    more often than a row that is shown. *)
Lemma most_common_rows (n : nat) (l : list K) :
  let rows := most_common n (Counter eq_dec l) in
  (length rows <= n)%nat /\
  NoDup (map fst rows) /\
  (forall k c, In (k, c) rows -> c = count_occ eq_dec l k /\ (1 <= c)%nat /\ In k l) /\
  StronglySorted by_count rows /\
  (forall k c k', In (k, c) rows -> In k' l ->
     In k' (map fst rows) \/ (count_occ eq_dec l k' <= c)%nat).
Proof.
  set (leb := fun x y : K * nat => (snd y <=? snd x)%nat).
  assert (Ht : forall x y, leb x y = true -> by_count x y).
  { intros x y H. now apply Nat.leb_le in H. }
  assert (Hf : forall x y, leb x y = false -> by_count y x).
  { intros x y H. apply Nat.leb_gt in H. unfold by_count. lia. }
  assert (Htr : forall x y z : K * nat, by_count x y -> by_count y z -> by_count x z).
  { unfold by_count. intros; lia. }
  cbv zeta. unfold most_common. fold leb.
  assert (Hc : forall k c, In (k, c) (firstn n (sorted leb (Counter eq_dec l))) ->
                           c = count_occ eq_dec l k /\ (1 <= c)%nat /\ In k l).
  { intros k c H. pose proof (most_common_count eq_dec l n k c H) as E.
    apply in_firstn, sorted_in in H.
    assert (Hk : In k l).
    { apply Counter_keys. change k with (fst (k, c)). now apply in_map. }
    repeat split; try assumption.
    rewrite E. now apply count_occ_In. }
  repeat split.
  - apply firstn_le_length.
  - apply (firstn_map_fst_NoDup n (l := Counter eq_dec l));
      [apply sorted_perm | apply Counter_NoDup].
  - now apply Hc.
  - now apply (Hc k c).
  - now apply (Hc k c).
  - now apply (top_sorted leb by_count).
  - intros k c k' Hrow Hk'.
    assert (Hd : exists c', In (k', c') (Counter eq_dec l)
                            /\ c' = count_occ eq_dec l k').
    { pose proof (counter_get_count eq_dec l k') as E. unfold counter_get in E.
      destruct (dict_find eq_dec (Counter eq_dec l) k') as [c'|] eqn:F.
      - exists c'. split; [now apply dict_find_in in F | assumption].
      - exfalso. apply (count_occ_In eq_dec) in Hk'. lia. }
    destruct Hd as (c' & Hin & ->).
    destruct (top_cut leb by_count Ht Hf Htr n _ _ _ Hrow Hin) as [H|H].
    + left. change k' with (fst (k', count_occ eq_dec l k')). now apply in_map.
    + right. exact H.
Qed.

End CounterRows.

(* ================================================================== *)
(** * The tables of the other scans *)

Section MoreTables.
Import Frame Spec Analyses Gaps Examples.

Lemma Forall2_map_eq {A B} (g : A -> B) (l : list A) (ys : list B) :
  Forall2 (fun x y => y = g x) l ys -> ys = map g l.
Proof. induction 1; simpl; congruence. Qed.

Lemma fill_bounds (c top : nat) :
  (1 <= c)%nat -> (c <= top)%nat ->
  (0 < of_nat c / of_nat top * 40)%Q /\ (of_nat c / of_nat top * 40 <= 40)%Q.
Proof.
  intros Hc Ht. destruct top as [|top]; [lia|].
  unfold Qlt, Qle, Qdiv, Qmult, Qinv, of_nat, inject_Z. cbn. split; lia.
Qed.

Lemma filter_length_le {A} (P : A -> bool) (l : list A) :
  (length (filter P l) <= length l)%nat.
Proof. induction l as [|x l IH]; simpl; [lia|]. destruct (P x); simpl; lia. Qed.

(** X1. conversation_starters never raises, whatever the frame and
    [top_n]: the starters are the authors of the events that come more than
    4 hours (14400 seconds) after the event before them, in order, so the
    first event of a chat is never one; the table has at most [top_n] rows,
    no author twice, each with the number of times that author broke such a
    silence, at least 1, and a bar fill in (0, 40]. *)
Theorem conversation_starters_rows (top_n : nat) (df : DataFrame) :
  starters df = Ok (openers 4 df) /\
  (length (openers 4 df) <= length df - 1)%nat /\
  exists rows, conversation_starters top_n df = Ok rows /\
    (length rows <= top_n)%nat /\
    NoDup (map (fun r => fst (fst r)) rows) /\
    forall a c fill, In (a, c, fill) rows ->
      c = count_occ str_eq_dec (openers 4 df) a /\ (1 <= c)%nat /\
      (0 < fill)%Q /\ (fill <= 40)%Q.
Proof.
  split; [apply starters_openers|]. split.
  { unfold openers. rewrite length_map, <- transitions_length. apply filter_length_le. }
  unfold conversation_starters. rewrite starters_openers; cbn [bind].
  destruct (most_common_rows str_eq_dec top_n (openers 4 df)) as (Hlen & Hnd & Hc & Hs & _).
  set (sc := most_common top_n (Counter str_eq_dec (openers 4 df))) in *.
  destruct sc as [|top rest] eqn:E.
  { exists []. simpl. repeat split; [lia | constructor | | | |]; contradiction. }
  set (g := fun item : str * nat =>
              (fst item, snd item, (of_nat (snd item) / of_nat (snd top) * 40)%Q)).
  assert (Htop : forall item, In item (top :: rest) ->
                              (1 <= snd item <= snd top)%nat).
  { intros [a c] Hin. split; [now apply (Hc a c)|].
    destruct Hin as [->|Hin]; [cbn; lia|].
    inversion Hs as [|? ? _ Hall]; subst. rewrite Forall_forall in Hall.
    apply (Hall _ Hin). }
  destruct (@mapM_ok _ _ (starter_row (top :: rest)) (fun x y => y = g x) (top :: rest))
    as (rows & Hrows & HP).
  { intros [a c] Hin. unfold starter_row. cbn [index nth_error bind].
    rewrite qdiv_of_nat by (specialize (Htop top (or_introl eq_refl)); lia).
    cbn [bind]. eauto. }
  apply Forall2_map_eq in HP. subst rows.
  exists (map g (top :: rest)). split; [exact Hrows|].
  split; [now rewrite length_map|]. split.
  { rewrite map_map. exact Hnd. }
  intros a c fill Hin. apply in_map_iff in Hin as ([a' c'] & Eg & Hin).
  unfold g in Eg. cbn [fst snd] in Eg. inversion Eg; subst a' c' fill.
  destruct (Hc a c Hin) as (Ec & H1 & _).
  destruct (Htop _ Hin) as [_ H2]. cbn [snd] in H2.
  destruct (fill_bounds H1 H2). repeat split; assumption.
Qed.

Lemma edges_differ (df : DataFrame) (m : Z) (pair : str * str) :
  In pair (map (fun t => (author (fst t), author (snd t)))
               (filter (reply_within m) (transitions df))) ->
  fst pair <> snd pair.
Proof.
  intros H. apply in_map_iff in H as (t & <- & Ht).
  apply filter_In in Ht as [_ Ht]. apply reply_within_iff in Ht as [Ht _].
  cbn [fst snd]. congruence.
Qed.

Lemma count_occ_filter_le {A B} (dec : forall a b : B, {a = b} + {a <> b})
      (f : A -> B) (P Q : A -> bool) (l : list A) (x : B) :
  (forall t, P t = true -> Q t = true) ->
  (count_occ dec (map f (filter P l)) x <= count_occ dec (map f (filter Q l)) x)%nat.
Proof.
  intros H. induction l as [|t l IH]; simpl; [lia|].
  destruct (P t) eqn:Ep.
  - rewrite (H t Ep). simpl. destruct (dec (f t) x); lia.
  - destruct (Q t); simpl; [destruct (dec (f t) x); lia | assumption].
Qed.

(** X2. The rows of author_interaction_matrix: at most 15, no ordered pair
    twice, counts in non-increasing order, every count at least 1 and at
    most the number of events less one, no row from an author to
    themselves, and no pair left out that occurs more often than a pair
    shown. *)
Theorem interaction_rows (df : DataFrame) :
  exists rows, author_interaction_matrix df = Ok rows /\
    (length rows <= 15)%nat /\
    NoDup (map fst rows) /\
    StronglySorted by_count rows /\
    (forall pair n, In (pair, n) rows ->
       (1 <= n <= length df - 1)%nat /\ fst pair <> snd pair) /\
    (forall pair n pair', In (pair, n) rows -> In pair' (edges df) ->
       In pair' (map fst rows) \/ (count_occ pair_eq_dec (edges df) pair' <= n)%nat).
Proof.
  unfold author_interaction_matrix. rewrite interactions_edges; cbn [bind].
  destruct (most_common_rows pair_eq_dec 15 (edges df)) as (Hlen & Hnd & Hc & Hs & Hcut).
  destruct (edges df) as [|e l] eqn:E.
  { exists []. repeat split; try (simpl; lia); try constructor; contradiction. }
  rewrite <- E in *. eexists. split; [reflexivity|].
  split; [assumption|]. split; [assumption|]. split; [assumption|]. split.
  - intros pair n H. destruct (Hc pair n H) as (En & H1 & Hin). split; [split|].
    + assumption.
    + rewrite En. etransitivity; [apply count_occ_bound|].
      unfold edges. rewrite length_map, <- transitions_length. apply filter_length_le.
    + now apply (edges_differ df 10).
  - intros pair n pair' H H'. now apply (Hcut pair n pair').
Qed.

(** X3. who_talks_to_whom counts the replies within 5 minutes; each of its
    rows (at most 20, never from an author to themselves) counts no more
    replies than author_interaction_matrix counts for the same ordered pair
    within 10 minutes. *)
Theorem who_talks_within_interactions (df : DataFrame) :
  reply_pairs df = Ok (quick_pairs df) /\
  (forall pair, (count_occ pair_eq_dec (quick_pairs df) pair
                 <= count_occ pair_eq_dec (edges df) pair)%nat) /\
  exists rows, who_talks_to_whom df = Ok rows /\
    (length rows <= 20)%nat /\
    forall pair n, In (pair, n) rows ->
      n = count_occ pair_eq_dec (quick_pairs df) pair /\
      (1 <= n <= count_occ pair_eq_dec (edges df) pair)%nat /\
      fst pair <> snd pair.
Proof.
  assert (Hle : forall pair, (count_occ pair_eq_dec (quick_pairs df) pair
                              <= count_occ pair_eq_dec (edges df) pair)%nat).
  { intros pair. unfold quick_pairs, edges. apply count_occ_filter_le.
    intros t Ht. apply reply_within_iff in Ht as [H1 H2].
    apply reply_within_iff. split; [assumption | lia]. }
  split; [apply reply_pairs_quick|]. split; [exact Hle|].
  unfold who_talks_to_whom. rewrite reply_pairs_quick; cbn [bind].
  destruct (most_common_rows pair_eq_dec 20 (quick_pairs df)) as (Hlen & _ & Hc & _).
  destruct (quick_pairs df) as [|e l] eqn:E.
  { exists []. repeat split; try (simpl; lia); contradiction. }
  rewrite <- E in *. eexists. split; [reflexivity|]. split; [assumption|].
  intros pair n H. destruct (Hc pair n H) as (En & H1 & Hin).
  split; [assumption|]. split; [split|].
  - assumption.
  - rewrite En. apply Hle.
  - now apply (edges_differ df 5).
Qed.

End MoreTables.

Section Silences.
Import Frame Spec Analyses Gaps Examples.

(** X4. silence_periods never raises.  It prints at most ten rows; each is
    the silence between two consecutive events more than one hour (3600
    seconds) apart, with its length in hours and in days; the rows come
    longest first; and a silence of more than an hour that is not printed
    is no longer than any that is. *)
Theorem silence_periods_rows (df : DataFrame) :
  exists rows, silence_periods df = Ok rows /\
    (length rows <= 10)%nat /\
    (forall g d, In (g, d) rows ->
       (exists t, In t (transitions df) /\ g = silence_of t) /\
       (3600 < s_end g - s_start g)%Z /\
       s_hours g = (inject_Z (s_end g - s_start g) / 3600)%Q /\
       d = (s_hours g / 24)%Q) /\
    StronglySorted longer (map fst rows) /\
    (forall t g d, In t (transitions df) -> (3600 < gap t)%Z -> In (g, d) rows ->
       In (silence_of t) (map fst rows) \/ (s_hours (silence_of t) <= s_hours g)%Q).
Proof.
  unfold silence_periods. rewrite silences_collect; cbn [bind].
  set (leb := fun x y : Silence => Qle_bool (s_hours y) (s_hours x)).
  set (gaps := map silence_of (filter (gap_over 1) (transitions df))).
  assert (Ht : forall x y, leb x y = true -> longer x y).
  { intros x y H. now apply Qle_bool_iff in H. }
  assert (Hf : forall x y, leb x y = false -> longer y x).
  { intros x y H. unfold longer. apply Qlt_le_weak, Qnot_le_lt. intros C.
    apply Qle_bool_iff in C. unfold leb in H. congruence. }
  assert (Htr : forall x y z, longer x y -> longer y z -> longer x z).
  { unfold longer. intros x y z H1 H2. eapply Qle_trans; eauto. }
  assert (Hfst : map fst (map (fun gap => (gap, (s_hours gap / 24)%Q))
                              (firstn 10 (sorted leb gaps)))
                 = firstn 10 (sorted leb gaps)).
  { rewrite map_map. cbn [fst]. apply map_id. }
  eexists. split; [reflexivity|]. rewrite Hfst.
  split; [rewrite length_map; apply firstn_le_length|].
  split; [|split].
  - intros g d H. apply in_map_iff in H as (g' & E & H). inversion E; subst g' d.
    apply in_firstn, sorted_in in H. apply in_map_iff in H as (t & <- & H).
    apply filter_In in H as [Hin Hgap]. unfold gap_over in Hgap. apply Z.ltb_lt in Hgap.
    split; [eauto|]. unfold silence_of, gap in *. cbn. repeat split. lia.
  - now apply (top_sorted leb longer).
  - intros t g d Hin Hgap H. apply in_map_iff in H as (g' & E & H). inversion E; subst g' d.
    apply (top_cut leb longer Ht Hf Htr 10 gaps g (silence_of t) H).
    apply in_map. apply filter_In. split; [assumption|].
    unfold gap_over. apply Z.ltb_lt. lia.
Qed.

End Silences.

Section Initiators.
Import Frame Spec Analyses Gaps Examples.

Lemma hour_range (e : Event) : (0 <= hour e < 24)%Z.
Proof.
  unfold hour. pose proof (Z.mod_pos_bound (datetime e) 86400 ltac:(lia)) as H.
  split.
  - apply Z.div_pos; lia.
  - apply Z.div_lt_upper_bound; lia.
Qed.

Lemma one_period (t : Event * Event) :
  one_if (gap_over 3 t)
  = (one_if (during 6 12 t) + one_if (during 12 18 t)
     + one_if (during 18 24 t) + one_if (during 0 6 t))%nat.
Proof.
  pose proof (hour_range (snd t)) as Hh.
  unfold during, in_period.
  destruct (gap_over 3 t); rewrite ?andb_false_r; [|reflexivity].
  rewrite !andb_true_r.
  repeat match goal with
         | |- context [(?a <=? ?b)%Z] => destruct (Z.leb_spec a b)
         | |- context [(?a <? ?b)%Z] => destruct (Z.ltb_spec a b)
         end; try lia; reflexivity.
Qed.

Lemma periods_partition_count (l : list (Event * Event)) (who : str) :
  count_occ str_eq_dec (map who_of (filter (gap_over 3) l)) who
  = (count_occ str_eq_dec (map who_of (filter (during 6 12) l)) who
     + count_occ str_eq_dec (map who_of (filter (during 12 18) l)) who
     + count_occ str_eq_dec (map who_of (filter (during 18 24) l)) who
     + count_occ str_eq_dec (map who_of (filter (during 0 6) l)) who)%nat.
Proof.
  induction l as [|t l IH]; [reflexivity|].
  pose proof (one_period t) as H1. cbn [filter].
  destruct (gap_over 3 t), (during 6 12 t), (during 12 18 t), (during 18 24 t),
    (during 0 6 t); cbn in H1; try discriminate H1; cbn [map count_occ];
    try (destruct (str_eq_dec (who_of t) who)); lia.
Qed.

Lemma periods_partition_length (l : list (Event * Event)) :
  length (filter (gap_over 3) l)
  = (length (filter (during 6 12) l) + length (filter (during 12 18) l)
     + length (filter (during 18 24) l) + length (filter (during 0 6) l))%nat.
Proof.
  induction l as [|t l IH]; [reflexivity|].
  pose proof (one_period t) as H1. cbn [filter].
  destruct (gap_over 3 t), (during 6 12 t), (during 12 18 t), (during 18 24 t),
    (during 0 6 t); cbn in H1; try discriminate H1; cbn [length]; lia.
Qed.

(** X5. conversation_initiator_by_time never raises, and its four periods
    split the day: every event that comes more than 3 hours after the one
    before it is a starter of exactly one of Morning, Afternoon, Evening and
    Night, so for each author the four counts add up to the number of times
    that author broke a silence of more than 3 hours; and whoever
    conversation_starters counts (more than 4 hours) is counted here at
    least as often. *)
Theorem initiators_partition (df : DataFrame) :
  exists morning afternoon evening night,
    initiators df 6 12 = Ok morning /\ initiators df 12 18 = Ok afternoon /\
    initiators df 18 24 = Ok evening /\ initiators df 0 6 = Ok night /\
    (forall who,
       count_occ str_eq_dec (openers 3 df) who
       = (count_occ str_eq_dec morning who + count_occ str_eq_dec afternoon who
          + count_occ str_eq_dec evening who + count_occ str_eq_dec night who)%nat) /\
    (length morning + length afternoon + length evening + length night
     = length (openers 3 df))%nat /\
    (forall who, (count_occ str_eq_dec (openers 4 df) who
                  <= count_occ str_eq_dec (openers 3 df) who)%nat) /\
    exists rows, conversation_initiator_by_time df = Ok rows /\
                 map fst rows = [Morning; Afternoon; Evening; Night].
Proof.
  do 4 eexists. rewrite !initiators_collect.
  split; [reflexivity|]. split; [reflexivity|]. split; [reflexivity|].
  split; [reflexivity|]. split; [|split; [|split]].
  - intros who. apply periods_partition_count.
  - unfold openers. rewrite !length_map. symmetry. apply periods_partition_length.
  - intros who. unfold openers. apply count_occ_filter_le.
    intros t H. unfold gap_over in *. apply Z.ltb_lt in H. apply Z.ltb_lt. lia.
  - unfold conversation_initiator_by_time, time_periods. cbn [mapM].
    rewrite !initiators_collect. cbn [bind].
    repeat match goal with
           | |- context [match ?l with [] => _ | _ :: _ => _ end] =>
               destruct l; cbn [bind]
           end; eexists; split; reflexivity.
Qed.

End Initiators.

Section Weekend.
Import Frame Spec Analyses Gaps Examples.

Lemma filter_split_length {A} (P : A -> bool) (l : list A) :
  (length (filter P l) + length (filter (fun x => negb (P x)) l) = length l)%nat.
Proof. induction l as [|x l IH]; simpl; [lia|]. destruct (P x); simpl; lia. Qed.

Lemma of_nat_add (a b : nat) : (of_nat (a + b) == of_nat a + of_nat b)%Q.
Proof. unfold of_nat. rewrite Nat2Z.inj_add, inject_Z_plus. reflexivity. Qed.

Lemma of_nat_pos (n : nat) : (0 < n)%nat -> (0 < of_nat n)%Q.
Proof. intros H. unfold of_nat, Qlt; simpl. lia. Qed.

Lemma of_nat_nonneg (n : nat) : (0 <= of_nat n)%Q.
Proof. unfold of_nat, Qle; simpl. lia. Qed.

Lemma of_nat_le (a b : nat) : (a <= b)%nat -> (of_nat a <= of_nat b)%Q.
Proof. intros H. unfold of_nat, Qle; simpl. lia. Qed.

(** A share of [n] in per cent grows with the count. *)
Lemma percent_mono (a b n : nat) :
  (0 < n)%nat -> (a <= b)%nat ->
  (of_nat a / of_nat n * 100 <= of_nat b / of_nat n * 100)%Q.
Proof.
  intros Hn Hab. apply Qmult_le_compat_r; [|discriminate].
  unfold Qdiv. apply Qmult_le_compat_r; [now apply of_nat_le|].
  apply Qinv_le_0_compat, of_nat_nonneg.
Qed.

Lemma percent_bounds (k n : nat) :
  (0 < n)%nat -> (k <= n)%nat ->
  (0 <= of_nat k / of_nat n * 100)%Q /\ (of_nat k / of_nat n * 100 <= 100)%Q.
Proof.
  intros Hn Hk. pose proof (of_nat_pos Hn) as Hq. split.
  - apply Qmult_le_0_compat; [|discriminate].
    apply Qle_shift_div_l; [assumption|]. rewrite Qmult_0_l. apply of_nat_nonneg.
  - setoid_replace 100%Q with (1 * 100)%Q at 2 by reflexivity.
    apply Qmult_le_compat_r; [|discriminate].
    apply Qle_shift_div_r; [assumption|]. rewrite Qmult_1_l. now apply of_nat_le.
Qed.

(** X6. weekend_vs_weekday raises ZeroDivisionError on a frame without rows
    and on no other; otherwise every event is counted once, as a weekday or
    as a weekend message, each percentage lies between 0 and 100, and the
    side with no fewer messages has no smaller percentage. *)
Theorem weekend_vs_weekday_total (df : DataFrame) :
  (df = [] -> weekend_vs_weekday df = Raise ZeroDivisionError) /\
  (df <> [] ->
   exists weekday weekday_pct weekend weekend_pct,
     weekend_vs_weekday df = Ok (weekday, weekday_pct, weekend, weekend_pct) /\
     weekend = length (filter is_weekend df) /\
     (weekday + weekend = length df)%nat /\
     ((0 <= weekday_pct)%Q /\ (weekday_pct <= 100)%Q) /\
     ((0 <= weekend_pct)%Q /\ (weekend_pct <= 100)%Q) /\
     ((weekend <= weekday)%nat -> (weekend_pct <= weekday_pct)%Q) /\
     ((weekday <= weekend)%nat -> (weekday_pct <= weekend_pct)%Q)).
Proof.
  split; [intros ->; reflexivity|].
  intros Hne. unfold weekend_vs_weekday.
  pose proof (filter_split_length is_weekend df) as Hsum.
  set (we := length (filter is_weekend df)) in *.
  set (wd := length (filter (fun e => negb (is_weekend e)) df)) in *.
  assert (Hpos : (0 < we + wd)%nat) by (destruct df; [congruence | simpl in Hsum; lia]).
  rewrite !qdiv_of_nat by assumption. cbn [bind].
  do 4 eexists. split; [reflexivity|]. split; [reflexivity|]. split; [lia|].
  split; [apply percent_bounds; lia|]. split; [apply percent_bounds; lia|].
  split; intros H; now apply percent_mono.
Qed.

End Weekend.

(* ================================================================== *)
(** * Streaks and monologues on any frame *)

Section FirstRow.
Import Frame Spec Analyses Gaps Examples.

Lemma streak_analysis_ok (df : DataFrame) :
  df <> [] ->
  exists m e, streak_analysis df = Ok (m, e) /\ (1 <= m)%nat /\ streak_ending df e m.
Proof.
  intros Hne.
  pose proof (dates_strictly_sorted (map date_only df)) as Hs.
  assert (Hin : forall x, In x (sorted Z.leb (unique Z.eq_dec (map date_only df)))
                          <-> In x (map date_only df)).
  { intros x. now rewrite sorted_in, unique_in. }
  destruct (sorted Z.leb (unique Z.eq_dec (map date_only df))) as [|d rest] eqn:E.
  { destruct df as [|e0 df]; [congruence|]. exfalso.
    apply (proj2 (Hin (date_only e0))). now left. }
  rewrite (streak_analysis_dates _ E).
  pose proof (@streak_inv_fold rest [d] d _ Hs (streak_inv_init d)) as Hinv.
  cbn [app] in Hinv.
  destruct (fold_left streak_step (combine (d :: rest) rest) (1%nat, 1%nat, d))
    as [[c m] e].
  destruct Hinv as (_ & _ & Hcm & _ & _ & Hend & _).
  exists m, e. split; [reflexivity|]. split; [lia|].
  eapply run_in_weaken; [|exact Hend]. intros x. apply Hin.
Qed.

Lemma run_in_length (days : list Z) (e : Z) (m : nat) :
  run_in days e m -> (m <= length days)%nat.
Proof.
  intros H.
  assert (Hnd : NoDup (map (fun k => (e - Z.of_nat k)%Z) (seq 0 m))).
  { apply Finite.Injective_map_NoDup; [|apply seq_NoDup]. intros x y Exy. lia. }
  apply NoDup_incl_length with (l' := days) in Hnd.
  - now rewrite length_map, length_seq in Hnd.
  - intros x Hx. apply in_map_iff in Hx as (k & <- & Hk).
    apply in_seq in Hk. apply H. lia.
Qed.

(** X7. streak_analysis raises IndexError on a frame without rows.  On any
    other frame it returns: the streak it reports is at least 1 day and at
    most the number of events, the day it ends on has an event, and so has
    each of the days of the streak. *)
Theorem streak_analysis_raises_iff_empty (df : DataFrame) :
  (df = [] -> streak_analysis df = Raise IndexError) /\
  (df <> [] ->
   exists m e, streak_analysis df = Ok (m, e) /\
     (1 <= m <= length df)%nat /\ active df e /\ streak_ending df e m).
Proof.
  split; [intros ->; reflexivity|]. intros Hne.
  destruct (streak_analysis_ok Hne) as (m & e & Hrun & Hm & Hend).
  exists m, e. split; [assumption|]. split; [split; [assumption|]|split; [|assumption]].
  - apply run_in_length in Hend. now rewrite length_map in Hend.
  - unfold active. destruct m as [|m]; [lia|]. now apply run_in_head in Hend.
Qed.

Lemma streak_analysis_raises_iff_empty_witness :
  streak_analysis [] = Raise IndexError /\
  exists m e, streak_analysis six_days = Ok (m, e) /\
    (1 <= m <= length six_days)%nat /\ active six_days e /\ streak_ending six_days e m.
Proof.
  split.
  - apply (proj1 (streak_analysis_raises_iff_empty [])). reflexivity.
  - apply (proj2 (streak_analysis_raises_iff_empty six_days)). discriminate.
Defined.

Lemma monologues_scan_ok (df : DataFrame) :
  df <> [] ->
  exists monologues current_author current_count start_idx,
    monologues_scan df = Ok (monologues, current_author, current_count, start_idx) /\
    forall m, In m monologues -> (5 <= m_count m)%nat /\ exists s, monologue_at df m s.
Proof.
  intros Hne. destruct df as [|first df']; [congruence|].
  set (df := first :: df') in *.
  unfold monologues_scan. replace (iloc df 0) with (Ok first) by reflexivity. cbn [bind].
  destruct (@for_range_invariant _
    (fun i (st : list Monologue * str * nat * nat) =>
       let '(ms, ca, cc, si) := st in
       (1 <= cc)%nat /\ (si + cc = i)%nat /\ same_author_run df si cc ca /\
       (si = 0%nat \/ exists e, nth_error df (si - 1) = Some e /\ author e <> ca) /\
       forall m, In m ms -> (5 <= m_count m)%nat /\ exists s, monologue_at df m s)
    1 (length df) (monologue_body df) ([], author first, 1%nat, 0%nat))
    as ([[[ms ca] cc] si] & Hrun & _ & _ & _ & _ & Hms).
  - simpl; lia.
  - split; [lia|]. split; [lia|]. split; [|split; [now left | intros m []]].
    intros j Hj. replace j with 0%nat by lia. exists first. auto.
  - intros i [[[ms ca] cc] si] Hi (Hcc & Hsi & Hsame & Hleft & Hms).
    destruct (@index_lt _ df i) as (cur & Hcur & Hn); [lia|].
    unfold monologue_body. fold (iloc df i) in Hcur. rewrite Hcur; cbn [bind].
    unfold eqb_of. destruct (str_eq_dec (author cur) ca) as [Eq|Ne].
    + eexists. split; [reflexivity|]. split; [lia|]. split; [lia|]. split; [|auto].
      intros j Hj. destruct (Nat.eq_dec j i) as [->|Nj]; [eauto|].
      apply Hsame. lia.
    + assert (Hprev : exists e, nth_error df (i - 1) = Some e /\ author e <> author cur).
      { destruct (Hsame (i - 1)%nat) as (e & He & Ha); [lia|].
        exists e. split; [assumption | congruence]. }
      assert (Hnew : same_author_run df i 1 (author cur)).
      { intros j Hj. replace j with i by lia. eauto. }
      destruct (Nat.leb_spec 5 cc) as [L|L].
      * destruct (Hsame si) as (start & Hstart & Ha); [lia|].
        unfold iloc. rewrite (index_nth_error _ _ Hstart). cbn [bind].
        eexists. split; [reflexivity|]. split; [lia|]. split; [lia|].
        split; [assumption|]. split; [now right|].
        intros m Hm. apply in_app_or in Hm as [Hm|[<-|[]]]; [auto|].
        cbn [m_count]. split; [assumption|]. exists si.
        unfold monologue_at. cbn [m_count m_author m_start_time].
        split; [assumption|]. split; [eauto|]. split; [assumption|].
        exists cur. rewrite Hsi. auto.
      * cbn [bind]. eexists. split; [reflexivity|]. split; [lia|]. split; [lia|].
        split; [assumption|]. split; [now right | assumption].
  - exists ms, ca, cc, si. auto.
Qed.

(** X8. monologue_detection raises IndexError on a frame without rows and on
    no other.  On any other frame it prints at most ten monologues, longest
    first; each has at least 5 messages and is a run of consecutive events
    by its author that starts with an event at the start time shown, that
    no event by the same author precedes, and that an event by another
    author ends. *)
Theorem monologue_detection_sound (df : DataFrame) :
  (monologue_detection df = Raise IndexError <-> df = []) /\
  (df <> [] ->
   exists rows, monologue_detection df = Ok rows /\
     (length rows <= 10)%nat /\
     StronglySorted by_length rows /\
     forall m, In m rows -> (5 <= m_count m)%nat /\ exists s, monologue_at df m s).
Proof.
  assert (G : df <> [] ->
   exists rows, monologue_detection df = Ok rows /\
     (length rows <= 10)%nat /\
     StronglySorted by_length rows /\
     forall m, In m rows -> (5 <= m_count m)%nat /\ exists s, monologue_at df m s).
  { intros Hne.
    destruct (monologues_scan_ok Hne) as (ms & ca & cc & si & Hrun & Hms).
    unfold monologue_detection. rewrite Hrun; cbn [bind].
    eexists. split; [reflexivity|]. split; [apply firstn_le_length|]. split.
    - apply (top_sorted (fun x y => (m_count y <=? m_count x)%nat) by_length).
      + intros x y H. now apply Nat.leb_le in H.
      + intros x y H. apply Nat.leb_gt in H. unfold by_length. lia.
      + unfold by_length. intros; lia.
    - intros m Hm. apply in_firstn, sorted_in in Hm. now apply Hms. }
  split; [|exact G]. split.
  - intros H. destruct df as [|e df]; [reflexivity|]. exfalso.
    destruct G as (rows & Hrun & _); [discriminate|]. congruence.
  - intros ->. reflexivity.
Qed.

Lemma monologue_detection_sound_witness :
  monologue_detection [] = Raise IndexError /\
  exists rows, monologue_detection five_then_other = Ok rows /\
    (length rows <= 10)%nat /\ StronglySorted by_length rows /\
    forall m, In m rows -> (5 <= m_count m)%nat /\ exists s, monologue_at five_then_other m s.
Proof.
  split.
  - apply (proj1 (monologue_detection_sound [])). reflexivity.
  - apply (proj2 (monologue_detection_sound five_then_other)). discriminate.
Defined.

End FirstRow.

(* ================================================================== *)
(** * Bursts and chains on any frame *)

Section RunScans.
Import Frame Spec Analyses Gaps Examples.

Lemma nsum_fold (l : list nat) : forall a, fold_left Nat.add l a = (a + nsum l)%nat.
Proof.
  unfold nsum. induction l as [|x l IH]; intros a; simpl; [lia|].
  rewrite (IH (a + x)%nat), (IH x). lia.
Qed.

Lemma nsum_snoc (l : list nat) (x : nat) : nsum (l ++ [x]) = (nsum l + x)%nat.
Proof. unfold nsum. rewrite fold_left_app. simpl. reflexivity. Qed.

Lemma nsum_cons (l : list nat) (x : nat) : nsum (x :: l) = (x + nsum l)%nat.
Proof. unfold nsum at 1. simpl. apply nsum_fold. Qed.

Lemma nmax_fold (l : list nat) : forall a,
  (a <= fold_left Nat.max l a)%nat /\
  (forall x, In x l -> (x <= fold_left Nat.max l a)%nat) /\
  (fold_left Nat.max l a = a \/ In (fold_left Nat.max l a) l).
Proof.
  induction l as [|y l IH]; intros a; simpl.
  - repeat split; [lia | contradiction | now left].
  - destruct (IH (Nat.max a y)) as (H1 & H2 & H3). repeat split.
    + lia.
    + intros x [<-|Hx]; [lia | auto].
    + destruct H3 as [E|H]; [|auto]. rewrite E.
      destruct (Nat.max_spec a y) as [[_ ->]|[_ ->]]; auto.
Qed.

Lemma nmax_in (l : list nat) : l <> [] -> In (nmax l) l.
Proof.
  intros Hne. destruct (nmax_fold l 0) as (_ & H2 & [E|H]); [|exact H].
  destruct l as [|x l]; [congruence|]. unfold nmax in *.
  assert (x <= 0)%nat by (rewrite <- E; apply H2; now left).
  assert (x = 0%nat) by lia. subst x. rewrite E. now left.
Qed.

Lemma nmax_ge (l : list nat) (x : nat) : In x l -> (x <= nmax l)%nat.
Proof. intros H. now apply (nmax_fold l 0). Qed.

Lemma nsum_ge (l : list nat) (x : nat) : In x l -> (x <= nsum l)%nat.
Proof.
  induction l as [|y l IH]; [contradiction|]. rewrite nsum_cons.
  intros [<-|H]; [lia|]. specialize (IH H). lia.
Qed.

Lemma nsum_at_least (k : nat) (l : list nat) :
  (forall x, In x l -> (k <= x)%nat) -> (k * length l <= nsum l)%nat.
Proof.
  induction l as [|y l IH]; intros H; [simpl; lia|].
  rewrite nsum_cons. simpl length.
  assert (k <= y)%nat by (apply H; now left).
  assert (k * length l <= nsum l)%nat by (apply IH; intros x Hx; apply H; now right).
  lia.
Qed.

(** The summary of a list of run lengths. *)
Lemma run_report_ok (runs : list nat) :
  (runs = [] -> run_report runs = Ok None) /\
  (runs <> [] ->
   exists average median,
     run_report runs = Ok (Some (length runs, average, nmax runs, median)) /\
     average = (of_nat (nsum runs) / of_nat (length runs))%Q /\
     In median runs /\ In (nmax runs) runs /\ (median <= nmax runs)%nat).
Proof.
  split; [intros ->; reflexivity|]. intros Hne.
  destruct runs as [|r runs]; [congruence|]. unfold run_report.
  rewrite qdiv_of_nat by (simpl; lia). cbn [bind].
  destruct (@index_lt _ (sorted Nat.leb (r :: runs)) (length (r :: runs) / 2))
    as (median & Hi & Hn).
  { rewrite sorted_length. apply half_lt. simpl; lia. }
  rewrite Hi. cbn [bind].
  assert (Hm : In median (r :: runs)).
  { apply nth_error_In in Hn. now apply sorted_in in Hn. }
  eexists _, median. split; [reflexivity|]. split; [reflexivity|].
  split; [assumption|]. split; [now apply nmax_in | now apply nmax_ge].
Qed.

Lemma run_fold_invariant (limit : Z) (keep : nat) (ts : list (Event * Event)) :
  forall runs current,
    (forall r, In r runs -> (keep < r)%nat) -> (1 <= current)%nat ->
    exists runs' current',
      fold_left (run_step limit keep) ts (runs, current) = (runs', current') /\
      (forall r, In r runs' -> (keep < r)%nat) /\ (1 <= current')%nat /\
      (nsum runs' + current' <= nsum runs + current + length ts)%nat.
Proof.
  induction ts as [|t ts IH]; intros runs current Hr Hc.
  - exists runs, current. simpl. repeat split; auto; lia.
  - cbn [fold_left]. unfold run_step at 2.
    destruct (gap t <? limit)%Z.
    + destruct (IH runs (S current) Hr ltac:(lia)) as (r' & c' & E & H1 & H2 & H3).
      exists r', c'. repeat split; auto. simpl length. lia.
    + destruct (Nat.ltb_spec keep current) as [L|L].
      * destruct (IH (runs ++ [current]) 1%nat) as (r' & c' & E & H1 & H2 & H3); [|lia|].
        { intros r Hin. apply in_app_or in Hin as [Hin|[<-|[]]]; auto. }
        exists r', c'. repeat split; auto. rewrite nsum_snoc in H3. simpl length. lia.
      * destruct (IH runs 1%nat Hr ltac:(lia)) as (r' & c' & E & H1 & H2 & H3).
        exists r', c'. repeat split; auto. simpl length. lia.
Qed.

Lemma chains_scan_fold (df : DataFrame) :
  chains_scan df = Ok (fold_left (run_step 120 2) (transitions df) ([], 1%nat)).
Proof.
  unfold chains_scan. apply for_range_scan.
  - now rewrite transitions_length.
  - intros j [chains current] [p c] H. apply transitions_nth_error in H as [Hp Hc].
    unfold chain_body, run_step. replace (S j - 1)%nat with j by lia.
    rewrite Hc, Hp; cbn [bind].
    change 2%Q with (inject_Z 2). rewrite minutes_lt. change (60 * 2)%Z with 120%Z.
    unfold gap; cbn [fst snd].
    destruct (datetime c - datetime p <? 120)%Z; [reflexivity|].
    destruct (2 <? current)%nat; reflexivity.
Qed.

Lemma run_scan_bounds (limit : Z) (keep : nat) (df : DataFrame) :
  exists runs current,
    fold_left (run_step limit keep) (transitions df) ([], 1%nat) = (runs, current) /\
    (forall r, In r runs -> (keep < r)%nat) /\ (1 <= current)%nat /\
    (nsum runs + current <= S (length df - 1))%nat.
Proof.
  destruct (@run_fold_invariant limit keep (transitions df) [] 1%nat)
    as (runs & current & E & H1 & H2 & H3); [intros r [] | lia |].
  exists runs, current. repeat split; auto.
  rewrite transitions_length in H3. unfold nsum in H3 at 2. simpl in H3. lia.
Qed.

(** X9. The burst and chain analyses never raise.  Every burst counted has
    at least 2 messages and every chain at least 3; together with the run
    still in progress when the scan ends they count no event twice, so the
    messages in the runs counted are at most the events less one; and when a
    summary is printed, its total is the number of runs, its median and its
    longest are lengths of counted runs, and the median is at most the
    longest. *)
Theorem run_scans_sound (df : DataFrame) :
  (exists bursts current,
     bursts_scan df = Ok (bursts, current) /\
     (forall b, In b bursts -> (2 <= b)%nat) /\ (1 <= current)%nat /\
     (nsum bursts + current <= S (length df - 1))%nat /\
     (2 * length bursts <= length df - 1)%nat /\
     (bursts = [] -> conversation_length_analysis df = Ok None) /\
     (bursts <> [] ->
      exists average median,
        conversation_length_analysis df
        = Ok (Some (length bursts, average, nmax bursts, median)) /\
        average = (of_nat (nsum bursts) / of_nat (length bursts))%Q /\
        In median bursts /\ In (nmax bursts) bursts /\ (median <= nmax bursts)%nat)) /\
  (exists chains current,
     chains_scan df = Ok (chains, current) /\
     (forall c, In c chains -> (3 <= c)%nat) /\ (1 <= current)%nat /\
     (nsum chains + current <= S (length df - 1))%nat /\
     (3 * length chains <= length df - 1)%nat /\
     (chains = [] -> reply_chain_depth df = Ok None) /\
     (chains <> [] ->
      exists average median,
        reply_chain_depth df
        = Ok (Some (length chains, average, nmax chains, median)) /\
        average = (of_nat (nsum chains) / of_nat (length chains))%Q /\
        In median chains /\ In (nmax chains) chains /\ (median <= nmax chains)%nat)).
Proof.
  split.
  - destruct (run_scan_bounds 300 1 df) as (runs & current & E & H1 & H2 & H3).
    assert (Hrun : bursts_scan df = Ok (runs, current)).
    { rewrite bursts_scan_fold. change burst_step with (run_step 300 1). now rewrite E. }
    exists runs, current. split; [assumption|]. split; [exact H1|].
    split; [assumption|]. split; [assumption|]. split; [|split].
    + pose proof (@nsum_at_least 2 runs H1). lia.
    + intros ->. unfold conversation_length_analysis. now rewrite Hrun.
    + intros Hne. unfold conversation_length_analysis. rewrite Hrun. cbn [bind].
      now apply run_report_ok.
  - destruct (run_scan_bounds 120 2 df) as (runs & current & E & H1 & H2 & H3).
    assert (Hrun : chains_scan df = Ok (runs, current)).
    { rewrite chains_scan_fold. now rewrite E. }
    exists runs, current. split; [assumption|]. split; [exact H1|].
    split; [assumption|]. split; [assumption|]. split; [|split].
    + pose proof (@nsum_at_least 3 runs H1). lia.
    + intros ->. unfold reply_chain_depth. now rewrite Hrun.
    + intros Hne. unfold reply_chain_depth. rewrite Hrun. cbn [bind].
      now apply run_report_ok.
Qed.

End RunScans.

(* ================================================================== *)
(** * Means of latencies *)

Section Means.
Import Frame Spec Analyses Gaps Examples.

Lemma of_nat_succ (n : nat) (b : Q) : (of_nat (S n) * b == of_nat n * b + b)%Q.
Proof.
  replace (S n) with (n + 1)%nat by lia. rewrite of_nat_add.
  change (of_nat 1) with 1%Q. ring.
Qed.

Lemma qsum_fold_lt (b : Q) (l : list Q) :
  (forall x, In x l -> (x < b)%Q) ->
  forall acc n, (acc <= of_nat n * b)%Q -> l <> [] ->
    (fold_left Qplus l acc < of_nat (n + length l) * b)%Q.
Proof.
  induction l as [|x l IH]; intros Hall acc n Hacc Hne; [congruence|].
  assert (Hx : (acc + x < of_nat (S n) * b)%Q).
  { rewrite of_nat_succ, (Qplus_comm acc x), (Qplus_comm (of_nat n * b) b).
    apply Qplus_lt_le_compat; [apply Hall; now left | assumption]. }
  cbn [fold_left length].
  destruct l as [|y l].
  - simpl. now replace (n + 1)%nat with (S n) by lia.
  - replace (n + S (length (y :: l)))%nat with (S n + length (y :: l))%nat by lia.
    apply IH; [intros z Hz; apply Hall; now right | now apply Qlt_le_weak | discriminate].
Qed.

Lemma qsum_fold_ge (a : Q) (l : list Q) :
  (forall x, In x l -> (a <= x)%Q) ->
  forall acc n, (of_nat n * a <= acc)%Q ->
    (of_nat (n + length l) * a <= fold_left Qplus l acc)%Q.
Proof.
  induction l as [|x l IH]; intros Hall acc n Hacc.
  - simpl. now rewrite Nat.add_0_r.
  - cbn [fold_left length].
    replace (n + S (length l))%nat with (S n + length l)%nat by lia.
    apply IH; [intros z Hz; apply Hall; now right|].
    rewrite of_nat_succ. apply Qplus_le_compat; [assumption | apply Hall; now left].
Qed.

(** The mean of a non-empty sample lies where all its elements lie. *)
Lemma mean_bounds (a b : Q) (l : list Q) :
  l <> [] ->
  ((forall x, In x l -> (x < b)%Q) -> (qsum l / of_nat (length l) < b)%Q) /\
  ((forall x, In x l -> (a <= x)%Q) -> (a <= qsum l / of_nat (length l))%Q).
Proof.
  intros Hne.
  assert (Hpos : (0 < of_nat (length l))%Q).
  { apply of_nat_pos. destruct l; [congruence | simpl; lia]. }
  split; intros Hall.
  - apply Qlt_shift_div_r; [assumption|]. rewrite Qmult_comm.
    apply (@qsum_fold_lt b l Hall 0%Q 0%nat); [|assumption].
    change (of_nat 0) with 0%Q. rewrite Qmult_0_l. apply Qle_refl.
  - apply Qle_shift_div_l; [assumption|]. rewrite Qmult_comm.
    apply (@qsum_fold_ge a l Hall 0%Q 0%nat).
    change (of_nat 0) with 0%Q. rewrite Qmult_0_l. apply Qle_refl.
Qed.

Lemma latency_lt (t : Event * Event) (m : Z) :
  (gap t < 60 * m)%Z -> (latency t < inject_Z m)%Q.
Proof.
  intros H. unfold latency, Qlt, Qdiv, Qmult, Qinv, inject_Z; simpl. lia.
Qed.

Lemma latency_nonneg (t : Event * Event) : (0 <= gap t)%Z -> (0 <= latency t)%Q.
Proof.
  intros H. unfold latency, Qle, Qdiv, Qmult, Qinv, inject_Z; simpl. lia.
Qed.

Lemma latency_sample_lt (df : DataFrame) (x : Q) :
  In x (latency_sample df) ->
  (x < 60)%Q /\ ((forall t, In t (transitions df) -> (0 <= gap t)%Z) -> (0 <= x)%Q).
Proof.
  unfold latency_sample. intros H. apply in_map_iff in H as (t & <- & Ht).
  apply filter_In in Ht as [Hin Ht]. unfold reply_within in Ht.
  apply andb_true_iff in Ht as [_ Ht]. apply Z.ltb_lt in Ht.
  split; [now apply (latency_lt t 60)|].
  intros Hord. apply latency_nonneg. now apply Hord.
Qed.

(** X10. Whenever response_time_analysis prints an average and a median,
    both are strictly below 60 minutes; and when no event is stamped earlier
    than the event before it, neither is negative. *)
Theorem response_time_bounds (df : DataFrame) (mean median : Q) :
  response_time_analysis df = Ok (Some (mean, median)) ->
  (mean < 60)%Q /\ (median < 60)%Q /\
  ((forall t, In t (transitions df) -> (0 <= gap t)%Z) ->
   (0 <= mean)%Q /\ (0 <= median)%Q).
Proof.
  unfold response_time_analysis. rewrite response_times_sample; cbn [bind].
  pose proof (latency_sample_lt df) as Hall.
  destruct (latency_sample df) as [|q l] eqn:E; [discriminate|].
  rewrite qdiv_of_nat by (simpl; lia). cbn [bind].
  destruct (index (sorted Qle_bool (q :: l)) (length (q :: l) / 2)) as [m|] eqn:Hi;
    [|discriminate].
  cbn [bind]. intros H. inversion H; subst mean median. clear H.
  assert (Hm : In m (q :: l)).
  { unfold index in Hi.
    destruct (nth_error (sorted Qle_bool (q :: l)) (length (q :: l) / 2)) as [m'|] eqn:Hn;
      [|discriminate].
    inversion Hi; subst m'. apply nth_error_In in Hn. now apply sorted_in in Hn. }
  destruct (@mean_bounds 0%Q 60%Q (q :: l)) as [Hlt Hge]; [discriminate|].
  split; [apply Hlt; intros x Hx; now apply Hall|].
  split; [now apply Hall|].
  intros Hord. split; [apply Hge; intros x Hx|]; now apply Hall.
Qed.

End Means.

Section ReplySpeedRows.
Import Frame Spec Analyses Gaps Examples.

Lemma avg_reply_members (df : DataFrame) :
  exists table, avg_reply df = Ok table /\
    Sorted (fun x y : str * Q => (snd x <= snd y)%Q) table /\
    forall a avg, In (a, avg) table ->
      (5 < length (replies_of df a))%nat /\
      avg = (qsum (replies_of df a) / of_nat (length (replies_of df a)))%Q.
Proof.
  destruct (reply_times_ok df) as (d & Hd & Hk & Hf).
  unfold avg_reply. rewrite Hd; cbn [bind].
  destruct (@mapM_ok _ _ avg_reply_entry
              (fun item ys => ys = if (5 <? length (snd item))%nat
                                   then [(fst item, (qsum (snd item) / of_nat (length (snd item)))%Q)]
                                   else []) d) as (entries & He & HP).
  { intros [a times] _. unfold avg_reply_entry. cbn [fst snd].
    destruct (Nat.ltb_spec 5 (length times)) as [L|L].
    - rewrite qdiv_of_nat by lia. cbn [bind]. eauto.
    - eauto. }
  rewrite He; cbn [bind]. eexists. split; [reflexivity|]. split.
  { apply sorted_Sorted.
    - intros x y H. now apply Qle_bool_iff.
    - intros x y H. apply Qlt_le_weak, Qnot_le_lt. intros C.
      apply Qle_bool_iff in C. congruence. }
  assert (Hnd : NoDup (keys d)) by (rewrite Hk; apply unique_NoDup).
  intros a avg Hin. apply sorted_in, in_concat in Hin as (ys & Hys & Hin).
  destruct (Forall2_in_r HP _ Hys) as ([a' times] & Hitem & Hy). cbn [fst snd] in Hy.
  destruct (Nat.ltb_spec 5 (length times)) as [L|L]; subst ys; [|contradiction].
  destruct Hin as [E|[]]. inversion E; subst a' avg.
  assert (Ha : In a (unique str_eq_dec (map author df))).
  { rewrite <- Hk. change a with (fst (a, times)). now apply in_map. }
  apply (in_dict_find str_eq_dec _ _ _ Hnd) in Hitem.
  rewrite (Hf _ Ha) in Hitem. inversion Hitem; subst times. split; [assumption | reflexivity].
Qed.

Lemma replies_of_lt (df : DataFrame) (a : str) (x : Q) :
  In x (replies_of df a) ->
  (x < 60)%Q /\ ((forall t, In t (transitions df) -> (0 <= gap t)%Z) -> (0 <= x)%Q).
Proof.
  unfold replies_of. intros H. apply in_map_iff in H as (t & <- & Ht).
  apply filter_In in Ht as [Hin Ht]. apply andb_true_iff in Ht as [Ht _].
  unfold reply_within in Ht. apply andb_true_iff in Ht as [_ Ht]. apply Z.ltb_lt in Ht.
  split; [now apply (latency_lt t 60)|].
  intros Hord. apply latency_nonneg. now apply Hord.
Qed.

(** X11. reply_speed_by_author never raises.  Its list [avg_reply], of
    which it prints the first 15 rows, comes fastest first; every author
    listed wrote in the chat and is listed with one average only; every
    average is strictly below 60 minutes, and not negative when no event is
    stamped earlier than the event before it. *)
Theorem reply_speed_rows (df : DataFrame) :
  exists avg_reply, Frame.avg_reply df = Ok avg_reply /\
    reply_speed_by_author df = Ok (firstn 15 avg_reply) /\
    Sorted (fun x y : str * Q => (snd x <= snd y)%Q) avg_reply /\
    (forall a avg avg', In (a, avg) avg_reply -> In (a, avg') avg_reply -> avg = avg') /\
    (forall a avg, In (a, avg) avg_reply ->
       In a (map author df) /\ (avg < 60)%Q /\
       ((forall t, In t (transitions df) -> (0 <= gap t)%Z) -> (0 <= avg)%Q)).
Proof.
  destruct (avg_reply_members df) as (rows & Hrun & Hs & Hm).
  exists rows. split; [assumption|].
  split; [unfold reply_speed_by_author; now rewrite Hrun|].
  split; [assumption|]. split.
  - intros a avg avg' H H'. destruct (Hm _ _ H) as [_ ->]. now destruct (Hm _ _ H') as [_ ->].
  - intros a avg H. destruct (Hm _ _ H) as [L ->].
    assert (Hne : replies_of df a <> []).
    { destruct (replies_of df a); [simpl in L; lia | discriminate]. }
    destruct (@mean_bounds 0%Q 60%Q (replies_of df a) Hne) as [Hlt Hge].
    split; [|split].
    + apply unique_in with (eq_dec := str_eq_dec). now apply replies_author.
    + apply Hlt. intros x Hx. now apply (replies_of_lt df a).
    + intros Hord. apply Hge. intros x Hx. now apply (replies_of_lt df a).
Qed.

Lemma reply_speed_rows_witness :
  exists avg_reply, reply_speed_by_author ping_pong = Ok (firstn 15 avg_reply) /\
    exists a avg, In a (map author ping_pong) /\ (avg < 60)%Q /\ (0 <= avg)%Q.
Proof.
  destruct (reply_speed_rows ping_pong) as (rows & Hrun & Hcut & _ & _ & Hrow).
  exists rows. split; [assumption|].
  destruct rows as [|[a avg] rows]; [vm_compute in Hrun; discriminate|].
  exists a, avg. destruct (Hrow a avg (or_introl eq_refl)) as (H1 & H2 & H3).
  split; [assumption|]. split; [assumption|]. apply H3.
  intros t Ht. vm_compute in Ht.
  repeat (destruct Ht as [<-|Ht]; [vm_compute; discriminate|]). contradiction.
Defined.

End ReplySpeedRows.

(* ================================================================== *)
(** * The reply-speed table and its first 15 rows *)

Section ReplySpeedShown.
Import Frame Spec Analyses Gaps Examples.

Lemma fold_total (l : list Q) : forall acc, (fold_left Qplus l acc == acc + total l)%Q.
Proof.
  induction l as [|x l IH]; intros acc; simpl.
  - now rewrite Qplus_0_r.
  - rewrite IH. now rewrite Qplus_assoc.
Qed.

(** [sum], which adds from the left, gives the total of the sample. *)
Lemma qsum_total (l : list Q) : (qsum l == total l)%Q.
Proof. unfold qsum. rewrite fold_total. apply Qplus_0_l. Qed.

Lemma qualifying_iff (df : DataFrame) (a : str) :
  In a (qualifying df) <-> (5 < length (replies_of df a))%nat.
Proof.
  unfold qualifying. rewrite filter_In, Nat.ltb_lt. split; [now intros [_ H]|].
  intros H. split; [|assumption]. apply replies_author.
  destruct (replies_of df a); [simpl in H; lia | discriminate].
Qed.

(** The authors of [avg_reply] are the qualifying authors, each once. *)
Lemma avg_reply_authors (df : DataFrame) :
  exists table, avg_reply df = Ok table /\
    Permutation (map fst table) (qualifying df).
Proof.
  destruct (reply_times_ok df) as (d & Hd & Hk & Hf).
  assert (Hnd : NoDup (keys d)) by (rewrite Hk; apply unique_NoDup).
  assert (Hitems : Forall (fun item => snd item = replies_of df (fst item)) d).
  { rewrite Forall_forall. intros [a times] Hin. cbn [fst snd].
    pose proof (in_dict_find str_eq_dec _ _ _ Hnd Hin) as F.
    rewrite Hf in F; [now inversion F|].
    rewrite <- Hk. change a with (fst (a, times)). now apply in_map. }
  unfold avg_reply. rewrite Hd; cbn [bind].
  destruct (@mapM_ok _ _ avg_reply_entry
              (fun item ys => map fst ys = if (5 <? length (snd item))%nat
                                           then [fst item] else []) d)
    as (entries & He & HP).
  { intros [a times] _. unfold avg_reply_entry. cbn [fst snd].
    destruct (Nat.ltb_spec 5 (length times)) as [L|L].
    - rewrite qdiv_of_nat by lia. cbn [bind]. eauto.
    - eauto. }
  rewrite He; cbn [bind]. eexists. split; [reflexivity|].
  eapply Permutation_trans; [apply Permutation_map, sorted_perm|].
  unfold qualifying. rewrite <- Hk. clear - HP Hitems.
  induction HP as [|[a times] ys d entries Hy HP IH]; [constructor|].
  inversion Hitems as [|? ? Ha Hrest]; subst. cbn [fst snd] in Hy, Ha.
  cbn [concat keys map filter fst]. rewrite map_app, Hy, <- Ha.
  destruct (5 <? length times)%nat; cbn [app].
  - constructor. now apply IH.
  - now apply IH.
Qed.

(** C7, as the code has it.  For every author the scan collects exactly the
    latencies of the speaker-change transitions of strictly less than 60
    minutes whose current event is by that author.  An author is in
    [avg_reply], once and with the mean of those latencies, if and only if
    there are strictly more than 5 of them.  The output is the first 15
    rows of [avg_reply], fastest first: every author shown has more than 5
    such latencies; an author with more than 5 who is not shown is cut by
    15 rows of authors who are at least as fast; and when at most 15
    authors have more than 5, an author is shown if and only if they are
    one of them. *)
Theorem reply_speed_shown (df : DataFrame) :
  (exists d, reply_times df = Ok d /\
     forall a, In a (map author df) -> dict_find str_eq_dec d a = Some (replies_of df a)) /\
  exists table rows,
    avg_reply df = Ok table /\ reply_speed_by_author df = Ok rows /\
    rows = firstn 15 table /\
    Permutation (map fst table) (qualifying df) /\
    (forall a, In a (map fst table) <-> (5 < length (replies_of df a))%nat) /\
    (forall a avg, In (a, avg) table -> (avg == mean_of (replies_of df a))%Q) /\
    (forall a, In a (map fst rows) -> (5 < length (replies_of df a))%nat) /\
    (forall a, (5 < length (replies_of df a))%nat ->
       In a (map fst rows) \/
       (length rows = 15%nat /\
        forall b avg, In (b, avg) rows -> (avg <= mean_of (replies_of df a))%Q)) /\
    ((length (qualifying df) <= 15)%nat ->
     forall a, In a (map fst rows) <-> (5 < length (replies_of df a))%nat).
Proof.
  split.
  { destruct (reply_times_ok df) as (d & Hd & Hk & Hf).
    exists d. split; [assumption|]. intros a Ha. apply Hf. now apply unique_in. }
  destruct (avg_reply_authors df) as (table & Hrun & Hperm).
  destruct (avg_reply_members df) as (table' & Hrun' & Hsorted & Hmem).
  rewrite Hrun in Hrun'. inversion Hrun'; subst table'. clear Hrun'.
  assert (Hin : forall a, In a (map fst table) <-> (5 < length (replies_of df a))%nat).
  { intros a. rewrite <- qualifying_iff. split; apply Permutation_in;
      [assumption | now apply Permutation_sym]. }
  assert (Hmean : forall a avg, In (a, avg) table -> (avg == mean_of (replies_of df a))%Q).
  { intros a avg H. destruct (Hmem _ _ H) as [_ ->]. unfold mean_of.
    now rewrite qsum_total. }
  assert (Hshown : forall a, In a (map fst (firstn 15 table)) -> In a (map fst table)).
  { intros a H. apply in_map_iff in H as (x & <- & Hx). apply in_map.
    now apply in_firstn in Hx. }
  exists table, (firstn 15 table).
  split; [assumption|]. split; [unfold reply_speed_by_author; now rewrite Hrun|].
  split; [reflexivity|]. split; [assumption|]. split; [assumption|].
  split; [assumption|]. split; [intros a H; now apply Hin, Hshown|]. split.
  - intros a Ha. apply Hin, in_map_iff in Ha as ([a' avg] & E & Hrow).
    cbn [fst] in E. subst a'.
    apply Sorted_StronglySorted in Hsorted;
      [|intros x y z; apply Qle_trans].
    rewrite <- (firstn_skipn 15 table) in Hsorted, Hrow.
    apply StronglySorted_app_inv in Hsorted as (_ & _ & Hcut).
    apply in_app_or in Hrow as [Hrow|Hrow].
    + left. change a with (fst (a, avg)). now apply in_map.
    + right. split.
      * rewrite length_firstn. apply Nat.min_l.
        destruct (Nat.le_gt_cases 15 (length table)) as [L|L]; [assumption|].
        rewrite skipn_all2 in Hrow by lia. contradiction.
      * intros b avg' Hb. rewrite <- (Hmean a avg).
        -- exact (Hcut _ _ Hb Hrow).
        -- rewrite <- (firstn_skipn 15 table). apply in_or_app. now right.
  - intros Hfew a. rewrite firstn_all2; [apply Hin|].
    rewrite <- (length_map fst table). now rewrite (Permutation_length Hperm).
Qed.

Lemma reply_speed_shown_witness :
  (length (qualifying ping_pong) <= 15)%nat /\
  exists rows, reply_speed_by_author ping_pong = Ok rows /\ In B (map fst rows).
Proof.
  split; [vm_compute; lia|].
  destruct (proj2 (reply_speed_shown ping_pong))
    as (table & rows & _ & Hrun & _ & _ & _ & _ & _ & _ & Hall).
  exists rows. split; [assumption|]. apply Hall; vm_compute; lia.
Defined.

(** C7 as stated fails when more than 15 authors have more than 5 such
    latencies: the sixteenth author of [sixteen_authors] has seven and is
    not in the output. *)
Lemma sixteenth_author_not_shown :
  (5 < length (replies_of sixteen_authors (nth_author 15)))%nat /\
  exists rows, reply_speed_by_author sixteen_authors = Ok rows /\
    length rows = 15%nat /\ ~ In (nth_author 15) (map fst rows).
Proof.
  split; [vm_compute; lia|].
  eexists. split; [vm_compute; reflexivity|]. split; [reflexivity|].
  cbn [map fst]. intros H.
  repeat (destruct H as [H|H]; [discriminate H|]). contradiction.
Qed.

End ReplySpeedShown.

Section ResponseRateRows.
Import Frame Spec Analyses Gaps Examples.

Lemma concat_singletons {A B} (f : A -> B) (l : list A) :
  concat (map (fun x => [f x]) l) = map f l.
Proof. induction l as [|x l IH]; simpl; [reflexivity | now rewrite IH]. Qed.

Lemma StronglySorted_map_in {A B} (R : A -> A -> Prop) (R' : B -> B -> Prop)
      (f : A -> B) (l : list A) :
  (forall x y, In x l -> In y l -> R x y -> R' (f x) (f y)) ->
  StronglySorted R l -> StronglySorted R' (map f l).
Proof.
  induction l as [|a l IH]; intros H Hs; simpl; [constructor|].
  inversion Hs as [|? ? Hs' Hall]; subst. constructor.
  - apply IH; [|assumption]. intros x y Hx Hy. apply H; now right.
  - rewrite Forall_forall in *. intros b Hb. apply in_map_iff in Hb as (y & <- & Hy).
    apply H; [now left | now right | now apply Hall].
Qed.

(** X12. The rows of author_response_rate: at most 15, no author twice,
    the authors with most messages first, every author shown has at least
    one message, an author who is not shown has no more messages than any
    author who is, and with 15 authors or fewer everyone is shown. *)
Theorem response_rate_rows (df : DataFrame) :
  exists rows, author_response_rate df = Ok rows /\
    (length rows <= 15)%nat /\
    NoDup (map (fun r => fst (fst r)) rows) /\
    StronglySorted by_messages rows /\
    (forall a rate n, In (a, rate, n) rows ->
       In a (map author df) /\ n = messages_of df a /\ (1 <= n)%nat) /\
    (forall a rate n b, In (a, rate, n) rows -> In b (map author df) ->
       In b (map (fun r => fst (fst r)) rows) \/ (messages_of df b <= n)%nat) /\
    ((length (unique str_eq_dec (map author df)) <= 15)%nat ->
     forall b, In b (map author df) -> In b (map (fun r => fst (fst r)) rows)).
Proof.
  destruct (response_counts_ok df) as (msgs & resps & Hrun & Hk & Hf).
  set (authors := unique str_eq_dec (map author df)) in *.
  set (h := fun a : str => (a, messages_of df a)).
  set (g := fun a : str =>
              (a, (of_nat (credited df a) / of_nat (messages_of df a) * 100)%Q,
               messages_of df a)).
  set (leb := fun x y : str * nat => (snd y <=? snd x)%nat).
  assert (Ht : forall x y, leb x y = true -> by_count x y).
  { intros x y H. now apply Nat.leb_le in H. }
  assert (Hfl : forall x y, leb x y = false -> by_count y x).
  { intros x y H. apply Nat.leb_gt in H. unfold by_count. lia. }
  assert (Htr : forall x y z : str * nat, by_count x y -> by_count y z -> by_count x z).
  { unfold by_count. intros; lia. }
  assert (Hpos : forall a, In a authors -> (1 <= messages_of df a)%nat).
  { intros a Ha. apply unique_in in Ha. now apply count_occ_In. }
  unfold author_response_rate. rewrite Hrun; cbn [bind].
  destruct (@mapM_ok _ _ (fun a => n <- dict_get str_eq_dec msgs a ;; Ok (a, n))
              (fun a y => y = h a) (keys msgs)) as (keyed & Hkeyed & HP).
  { intros a Ha. rewrite Hk in Ha. unfold dict_get. rewrite (proj1 (Hf _ Ha)). cbn [bind].
    eauto. }
  apply Forall2_map_eq in HP. rewrite Hk in HP. subst keyed.
  rewrite Hkeyed; cbn [bind]. fold leb.
  set (T := firstn 15 (sorted leb (map h authors))).
  assert (HT : forall y, In y T -> In (fst y) authors /\ y = h (fst y)).
  { intros y Hy. apply in_firstn, sorted_in in Hy. apply in_map_iff in Hy as (a & <- & Ha).
    auto. }
  rewrite firstn_map. fold T.
  destruct (@mapM_ok _ _ (response_rate_row msgs resps) (fun a ys => ys = [g a])
              (map fst T)) as (lists & Hlists & HL).
  { intros a Ha. apply in_map_iff in Ha as (y & <- & Hy).
    destruct (HT y Hy) as [Ha _]. destruct (Hf _ Ha) as [Hm Hr].
    unfold response_rate_row, dict_get. rewrite Hm; cbn [bind].
    specialize (Hpos _ Ha). replace (0 <? messages_of df (fst y))%nat with true
      by (symmetry; apply Nat.ltb_lt; lia).
    rewrite Hr; cbn [bind]. rewrite qdiv_of_nat by lia. cbn [bind]. eauto. }
  apply (Forall2_map_eq (fun a => [g a])) in HL. subst lists.
  rewrite Hlists; cbn [bind]. rewrite concat_singletons, map_map.
  assert (Hauth : map (fun r : str * Q * nat => fst (fst r)) (map (fun y => g (fst y)) T)
                  = map fst T).
  { rewrite map_map. reflexivity. }
  eexists. split; [reflexivity|]. rewrite Hauth.
  assert (Hrow : forall a rate n, In (a, rate, n) (map (fun y => g (fst y)) T) ->
                                  In (a, n) T /\ n = messages_of df a /\ In a authors).
  { intros a rate n H. apply in_map_iff in H as (y & E & Hy).
    destruct (HT y Hy) as [Ha Ey]. unfold g in E. inversion E; subst a rate n.
    split; [|auto]. rewrite Ey in Hy. exact Hy. }
  split; [rewrite length_map; apply firstn_le_length|].
  split; [|split; [|split; [|split]]].
  - apply (firstn_map_fst_NoDup 15 (l := map h authors)); [apply sorted_perm|].
    rewrite map_map. cbn [h fst]. rewrite map_id. apply unique_NoDup.
  - apply (StronglySorted_map_in (R := by_count)).
    + intros x y Hx Hy H. destruct (HT x Hx) as [_ Ex]. destruct (HT y Hy) as [_ Ey].
      unfold by_messages, by_count, g in *. cbn [snd]. rewrite Ex, Ey in H. exact H.
    + apply (top_sorted leb by_count Ht Hfl Htr).
  - intros a rate n H. destruct (Hrow a rate n H) as (_ & -> & Ha).
    split; [now apply unique_in in Ha|]. split; [reflexivity | now apply Hpos].
  - intros a rate n b H Hb. destruct (Hrow a rate n H) as (Hin & -> & _).
    assert (Hb' : In (h b) (map h authors)).
    { apply in_map. now apply unique_in. }
    destruct (top_cut leb by_count Ht Hfl Htr 15 _ _ _ Hin Hb') as [HbT|Hle].
    + left. change b with (fst (h b)). now apply in_map.
    + right. exact Hle.
  - intros Hfew b Hb. change b with (fst (h b)). apply in_map.
    apply top_all; [now rewrite length_map|]. apply in_map. now apply unique_in.
Qed.

End ResponseRateRows.

(* ================================================================== *)
(** * The fields of a parsed row *)

Section RowFields.
Import Re Parser Spec Lines.

Variable isdecimal : char -> bool.

Lemma lstrip_id (s : str) :
  (forall c r, s = c :: r -> isspace c = false) -> lstrip s = s.
Proof.
  destruct s as [|c r]; [reflexivity|]. intros H. simpl.
  now rewrite (H c r eq_refl).
Qed.

Lemma strip_idempotent (s : str) : strip (strip s) = strip s.
Proof.
  destruct (strip s) as [|c r] eqn:E; [reflexivity|].
  assert (Hl : lstrip (c :: r) = c :: r).
  { apply lstrip_id. intros c' r' E'. inversion E'; subst.
    unfold strip in E. now apply lstrip_head in E. }
  destruct (exists_last (l := c :: r)) as (r' & c' & E'); [discriminate|].
  assert (Hc' : isspace c' = false) by (rewrite E' in E; now apply strip_last in E).
  unfold strip at 1. unfold rstrip. rewrite E', rev_app_distr. simpl rev at 1.
  cbn [app lstrip]. rewrite Hc'. cbn [rev]. rewrite rev_involutive, <- E'. exact Hl.
Qed.

Lemma matches_digits (n : nat) : forall s g,
  matches (digits isdecimal n) s g ->
  length s = n /\ forallb isdecimal s = true /\ g = [].
Proof.
  unfold digits. induction n as [|n IH]; intros s g M.
  - inversion M; subst. auto.
  - inversion M as [| | | |? ? s1 s2 g1 g2 M1 M2| |]; subst.
    inversion M1 as [|? c Hc| | | | |]; subst.
    destruct (IH _ _ M2) as (Hl & Hd & ->). simpl. rewrite Hc, Hd, Hl. auto.
Qed.

Ltac invert_cat M :=
  let M1 := fresh "M" in let M2 := fresh "M" in
  inversion M as [| |? ? ? ? ? ? M1 M2| | | |]; subst; clear M.

(** The shape of the first two groups of a match: [dd/dd/dddd] and
    [dd:dd]. *)
Lemma pattern_date_time (s1 : str) (gs : list str) :
  matches (pattern isdecimal) s1 gs ->
  exists d1 d2 d3 h mi a m,
    gs = [d1 ++ [47%N] ++ d2 ++ [47%N] ++ d3; h ++ [58%N] ++ mi; a; m] /\
    (length d1 = 2 /\ length d2 = 2 /\ length d3 = 4 /\ length h = 2 /\ length mi = 2)%nat /\
    forallb isdecimal (d1 ++ d2 ++ d3 ++ h ++ mi) = true.
Proof.
  unfold pattern. cbn [cat]. intros M.
  repeat match goal with
         | H : matches (Cat _ _) _ _ |- _ => invert_cat H
         | H : matches (Grp _) _ _ |- _ =>
             inversion H as [| | | | | |? ? ? H']; subst; clear H
         | H : matches (lit _) _ _ |- _ => inversion H; subst; clear H
         | H : matches ws _ _ |- _ => inversion H; subst; clear H
         | H : matches (Plus _) _ _ |- _ => inversion H; subst; clear H
         | H : matches (digits _ _) _ _ |- _ =>
             apply matches_digits in H; destruct H as (? & ? & ->)
         end.
  cbn [app].
  do 7 eexists. split; [reflexivity|]. split; [auto|].
  rewrite !forallb_app.
  repeat (apply andb_true_intro; split); assumption.
Qed.

(** The author and the message of a row come out of [strip]. *)
Lemma parsed_row_stripped (line : str) (row : Row) :
  parse_line isdecimal line = Some row ->
  strip (author row) = author row /\ strip (message row) = message row.
Proof.
  unfold parse_line. intros H.
  destruct (re_match (pattern isdecimal) (strip line)) as [gs|] eqn:R; [|discriminate].
  pose proof R as R'. apply re_match_sound in R' as (s1 & s2 & _ & M).
  destruct (pattern_date_time M) as (d1 & d2 & d3 & h & mi & a & m & -> & _).
  inversion H; subst row; clear H. cbn [author message].
  split; apply strip_idempotent.
Qed.

(** X13. Every row the line parser returns has a date of the form
    dd/dd/dddd and a time of the form dd:dd, all d decimal digits, so the
    string handed to the date conversion has 16 characters; its author and
    its message come out of strip, which leaves them unchanged when applied
    again: neither starts or ends with white space. *)
Theorem parsed_row_fields (line : str) (row : Row) :
  parse_line isdecimal line = Some row ->
  (exists d1 d2 d3 h mi,
     date row = d1 ++ [47%N] ++ d2 ++ [47%N] ++ d3 /\ time row = h ++ [58%N] ++ mi /\
     (length d1 = 2 /\ length d2 = 2 /\ length d3 = 4 /\ length h = 2 /\ length mi = 2)%nat /\
     forallb isdecimal (d1 ++ d2 ++ d3 ++ h ++ mi) = true) /\
  length (date row ++ [32%N] ++ time row) = 16%nat /\
  strip (author row) = author row /\ strip (message row) = message row.
Proof.
  unfold parse_line. intros H.
  destruct (re_match (pattern isdecimal) (strip line)) as [gs|] eqn:R; [|discriminate].
  pose proof R as R'. apply re_match_sound in R' as (s1 & s2 & _ & M).
  destruct (pattern_date_time M) as (d1 & d2 & d3 & h & mi & a & m & -> & Hl & Hd).
  inversion H; subst row; clear H. cbn [date time author message].
  split; [exists d1, d2, d3, h, mi; auto|].
  split; [|split; apply strip_idempotent].
  destruct Hl as (H1 & H2 & H3 & H4 & H5).
  repeat (rewrite length_app; simpl). unfold str, char in *. lia.
Qed.

End RowFields.

Section RowFieldsWitness.
Import Parser Lines.

Lemma parsed_row_fields_witness :
  length (date alice_row ++ [32%N] ++ time alice_row) = 16%nat /\
  strip (author alice_row) = author alice_row.
Proof.
  destruct (@parsed_row_fields ascii_digit alice_line alice_row) as (_ & H1 & H2 & _).
  - vm_compute. reflexivity.
  - auto.
Defined.

End RowFieldsWitness.

(* ================================================================== *)
(** * Lines of a file *)

Section FileLines.
Import Re Parser Spec Lines.

Variable isdecimal : char -> bool.

(** X14. A line whose first character after stripping is not a decimal
    digit, a blank line or the second physical line of a long message for
    one, yields no row and leaves the data as it is: the text of such a
    line is lost, not appended to the message before it. *)
Theorem continuation_lines_dropped (line : str) :
  (forall c rest, strip line = c :: rest -> isdecimal c = false) ->
  parse_line isdecimal line = None /\
  (forall data, parse_step isdecimal data line = data) /\
  (forall data before after,
     fold_left (parse_step isdecimal) (before ++ [line] ++ after) data
     = fold_left (parse_step isdecimal) (before ++ after) data).
Proof.
  intros H.
  assert (E : parse_line isdecimal line = None).
  { unfold parse_line, re_match, pattern. cbn [cat].
    destruct (strip line) as [|c rest]; [reflexivity|].
    rewrite !run_cat. simpl. now rewrite (H c rest eq_refl). }
  assert (S : forall data, parse_step isdecimal data line = data).
  { intros data. unfold parse_step. now rewrite E. }
  split; [exact E|]. split; [exact S|].
  intros data before after. rewrite !fold_left_app. simpl. now rewrite S.
Qed.

Lemma readlines_concat (text : str) : concat (readlines text) = text.
Proof.
  induction text as [|c t IH]; [reflexivity|]. simpl.
  destruct (c =? newline)%N; simpl; [now rewrite IH|].
  destruct (readlines t) as [|l ls]; simpl in *; [now rewrite <- IH | now rewrite <- IH].
Qed.

Lemma readlines_nonempty (text : str) : forall l, In l (readlines text) -> l <> [].
Proof.
  induction text as [|c t IH]; simpl; [contradiction|].
  intros l Hl. destruct (c =? newline)%N.
  - destruct Hl as [<-|Hl]; [discriminate | now apply IH].
  - destruct (readlines t) as [|l0 ls].
    + destruct Hl as [<-|[]]. discriminate.
    + destruct Hl as [<-|Hl]; [discriminate | apply IH; now right].
Qed.

Lemma universal_newlines_step (n : nat) : forall raw,
  (length raw <= n)%nat ->
  ~ In carriage_return (universal_newlines raw) /\
  (length (universal_newlines raw) <= length raw)%nat /\
  (~ In carriage_return raw -> universal_newlines raw = raw).
Proof.
  induction n as [|n IH]; intros raw Hn.
  - destruct raw; [|simpl in Hn; lia]. simpl. repeat split; auto.
  - destruct raw as [|c t]; [simpl; repeat split; auto|].
    simpl in Hn. cbn [universal_newlines].
    destruct (N.eqb_spec c carriage_return) as [->|Nc].
    + destruct t as [|c' t'].
      * repeat split; [intros [E|[]]; discriminate | simpl; lia | intros H; exfalso; apply H; now left].
      * simpl in Hn. destruct (c' =? newline)%N.
        -- destruct (IH t' ltac:(lia)) as (H1 & H2 & _).
           repeat split; [intros [E|H]; [discriminate | auto] | simpl; lia
                         | intros H; exfalso; apply H; now left].
        -- destruct (IH (c' :: t') ltac:(simpl; lia)) as (H1 & H2 & _).
           repeat split; [intros [E|H]; [discriminate | auto] | simpl in *; lia
                         | intros H; exfalso; apply H; now left].
    + destruct (IH t ltac:(lia)) as (H1 & H2 & H3).
      repeat split; [intros [E|H]; [congruence | auto] | simpl; lia|].
      intros H. f_equal. apply H3. intros I. apply H. now right.
Qed.

(** X15. Reading a file as text leaves no carriage return in it and does
    not change a text that has none; the lines the loop iterates over are
    never empty and, put end to end, are the text again: no character is
    lost before a line reaches the pattern. *)
Theorem lines_of_text (raw : str) :
  ~ In carriage_return (universal_newlines raw) /\
  (~ In carriage_return raw -> universal_newlines raw = raw) /\
  concat (readlines (universal_newlines raw)) = universal_newlines raw /\
  (forall l, In l (readlines (universal_newlines raw)) ->
     l <> [] /\ newline_only_last l) /\
  (length (readlines (universal_newlines raw)) <= length raw)%nat.
Proof.
  destruct (@universal_newlines_step (length raw) raw (le_n _)) as (H1 & H2 & H3).
  split; [assumption|]. split; [assumption|]. split; [apply readlines_concat|].
  split.
  - intros l Hl. split; [eapply readlines_nonempty | eapply readlines_newline]; eauto.
  - etransitivity; [|exact H2].
    rewrite <- (readlines_concat (universal_newlines raw)) at 2.
    pose proof (@readlines_nonempty (universal_newlines raw)) as Hne.
    induction (readlines (universal_newlines raw)) as [|l ls IH]; [simpl; lia|].
    simpl. rewrite length_app.
    assert (l <> []) by (apply Hne; now left).
    assert (length ls <= length (concat ls))%nat by (apply IH; intros x Hx; apply Hne; now right).
    destruct l; [congruence | simpl; lia].
Qed.

End FileLines.

Section Incremental.
Import Re Parser Spec Lines.

Variable isdecimal : char -> bool.

Lemma universal_newlines_app (n : nat) : forall a b,
  (length a <= n)%nat ->
  universal_newlines (a ++ newline :: b)
  = universal_newlines (a ++ [newline]) ++ universal_newlines b /\
  exists x, universal_newlines (a ++ [newline]) = x ++ [newline].
Proof.
  induction n as [|n IH]; intros a b Hn.
  - destruct a; [|simpl in Hn; lia]. split; [reflexivity | now exists []].
  - destruct a as [|c t]; [split; [reflexivity | now exists []]|].
    simpl in Hn. cbn [app universal_newlines].
    destruct (c =? carriage_return)%N.
    + destruct t as [|c' t'].
      * cbn [app]. split; [reflexivity | now exists []].
      * simpl in Hn. cbn [app]. destruct (c' =? newline)%N.
        -- destruct (IH t' b ltac:(lia)) as (E & x & Ex). rewrite E, Ex.
           split; [reflexivity | now exists (newline :: x)].
        -- destruct (IH (c' :: t') b ltac:(simpl; lia)) as (E & x & Ex).
           cbn [app] in E, Ex. rewrite E, Ex.
           split; [reflexivity | now exists (newline :: x)].
    + destruct (IH t b ltac:(lia)) as (E & x & Ex). rewrite E, Ex.
      split; [reflexivity | now exists (c :: x)].
Qed.

Lemma readlines_app (u v : str) :
  readlines ((u ++ [newline]) ++ v) = readlines (u ++ [newline]) ++ readlines v.
Proof.
  induction u as [|c u IH]; [reflexivity|].
  cbn [app readlines]. destruct (c =? newline)%N.
  - cbn [app] in IH. now rewrite IH.
  - cbn [app] in IH. rewrite IH.
    destruct (readlines (u ++ [newline])) as [|l ls] eqn:E; [|reflexivity].
    exfalso. pose proof (readlines_concat (u ++ [newline])) as C.
    rewrite E in C. simpl in C. destruct u; discriminate.
Qed.

(** X16. Parsing is incremental: the rows of a file whose first part ends
    with a line feed are the rows of that part followed by the rows of the
    rest, so text added after a complete line never changes the rows
    already read. *)
Theorem parse_chat_app (a b : str) :
  parse_chat isdecimal (a ++ newline :: b)
  = parse_chat isdecimal (a ++ [newline]) ++ parse_chat isdecimal b.
Proof.
  unfold parse_chat.
  destruct (@universal_newlines_app (length a) a b (le_n _)) as (E & x & Ex).
  rewrite E, Ex, readlines_app, fold_left_app, !parse_steps. reflexivity.
Qed.

End Incremental.

(* ================================================================== *)
(** * Words and the data frame *)

Section Words.
Import Re Parser Spec Lines Construct.

Lemma split_from_words (s : str) : forall word w,
  forallb no_space word = true ->
  In w (split_from word s) -> w <> [] /\ forallb no_space w = true.
Proof.
  induction s as [|c s IH]; intros word w Hw Hin; simpl in Hin.
  - destruct word; [contradiction|]. destruct Hin as [<-|[]]. split; [discriminate | assumption].
  - destruct (isspace c) eqn:E.
    + destruct word as [|x word].
      * now apply (IH [] w).
      * destruct Hin as [<-|Hin]; [split; [discriminate | assumption] | now apply (IH [] w)].
    + apply (IH (word ++ [c]) w); [|assumption].
      rewrite forallb_app, Hw. simpl. unfold no_space. now rewrite E.
Qed.

Lemma split_from_nonempty (s : str) : forall word,
  word <> [] \/ (exists c, In c s /\ isspace c = false) -> split_from word s <> [].
Proof.
  induction s as [|c s IH]; intros word H; simpl.
  - destruct H as [H|(c & [] & _)]. destruct word; [congruence | discriminate].
  - destruct (isspace c) eqn:E.
    + destruct word as [|x word]; [|discriminate].
      apply IH. right. destruct H as [H|(c' & [<-|Hc'] & Hs)]; [congruence | congruence | eauto].
    + apply IH. left. destruct word; discriminate.
Qed.

Lemma split_from_length (s : str) : forall word,
  (length (split_from word s) <= length s + length word)%nat.
Proof.
  induction s as [|c s IH]; intros word; simpl.
  - destruct word; simpl; lia.
  - destruct (isspace c).
    + destruct word as [|x word]; simpl; [specialize (IH []); simpl in IH; lia|].
      specialize (IH []); simpl in IH; lia.
    + specialize (IH (word ++ [c])). rewrite length_app in IH. simpl in IH. lia.
Qed.

Lemma parsed_row_source (isdecimal : char -> bool) (raw : str) (row : Row) :
  In row (parse_chat isdecimal raw) ->
  exists line, In line (readlines (universal_newlines raw)) /\
               parse_line isdecimal line = Some row.
Proof.
  unfold parse_chat. rewrite parse_steps. cbn [app]. intros H.
  apply in_flat_map in H as (line & Hl & Hr). unfold rows_of_line in Hr.
  destruct (parse_line isdecimal line) as [row'|] eqn:E; [|contradiction].
  destruct Hr as [<-|[]]. eauto.
Qed.

(** X17. Every row read from a file has a word count of at least 1 and at
    most the length of its message, and the words counted are not empty and
    hold no white space: no row has a word count of zero. *)
Theorem word_count_positive (isdecimal : char -> bool) (raw : str) (row : Row) :
  In row (parse_chat isdecimal raw) ->
  (1 <= word_count row <= length (message row))%nat /\
  forall w, In w (split (message row)) -> w <> [] /\ forallb no_space w = true.
Proof.
  intros H. apply parsed_row_source in H as (line & Hl & Hp).
  destruct (parse_line_wellformed _ _ Hp) as [_ Hm].
  assert (Hnl : newline_only_last line) by (eapply readlines_newline; eauto).
  specialize (Hm Hnl).
  destruct (@parsed_row_stripped isdecimal line row Hp) as [_ Hs].
  unfold word_count, split. split; [split|].
  - assert (Hne : split_from [] (message row) <> []).
    { apply split_from_nonempty. right.
      destruct (message row) as [|c r] eqn:E; [congruence|].
      exists c. split; [now left|]. unfold strip in Hs. now apply lstrip_head in Hs. }
    destruct (split_from [] (message row)); [congruence | simpl; lia].
  - pose proof (split_from_length (message row) []) as L. simpl in L. lia.
  - intros w Hw. now apply (split_from_words (message row) [] w).
Qed.

End Words.

Section Loading.
Import Re Parser Spec Lines Construct.

Variable isdecimal : char -> bool.
Variable to_datetime : str -> result Z.

Lemma mapM_length {A B} (f : A -> result B) (l : list A) : forall ys,
  mapM f l = Ok ys -> length ys = length l.
Proof.
  induction l as [|x l IH]; intros ys H; simpl in H.
  - inversion H. reflexivity.
  - destruct (f x) as [y|]; [|discriminate]. cbn [bind] in H.
    destruct (mapM f l) as [ys'|]; [|discriminate]. cbn [bind] in H.
    inversion H. simpl. now rewrite (IH ys' eq_refl).
Qed.

Lemma map_fst_combine {A B C} (f : A -> C) (l : list A) : forall l' : list B,
  length l' = length l -> map (fun p => f (fst p)) (combine l l') = map f l.
Proof.
  induction l as [|x l IH]; intros [|y l'] H; simpl in *; try lia; [reflexivity|].
  f_equal. apply IH. lia.
Qed.

Lemma build_frame_ok (data : list Row) (df : Frame.DataFrame) :
  build_frame to_datetime data = Ok df ->
  data <> [] /\ length df = length data /\ map Frame.author df = map author data.
Proof.
  unfold build_frame, date_time_column. intros H.
  destruct data as [|row data]; [discriminate|]. cbn [bind] in H.
  destruct (mapM to_datetime _) as [dts|] eqn:E; [|discriminate]. cbn [bind] in H.
  apply mapM_length in E. rewrite length_map in E.
  injection H as <-. split; [discriminate|].
  change (match dts with
          | [] => []
          | y :: tl' => (row, y) :: combine data tl'
          end) with (combine (row :: data) dts).
  split.
  - rewrite length_map, length_combine, E. apply Nat.min_id.
  - rewrite map_map. cbn [Frame.author]. now apply map_fst_combine.
Qed.

(** X18. A file in which no line is in the grammar makes the constructor
    raise KeyError, whatever the date conversion does.  When the
    constructor returns, the frame is not empty: it has one row for each row
    parsed, with the same authors in the same order, so some line of the
    file is in the grammar, and streak_analysis and monologue_detection,
    which read row 0 unguarded, do not raise on it. *)
Theorem load_frame (raw : str) :
  ((forall line, In line (readlines (universal_newlines raw)) ->
                 ~ in_grammar isdecimal line) ->
   load isdecimal to_datetime raw = Raise KeyError) /\
  (forall df, load isdecimal to_datetime raw = Ok df ->
     df <> [] /\ length df = length (parse_chat isdecimal raw) /\
     map Frame.author df = map author (parse_chat isdecimal raw) /\
     (exists line, In line (readlines (universal_newlines raw)) /\
                   in_grammar isdecimal line) /\
     (exists streak, Frame.streak_analysis df = Ok streak) /\
     (exists rows, Frame.monologue_detection df = Ok rows)).
Proof.
  split.
  - intros Hno. unfold load.
    assert (E : parse_chat isdecimal raw = []).
    { destruct (parse_chat isdecimal raw) as [|row rows] eqn:E; [reflexivity|].
      exfalso.
      destruct (@parsed_row_source isdecimal raw row) as (line & Hl & Hp);
        [rewrite E; now left|].
      apply (Hno line Hl). apply parse_line_grammar. eauto. }
    now rewrite E.
  - intros df H. unfold load in H.
    destruct (build_frame_ok _ H) as (Hne & Hlen & Hauth).
    assert (Hdf : df <> []).
    { intros ->. destruct (parse_chat isdecimal raw); [congruence | discriminate]. }
    split; [assumption|]. split; [assumption|]. split; [assumption|]. split; [|split].
    + destruct (parse_chat isdecimal raw) as [|row rows] eqn:E; [congruence|].
      destruct (@parsed_row_source isdecimal raw row) as (line & Hl & Hp);
        [rewrite E; now left|].
      exists line. split; [assumption|]. apply parse_line_grammar. eauto.
    + destruct (streak_analysis_ok Hdf) as (m & e & Hrun & _). eauto.
    + destruct (monologues_scan_ok Hdf) as (ms & ca & cc & si & Hrun & _).
      unfold Frame.monologue_detection. rewrite Hrun. cbn [bind]. eauto.
Qed.

End Loading.

(* ================================================================== *)
(** * From the lines of the file to the events of the frame *)

Section Grammar.
Import Re Parser Spec.

Variable isdecimal : char -> bool.

Lemma digits_matches (n : nat) : forall s,
  all_digits isdecimal n s -> matches (digits isdecimal n) s [].
Proof.
  unfold digits, all_digits. induction n as [|n IH]; intros [|c s] [Hl Hd]; simpl in Hl;
    try discriminate.
  - constructor.
  - simpl in Hd. apply andb_true_iff in Hd as [Hc Hd].
    apply (M_RepS (s1 := [c]) (g1 := []) (g2 := [])).
    + now constructor.
    + apply IH. split; [lia | assumption].
Qed.

Lemma matches_lit_cons (c : char) (r : regex) (s : str) (g : list str) :
  matches r s g -> matches (Cat (lit c) r) (c :: s) g.
Proof. intros M. exact (M_Cat (M_Lit c) M). Qed.

Lemma matches_ws_cons (c : char) (r : regex) (s : str) (g : list str) :
  isspace c = true -> matches r s g -> matches (Cat ws r) (c :: s) g.
Proof. intros Hc M. exact (M_Cat (M_Cls isspace c Hc) M). Qed.

Lemma class_free (c : char) (s : str) :
  forallb (fun x => negb (x =? c)%N) s = true <-> ~ In c s.
Proof.
  rewrite forallb_forall. split.
  - intros H I. specialize (H _ I). rewrite N.eqb_refl in H. discriminate.
  - intros H x I. apply negb_true_iff, N.eqb_neq. intros ->. contradiction.
Qed.

(** The strings of the pattern are the well-formed headers with their
    message. *)
Lemma pattern_well_formed (s : str) :
  (exists gs, matches (pattern isdecimal) s gs) <-> well_formed isdecimal s.
Proof.
  split.
  - intros [gs M]. unfold pattern in M. cbn [cat] in M.
    repeat match goal with
           | H : matches (Cat _ _) _ _ |- _ =>
               let M1 := fresh "M" in let M2 := fresh "M" in
               inversion H as [| |? ? ? ? ? ? M1 M2| | | |]; subst; clear H
           | H : matches (Grp _) _ _ |- _ =>
               inversion H as [| | | | | |? ? ? H']; subst; clear H
           | H : matches (lit _) _ _ |- _ => inversion H; subst; clear H
           | H : matches ws _ _ |- _ => inversion H; subst; clear H
           | H : matches (Plus _) _ _ |- _ => inversion H; subst; clear H
           | H : matches (digits _ _) _ _ |- _ =>
               apply matches_digits in H; destruct H as (? & ? & ->)
           end.
    unfold well_formed, is_date, is_time, all_digits.
    repeat match goal with
           | H : forallb not_colon _ = true |- _ => apply class_free in H
           | H : forallb dot _ = true |- _ => apply class_free in H
           end.
    eexists _, _, _, _, _, _, _, _. split; [reflexivity|].
    split; [eexists _, _, _; split; [reflexivity | auto]|].
    split; [eexists _, _; split; [reflexivity | auto]|].
    split; [cbn [forallb]; repeat (apply andb_true_intro; split); auto|].
    auto.
  - intros (date & w1 & time & w2 & w3 & a & w4 & m & -> & Hd & Ht & Hw & Ha & Hc & Hm & Hn).
    destruct Hd as (dd & mm & yyyy & -> & Hdd & Hmm & Hyy).
    destruct Ht as (hh & mi & -> & Hhh & Hmi).
    cbn [forallb] in Hw.
    repeat match type of Hw with (_ && _)%bool = true =>
             let H := fresh "Hw" in apply andb_true_iff in Hw as [H Hw] end.
    apply class_free in Hc, Hn.
    unfold pattern. cbn [cat app]. eexists.
    eapply M_Cat.
    { apply M_Grp. eapply M_Cat; [now apply digits_matches|].
      apply matches_lit_cons. eapply M_Cat; [now apply digits_matches|].
      apply matches_lit_cons. now apply digits_matches. }
    apply matches_lit_cons. apply matches_ws_cons; [assumption|].
    eapply M_Cat.
    { apply M_Grp. eapply M_Cat; [now apply digits_matches|].
      apply matches_lit_cons. now apply digits_matches. }
    apply matches_ws_cons; [assumption|]. apply matches_lit_cons.
    apply matches_ws_cons; [assumption|].
    eapply M_Cat; [apply M_Grp; now apply M_Plus|].
    apply matches_lit_cons. apply matches_ws_cons; [assumption|].
    apply M_Grp. now apply M_Plus.
Qed.

Lemma in_grammar_well_formed (line : str) :
  in_grammar isdecimal line <->
  exists s rest, strip line = s ++ rest /\ well_formed isdecimal s.
Proof.
  unfold in_grammar. split.
  - intros (s1 & s2 & gs & E & M). exists s1, s2. split; [assumption|].
    apply pattern_well_formed. eauto.
  - intros (s & rest & E & W). apply pattern_well_formed in W as [gs M].
    exists s, rest, gs. auto.
Qed.

End Grammar.

Section ParseEvents.
Import Re Parser Spec Lines Construct.

Variable isdecimal : char -> bool.
Variable to_datetime : str -> result Z.

Lemma matched_grammar (line : str) :
  matched isdecimal line = true <-> in_grammar isdecimal line.
Proof.
  rewrite parse_line_grammar. unfold matched.
  destruct (parse_line isdecimal line) as [row|]; split; try discriminate; eauto.
  intros [row H]. discriminate.
Qed.

Lemma rows_of_matched (lines : list str) :
  Forall2 (fun line row => parse_line isdecimal line = Some row)
          (filter (matched isdecimal) lines)
          (flat_map (rows_of_line isdecimal) lines).
Proof.
  induction lines as [|l lines IH]; simpl; [constructor|].
  unfold matched, rows_of_line at 1.
  destruct (parse_line isdecimal l) as [row|] eqn:E; simpl; [|assumption].
  now constructor.
Qed.

Lemma frame_rows (data : list Row) : forall dts,
  mapM to_datetime (map stamp data) = Ok dts ->
  Forall2 (fun row e => Frame.author e = author row /\
                        to_datetime (stamp row) = Ok (Frame.datetime e))
          data
          (map (fun p => Frame.mkEvent (author (fst p)) (snd p)) (combine data dts)).
Proof.
  induction data as [|row data IH]; intros dts H; simpl in H.
  - constructor.
  - destruct (to_datetime (stamp row)) as [t|] eqn:E; [|discriminate]. cbn [bind] in H.
    destruct (mapM to_datetime (map stamp data)) as [ts|]; [|discriminate].
    cbn [bind] in H. inversion H; subst dts. simpl.
    constructor; [split; [reflexivity | assumption]|]. now apply IH.
Qed.

Lemma build_frame_rows (data : list Row) (df : Frame.DataFrame) :
  build_frame to_datetime data = Ok df ->
  Forall2 (fun row e => Frame.author e = author row /\
                        to_datetime (stamp row) = Ok (Frame.datetime e)) data df.
Proof.
  unfold build_frame, date_time_column. intros H.
  destruct data as [|row data]; [discriminate|]. cbn [bind] in H.
  change (map (fun row0 => date row0 ++ [32%N] ++ time row0) (row :: data))
    with (map stamp (row :: data)) in H.
  destruct (mapM to_datetime (map stamp (row :: data))) as [dts|] eqn:E; [|discriminate].
  cbn [bind] in H. injection H as <-. exact (@frame_rows (row :: data) dts E).
Qed.

Lemma Forall2_compose {A B C} (P : A -> B -> Prop) (Q : B -> C -> Prop)
      (l1 : list A) (l2 : list B) :
  Forall2 P l1 l2 -> forall l3, Forall2 Q l2 l3 ->
  Forall2 (fun a c => exists b, P a b /\ Q b c) l1 l3.
Proof.
  induction 1 as [|a b l1 l2 Hab H IH]; intros l3 H3; inversion H3; subst;
    constructor; eauto.
Qed.

Lemma mapM_raise {A B} (f : A -> result B) (l : list A) (x : A) (e : exn) :
  In x l -> f x = Raise e ->
  exists x' e', In x' l /\ f x' = Raise e' /\ mapM f l = Raise e'.
Proof.
  induction l as [|a l IH]; intros Hin Hx; [contradiction|]. simpl.
  destruct (f a) as [y|e0] eqn:E.
  - destruct Hin as [->|Hin]; [congruence|].
    destruct (IH Hin Hx) as (x' & e' & Hx' & Hf & Hm).
    exists x', e'. split; [now right|]. split; [assumption|].
    cbn [bind]. now rewrite Hm.
  - exists a, e0. split; [now left|]. split; [assumption | reflexivity].
Qed.

(** C8, as the code has it.  A line is in the grammar exactly when a prefix
    of it, once stripped, is [DD/MM/YYYY, HH:MM - Author: Message].  The
    loop is total on lines: a line in the grammar yields exactly one row,
    appended to the data; a line outside it yields no row, leaves the data
    as it is and raises nothing; parsing a line a second time yields the
    same row again; the rows of a file are the rows of its matching lines,
    in order.  The rows become events through the date conversion of the
    whole column.  When the constructor returns, the frame has exactly one
    event for each matching line, in order, with the author of its row and
    the time stamp of its date and time, and no event for any other line.
    It returns when some line matches and the conversion accepts the date
    and time of every row.  When the conversion rejects the date and time
    of one row, the constructor raises what the conversion raised: no line
    of the file yields an event. *)
Theorem parse_chat_events (raw : str) :
  (forall line, in_grammar isdecimal line <->
                exists s rest, strip line = s ++ rest /\ well_formed isdecimal s) /\
  (forall line, in_grammar isdecimal line ->
     exists row, parse_line isdecimal line = Some row /\
                 forall data, parse_step isdecimal data line = data ++ [row]) /\
  (forall line, ~ in_grammar isdecimal line ->
     parse_line isdecimal line = None /\
     forall data, parse_step isdecimal data line = data) /\
  (forall data line row, parse_line isdecimal line = Some row ->
     parse_step isdecimal (parse_step isdecimal data line) line = data ++ [row; row]) /\
  (forall line, matched isdecimal line = true <-> in_grammar isdecimal line) /\
  Forall2 (fun line row => parse_line isdecimal line = Some row)
          (filter (matched isdecimal) (readlines (universal_newlines raw)))
          (parse_chat isdecimal raw) /\
  (forall df, load isdecimal to_datetime raw = Ok df ->
     Forall2 (fun line e => exists row, parse_line isdecimal line = Some row /\
                Frame.author e = author row /\
                to_datetime (stamp row) = Ok (Frame.datetime e))
             (filter (matched isdecimal) (readlines (universal_newlines raw))) df) /\
  ((exists line, In line (readlines (universal_newlines raw)) /\
                 in_grammar isdecimal line) ->
   (forall row, In row (parse_chat isdecimal raw) ->
                exists t, to_datetime (stamp row) = Ok t) ->
   exists df, load isdecimal to_datetime raw = Ok df) /\
  (forall row e, In row (parse_chat isdecimal raw) ->
     to_datetime (stamp row) = Raise e ->
     exists row' e', In row' (parse_chat isdecimal raw) /\
       to_datetime (stamp row') = Raise e' /\
       load isdecimal to_datetime raw = Raise e').
Proof.
  assert (Hrows : Forall2 (fun line row => parse_line isdecimal line = Some row)
                    (filter (matched isdecimal) (readlines (universal_newlines raw)))
                    (parse_chat isdecimal raw)).
  { unfold parse_chat. rewrite parse_steps. cbn [app]. apply rows_of_matched. }
  split; [intros line; apply in_grammar_well_formed|].
  split.
  { intros line H. apply parse_line_grammar in H as [row H].
    exists row. split; [assumption|]. intros data. unfold parse_step. now rewrite H. }
  split.
  { intros line H.
    assert (E : parse_line isdecimal line = None).
    { destruct (parse_line isdecimal line) as [row|] eqn:E; [|reflexivity].
      exfalso. apply H. apply parse_line_grammar. eauto. }
    split; [assumption|]. intros data. unfold parse_step. now rewrite E. }
  split.
  { intros data line row H. unfold parse_step. rewrite H. now rewrite <- app_assoc. }
  split; [exact matched_grammar|]. split; [exact Hrows|]. split; [|split].
  - intros df H. unfold load in H. apply build_frame_rows in H.
    eapply Forall2_impl; [|exact (Forall2_compose Hrows H)].
    intros line e (row & Hp & Ha & Ht). eauto.
  - intros (line & Hl & Hg) Hall. unfold load, build_frame, date_time_column.
    destruct (parse_chat isdecimal raw) as [|row data] eqn:E.
    { exfalso. apply matched_grammar in Hg.
      assert (Hf : In line (filter (matched isdecimal) (readlines (universal_newlines raw))))
        by (apply filter_In; now split).
      inversion Hrows as [Hnil|]; subst. rewrite <- Hnil in Hf. contradiction. }
    cbn [bind].
    destruct (@mapM_ok _ _ to_datetime (fun _ _ => True)
                (map (fun row0 => date row0 ++ [32%N] ++ time row0) (row :: data)))
      as (dts & Hd & _).
    { intros x Hx. apply in_map_iff in Hx as (r & <- & Hr).
      destruct (Hall r Hr) as [t Ht]. exists t. split; [exact Ht | exact I]. }
    rewrite Hd. cbn [bind]. eauto.
  - intros row e Hin He. unfold load, build_frame, date_time_column.
    destruct (parse_chat isdecimal raw) as [|row0 data] eqn:E; [contradiction|].
    cbn [bind].
    destruct (@mapM_raise _ _ to_datetime
                (map (fun r => date r ++ [32%N] ++ time r) (row0 :: data)) (stamp row) e)
      as (x' & e' & Hx' & Hf & Hm).
    { change (stamp row) with ((fun r => date r ++ [32%N] ++ time r) row). now apply in_map. }
    { assumption. }
    apply in_map_iff in Hx' as (row' & <- & Hr').
    exists row', e'. split; [assumption|]. split; [exact Hf|].
    rewrite Hm. reflexivity.
Qed.

End ParseEvents.

(* ================================================================== *)
(** * The properties above on sample inputs *)

Section Samples.
Import Frame Spec Analyses Gaps Examples Parser Lines Construct.

Lemma conversation_starters_rows_witness :
  exists a c fill,
    c = count_occ str_eq_dec (openers 4 sessions) a /\ (1 <= c)%nat /\
    (0 < fill)%Q /\ (fill <= 40)%Q.
Proof.
  destruct (proj2 (proj2 (conversation_starters_rows 10 sessions)))
    as (rows & Hrun & _ & _ & Hrow).
  destruct rows as [|[[a c] fill] rows]; [vm_compute in Hrun; discriminate|].
  exists a, c, fill. apply Hrow. left. reflexivity.
Defined.

Lemma interaction_rows_witness :
  exists (pair : str * str) n,
    (1 <= n <= length edge_example - 1)%nat /\ fst pair <> snd pair.
Proof.
  destruct (interaction_rows edge_example) as (rows & Hrun & _ & _ & _ & Hrow & _).
  destruct rows as [|[pair n] rows]; [vm_compute in Hrun; discriminate|].
  exists pair, n. apply Hrow. left. reflexivity.
Defined.

Lemma who_talks_within_interactions_witness :
  exists pair n,
    n = count_occ pair_eq_dec (quick_pairs edge_example) pair /\
    (1 <= n <= count_occ pair_eq_dec (edges edge_example) pair)%nat /\
    fst pair <> snd pair.
Proof.
  destruct (proj2 (proj2 (who_talks_within_interactions edge_example)))
    as (rows & Hrun & _ & Hrow).
  destruct rows as [|[pair n] rows]; [vm_compute in Hrun; discriminate|].
  exists pair, n. apply Hrow. left. reflexivity.
Defined.

Lemma silence_periods_rows_witness :
  exists g d,
    (exists t, In t (transitions sessions) /\ g = silence_of t) /\
    (3600 < s_end g - s_start g)%Z /\
    s_hours g = (inject_Z (s_end g - s_start g) / 3600)%Q /\
    d = (s_hours g / 24)%Q.
Proof.
  destruct (silence_periods_rows sessions) as (rows & Hrun & _ & Hrow & _).
  destruct rows as [|[g d] rows]; [vm_compute in Hrun; discriminate|].
  exists g, d. apply Hrow. left. reflexivity.
Defined.

Lemma weekend_vs_weekday_total_witness :
  weekend_vs_weekday [] = Raise ZeroDivisionError /\
  exists weekday weekday_pct weekend weekend_pct,
    weekend_vs_weekday six_days = Ok (weekday, weekday_pct, weekend, weekend_pct) /\
    (weekday + weekend = length six_days)%nat /\
    ((0 <= weekday_pct)%Q /\ (weekday_pct <= 100)%Q) /\
    ((0 <= weekend_pct)%Q /\ (weekend_pct <= 100)%Q).
Proof.
  split.
  - apply (proj1 (weekend_vs_weekday_total [])). reflexivity.
  - destruct (proj2 (weekend_vs_weekday_total six_days))
      as (wd & wdp & we & wep & H1 & _ & H2 & H3 & H4 & _); [discriminate|].
    exists wd, wdp, we, wep. auto.
Defined.

Lemma run_scans_sound_witness :
  exists bursts current,
    bursts_scan (pair_then_pause 299) = Ok (bursts, current) /\
    exists average median,
      conversation_length_analysis (pair_then_pause 299)
      = Ok (Some (length bursts, average, nmax bursts, median)) /\
      average = (of_nat (nsum bursts) / of_nat (length bursts))%Q /\
      In median bursts /\ In (nmax bursts) bursts /\ (median <= nmax bursts)%nat.
Proof.
  destruct (proj1 (run_scans_sound (pair_then_pause 299)))
    as (bursts & current & Hrun & _ & _ & _ & _ & _ & Hreport).
  exists bursts, current. split; [assumption|]. apply Hreport.
  vm_compute in Hrun. inversion Hrun. discriminate.
Defined.

Lemma response_time_bounds_witness :
  ((129600000 # 51840000) < 60)%Q /\ ((180 # 60) < 60)%Q.
Proof.
  destruct (@response_time_bounds four_replies (129600000 # 51840000)%Q (180 # 60)%Q)
    as (H1 & H2 & _); [vm_compute; reflexivity|].
  split; assumption.
Defined.

Lemma response_rate_rows_witness :
  exists a (rate : Q) n,
    In a (map Frame.author edge_example) /\ n = messages_of edge_example a /\ (1 <= n)%nat.
Proof.
  destruct (response_rate_rows edge_example) as (rows & Hrun & _ & _ & _ & Hrow & _).
  destruct rows as [|[[a rate] n] rows]; [vm_compute in Hrun; discriminate|].
  exists a, rate, n. apply (Hrow a rate n). left. reflexivity.
Defined.

Lemma continuation_lines_dropped_witness :
  parse_line ascii_digit continuation_line = None /\
  parse_step ascii_digit [alice_row] continuation_line = [alice_row].
Proof.
  destruct (@continuation_lines_dropped ascii_digit continuation_line) as (H1 & H2 & _).
  - intros c rest E. vm_compute in E. inversion E. reflexivity.
  - split; [exact H1 | apply H2].
Defined.

Lemma lines_of_text_witness :
  universal_newlines alice_line = alice_line /\
  (alice_line ++ [newline] <> [] /\ newline_only_last (alice_line ++ [newline])).
Proof.
  split.
  - apply (proj1 (proj2 (lines_of_text alice_line))).
    vm_compute. intros H. repeat (destruct H as [H|H]; [discriminate|]). exact H.
  - apply (proj1 (proj2 (proj2 (proj2 (lines_of_text chat))))).
    vm_compute. left. reflexivity.
Defined.

Lemma word_count_positive_witness :
  (1 <= word_count alice_row <= length (message alice_row))%nat.
Proof.
  apply (@word_count_positive ascii_digit chat alice_row).
  vm_compute. left. reflexivity.
Defined.

Lemma load_frame_witness :
  load ascii_digit (fun _ => Ok 0%Z) continuation_line = Raise KeyError /\
  exists df, load ascii_digit (fun _ => Ok 0%Z) chat = Ok df /\ df <> [] /\
             length df = length (parse_chat ascii_digit chat).
Proof.
  split.
  - apply (proj1 (load_frame ascii_digit (fun _ => Ok 0%Z) continuation_line)).
    intros line Hl. vm_compute in Hl. destruct Hl as [<-|[]].
    intros H. apply parse_line_grammar in H as [row H]. vm_compute in H. discriminate.
  - destruct (load ascii_digit (fun _ => Ok 0%Z) chat) as [df|e] eqn:E;
      [|vm_compute in E; discriminate].
    exists df. split; [reflexivity|].
    destruct (proj2 (load_frame ascii_digit (fun _ => Ok 0%Z) chat) df E) as (H1 & H2 & _).
    split; assumption.
Defined.

Lemma unbroken_burst_is_dropped_witness :
  bursts_scan five_in_a_row = Ok ([], 5%nat) /\
  conversation_length_analysis five_in_a_row = Ok None.
Proof.
  apply (@unbroken_burst_is_dropped five_in_a_row).
  intros t Ht. vm_compute in Ht.
  repeat (destruct Ht as [<-|Ht]; [vm_compute; reflexivity|]). contradiction.
Defined.

End Samples.

(* ================================================================== *)
(** * Sample files through the constructor *)

Section EventSamples.
Import Parser Spec Lines Construct.

Lemma parse_chat_events_witness :
  exists df,
    load ascii_digit (Calendar.to_datetime Calendar.ascii_value Calendar.nanoseconds) chat
    = Ok df /\
    map Frame.datetime df = [1615545900; 1615545960]%Z.
Proof.
  destruct (proj1 (proj2 (proj2 (proj2 (proj2 (proj2 (proj2 (proj2
              (parse_chat_events ascii_digit
                 (Calendar.to_datetime Calendar.ascii_value Calendar.nanoseconds)
                 chat)))))))))
    as [df H].
  - exists (alice_line ++ [newline]). split; [vm_compute; left; reflexivity|].
    apply parse_line_grammar. exists alice_row. vm_compute. reflexivity.
  - intros row Hrow. vm_compute in Hrow.
    destruct Hrow as [<-|[<-|[]]]; eexists; vm_compute; reflexivity.
  - exists df. split; [assumption|].
    vm_compute in H. inversion H. reflexivity.
Defined.

(** C8 as stated fails on a line of the pattern whose date is no calendar
    date: both lines of [bad_date_chat] are in the grammar and each gives a
    row, but the constructor raises ValueError and neither yields an
    event. *)
Lemma impossible_date_aborts :
  in_grammar ascii_digit alice_line /\ in_grammar ascii_digit bad_date_line /\
  length (parse_chat ascii_digit bad_date_chat) = 2%nat /\
  load ascii_digit (Calendar.to_datetime Calendar.ascii_value Calendar.nanoseconds)
       bad_date_chat
  = Raise ValueError.
Proof.
  split; [|split; [|split]].
  - apply parse_line_grammar. eexists. vm_compute. reflexivity.
  - apply parse_line_grammar. eexists. vm_compute. reflexivity.
  - vm_compute. reflexivity.
  - vm_compute. reflexivity.
Qed.

End EventSamples.
